(** * Protocol transcoders of the router configuration: a shallow embedding

    The development follows the JavaScript sources

    - [plugins/gemini-cli.js]      (Cloud-Code upstream: schema adapter,
                                    request tools, response transcoders),
    - [claude-anthropic.js] and [plugins/kimi-anthropic.js]
                                   (Anthropic-style upstreams: request
                                    conversion, SSE event handler, stream
                                    reader, JSON response).

    Conventions of the embedding.

    - JSON documents are values of [json]; a JavaScript object is an
      association list in enumeration order ([Object.entries]).  A property
      written with [obj[k] = v] keeps its place when [k] is already present
      and is appended otherwise.  (An engine enumerates array-index keys such
      as "0" before all others; the lists below record insertion order, which
      is the enumeration order whenever no array-index key is inserted after
      an ordinary key.)  Property names are ordinary names: [__proto__],
      which an assignment treats specially, is outside the model.
    - Strings are [string]; [toUpperCase] acts on the letters a-z, which is
      all the comparison with the upper-case [Type] names can observe on
      ASCII input.
    - A JavaScript exception is a value [Err e] of the [result] type.
    - [Date.now()], [Math.random()], [JSON.parse] and [JSON.stringify] are
      library calls; they enter as arguments or Section variables.  The
      [URL] constructor is a library call too: a request address is
      recorded as the text handed to it. *)

From Stdlib Require Import ZArith List String Ascii Bool Lia Arith PeanoNat.
From Stdlib Require Import DecimalString.
Import ListNotations.

Local Open Scope string_scope.
Local Open Scope list_scope.

(* ================================================================== *)
(** ** JavaScript values and the library operations the sources use    *)
(* ================================================================== *)

Module JS.

(** Exceptions.  [JsError msg] is [throw new Error(msg)]; [TypeError] is
    the engine's own (property of [null], call of a missing method,
    iteration of a non-iterable). *)
Inductive error : Type :=
| JsError (message : string)
| TypeError.

Inductive result (A : Type) : Type :=
| Ok (a : A)
| Err (e : error).
Arguments Ok {A} a.
Arguments Err {A} e.

Definition bind {A B} (r : result A) (k : A -> result B) : result B :=
  match r with
  | Ok a => k a
  | Err e => Err e
  end.

Definition is_ok {A} (r : result A) : bool :=
  match r with Ok _ => true | Err _ => false end.

(** JSON values.  Numbers only travel through the code untouched (and are
    tested for truthiness), so integers stand for them. *)
#[warnings="-register-all"]
Inductive json : Type :=
| JNull
| JBool (b : bool)
| JNum (n : Z)
| JStr (s : string)
| JArr (elements : list json)
| JObj (properties : list (string * json)).

Definition obj : Type := list (string * json).

(** [o[k]] on an object: [None] is [undefined]. *)
Fixpoint get (k : string) (o : obj) : option json :=
  match o with
  | [] => None
  | (k', v) :: rest => if String.eqb k k' then Some v else get k rest
  end.

(** [o[k] = v]. *)
Fixpoint set (k : string) (v : json) (o : obj) : obj :=
  match o with
  | [] => [(k, v)]
  | (k', v') :: rest =>
      if String.eqb k k' then (k', v) :: rest else (k', v') :: set k v rest
  end.

(** [Object.keys(o).includes(k)]. *)
Definition has_key (k : string) (o : obj) : bool :=
  existsb (fun kv => String.eqb k (fst kv)) o.

(** Truthiness of a value that may be [undefined]. *)
Definition truthy (v : option json) : bool :=
  match v with
  | None => false
  | Some JNull => false
  | Some (JBool b) => b
  | Some (JNum n) => negb (Z.eqb n 0)
  | Some (JStr s) => negb (String.eqb s "")
  | Some (JArr _) => true
  | Some (JObj _) => true
  end.

(** [v[k]] for a property name [k] that no primitive and no array carries
    (the sources read "type" and "anyOf" this way): [undefined] on
    primitives and arrays, a [TypeError] on [null]. *)
Definition prop (k : string) (v : json) : result (option json) :=
  match v with
  | JNull => Err TypeError
  | JObj o => Ok (get k o)
  | _ => Ok None
  end.

(** [v === s] for a string literal [s]. *)
Definition strict_eq_str (v : option json) (s : string) : bool :=
  match v with
  | Some (JStr t) => String.eqb t s
  | _ => false
  end.

(** [v == "null"].  Loose equality with a string converts an array to its
    [join(",")] text: a one-element array whose element prints as "null"
    compares equal.  Numbers, booleans, [null], [undefined] and plain
    objects never do. *)
Fixpoint loose_eq_null_literal_json (v : json) : bool :=
  match v with
  | JStr t => String.eqb t "null"
  | JArr [x] => loose_eq_null_literal_json x
  | _ => false
  end.

Definition loose_eq_null_literal (v : option json) : bool :=
  match v with
  | Some j => loose_eq_null_literal_json j
  | None => false
  end.

Definition upper_ascii (c : ascii) : ascii :=
  let n := nat_of_ascii c in
  if (97 <=? n)%nat && (n <=? 122)%nat then ascii_of_nat (n - 32) else c.

Fixpoint upper (s : string) : string :=
  match s with
  | EmptyString => EmptyString
  | String c rest => String (upper_ascii c) (upper rest)
  end.

(** [v.toUpperCase()]: only strings have the method. *)
Definition toUpperCase (v : json) : result string :=
  match v with
  | JStr s => Ok (upper s)
  | _ => Err TypeError
  end.

Definition index_key (i : nat) : string :=
  NilZero.string_of_uint (Nat.to_uint i).

Fixpoint indexed_from {A} (i : nat) (l : list A) : list (string * A) :=
  match l with
  | [] => []
  | x :: rest => (index_key i, x) :: indexed_from (S i) rest
  end.

Fixpoint chars (s : string) : list json :=
  match s with
  | EmptyString => []
  | String c rest => JStr (String c EmptyString) :: chars rest
  end.

(** [Object.entries(v)] for a value that is not [null]: the properties of
    an object, the indexed elements of an array, the indexed characters of
    a string, nothing for a number or a boolean. *)
Definition entries (v : json) : result obj :=
  match v with
  | JNull => Err TypeError
  | JObj o => Ok o
  | JArr l => Ok (indexed_from 0 l)
  | JStr s => Ok (indexed_from 0 (chars s))
  | JBool _ | JNum _ => Ok []
  end.

(** The values a [for (const item of v)] loop visits: array elements or
    the characters of a string; anything else is not iterable. *)
Definition iterate (v : json) : result (list json) :=
  match v with
  | JArr l => Ok l
  | JStr s => Ok (chars s)
  | _ => Err TypeError
  end.

(** Monadic left fold: a [for] loop whose body may throw. *)
Fixpoint foldM {A S} (f : S -> A -> result S) (l : list A) (s : S)
  : result S :=
  match l with
  | [] => Ok s
  | x :: rest => bind (f s x) (foldM f rest)
  end.

(** Nesting depth: the longest chain of containers. *)
Fixpoint depth (j : json) : nat :=
  match j with
  | JArr l => S (fold_right (fun x acc => Nat.max (depth x) acc) 0%nat l)
  | JObj o => S (fold_right (fun kv acc => Nat.max (depth (snd kv)) acc)
                            0%nat o)
  | _ => 0%nat
  end.

(** *** Strings *)

Definition lower_ascii (c : ascii) : ascii :=
  let n := nat_of_ascii c in
  if (65 <=? n)%nat && (n <=? 90)%nat then ascii_of_nat (n + 32) else c.

Fixpoint lower (s : string) : string :=
  match s with
  | EmptyString => EmptyString
  | String c rest => String (lower_ascii c) (lower rest)
  end.

(** [s.startsWith(p)]. *)
Definition startsWith (p s : string) : bool := String.prefix p s.

(** [s.slice(n)] for [n >= 0]. *)
Fixpoint slice (n : nat) (s : string) : string :=
  match n, s with
  | O, _ => s
  | S m, EmptyString => EmptyString
  | S m, String _ rest => slice m rest
  end.

(** White space on the ASCII range: tab, line feed, vertical tab, form feed,
    carriage return, space. *)
Definition is_space (c : ascii) : bool :=
  let n := nat_of_ascii c in
  ((9 <=? n)%nat && (n <=? 13)%nat) || (n =? 32)%nat.

Fixpoint trimStart (s : string) : string :=
  match s with
  | EmptyString => EmptyString
  | String c rest => if is_space c then trimStart rest else s
  end.

(** Drops trailing white space: a character is kept when it is not white
    space or when something is kept after it. *)
Fixpoint trimEnd (s : string) : string :=
  match s with
  | EmptyString => EmptyString
  | String c rest =>
      match trimEnd rest with
      | EmptyString => if is_space c then EmptyString
                       else String c EmptyString
      | kept => String c kept
      end
  end.

(** [s.trim()]. *)
Definition trim (s : string) : string := trimEnd (trimStart s).

Definition newline : ascii := ascii_of_nat 10.

(** [s.split("\n")]: the segments between line feeds; never empty. *)
Fixpoint split_lines (s : string) : list string :=
  match s with
  | EmptyString => [EmptyString]
  | String c rest =>
      if Ascii.eqb c newline then EmptyString :: split_lines rest
      else match split_lines rest with
           | seg :: segs => String c seg :: segs
           | [] => [String c EmptyString]
           end
  end.

(** [l.join(sep)] on strings; an absent element prints as the empty
    string. *)
Fixpoint join (sep : string) (l : list (option string)) : string :=
  match l with
  | [] => EmptyString
  | [x] => match x with Some s => s | None => EmptyString end
  | x :: rest =>
      (match x with Some s => s | None => EmptyString end)
        ++ sep ++ join sep rest
  end.

(** [v || d] on strings and on numbers, [v ?? d]. *)
Definition or_string (v : option string) (d : string) : string :=
  match v with
  | Some s => if String.eqb s EmptyString then d else s
  | None => d
  end.

Definition or_number (v : option Z) (d : Z) : Z :=
  match v with
  | Some n => if Z.eqb n 0 then d else n
  | None => d
  end.

Definition nullish {A} (v : option A) (d : A) : A :=
  match v with
  | Some a => a
  | None => d
  end.

(** [a[i]] on an array: [undefined] outside the bounds. *)
Definition array_get {A} (a : list A) (i : Z) : option A :=
  if (i <? 0)%Z then None else nth_error a (Z.to_nat i).

(** The decimal text of an integer, as a template literal prints it. *)
Definition decimal (n : Z) : string :=
  NilZero.string_of_int (Z.to_int n).

End JS.

Declare Scope js_scope.
Delimit Scope js_scope with js.
Notation "x <- c ;; k" := (JS.bind c (fun x => k))
  (at level 61, c at next level, right associativity) : js_scope.
Notation "' p <- c ;; k" := (JS.bind c (fun p => k))
  (at level 61, p pattern, c at next level, right associativity) : js_scope.

(* ================================================================== *)
(** ** plugins/gemini-cli.js: the JSON-Schema adapter                  *)
(* ================================================================== *)

Module Gemini.
Import JS.
Local Open Scope js_scope.

(** [Object.values(Type)]. *)
Definition TYPE_UNSPECIFIED : string := "TYPE_UNSPECIFIED".

Definition Type_values : list string :=
  [ TYPE_UNSPECIFIED; "STRING"; "NUMBER"; "INTEGER"; "BOOLEAN"; "ARRAY";
    "OBJECT"; "NULL" ].

(** [Object.values(Type).includes(u) ? u : Type.TYPE_UNSPECIFIED]. *)
Definition typeName (upperCaseType : string) : string :=
  if existsb (String.eqb upperCaseType) Type_values
  then upperCaseType else TYPE_UNSPECIFIED.

Definition is_null_name (t : json) : bool := strict_eq_str (Some t) "null".

(** [flattenTypeArrayToAnyOf(typeList, resultingSchema)] (lines 24-46); the
    schema object it mutates is returned. *)
Definition flattenTypeArrayToAnyOf (typeList : list json)
  (resultingSchema : obj) : result obj :=
  let resultingSchema :=
    if existsb is_null_name typeList
    then set "nullable" (JBool true) resultingSchema
    else resultingSchema in
  let listWithoutNull := filter (fun t => negb (is_null_name t)) typeList in
  match listWithoutNull with
  | [t] =>
      upperCaseType <- toUpperCase t ;;
      Ok (set "type" (JStr (typeName upperCaseType)) resultingSchema)
  | _ =>
      anyOf <- foldM (fun acc i =>
                        upperCaseType <- toUpperCase i ;;
                        Ok (acc ++ [JObj [("type",
                                           JStr (typeName upperCaseType))]]))
                     listWithoutNull [] ;;
      Ok (set "anyOf" (JArr anyOf) resultingSchema)
  end.

Definition schemaFieldNames : list string := ["items"].
Definition listSchemaFieldNames : list string := ["anyOf"].
Definition dictSchemaFieldNames : list string := ["properties"].

Definition includes (names : list string) (fieldName : string) : bool :=
  existsb (String.eqb fieldName) names.

Definition conflict_message : string :=
  "type and anyOf cannot be both populated.".

Definition null_only_message : string :=
  "type: null can not be the only possible type for the field.".

(** [a && a["type"] === "null"] (lines 78 and 81). *)
Definition null_typed (a : json) : bool :=
  truthy (Some a) &&
  match prop "type" a with
  | Ok t => strict_eq_str t "null"
  | Err _ => false
  end.

(** Lines 72-85: a two-element [anyOf] with a "null" alternative makes the
    result nullable and replaces the fragment by the other alternative. *)
Definition collapseNullableAnyOf (_jsonSchema : json)
  (incomingAnyOf : option json) : obj * json :=
  match incomingAnyOf with
  | Some (JArr [a0; a1]) =>
      if null_typed a0 then (set "nullable" (JBool true) [], a1)
      else if null_typed a1 then (set "nullable" (JBool true) [], a0)
      else ([], _jsonSchema)
  | _ => ([], _jsonSchema)
  end.

(** One round of the [anyOf] loop (lines 116-122): the state is the schema
    under construction and the list of converted alternatives. *)
Definition convertAlternative (rec : json -> result json)
  (st : obj * list json) (item : json) : result (obj * list json) :=
  t <- prop "type" item ;;
  if loose_eq_null_literal t
  then Ok (set "nullable" (JBool true) (fst st), snd st)
  else r <- rec item ;; Ok (fst st, snd st ++ [r]).

(** One round of the [properties] loop (lines 126-128). *)
Definition convertProperty (rec : json -> result json)
  (dictSchemaFieldValue : obj) (entry : string * json) : result obj :=
  r <- rec (snd entry) ;; Ok (set (fst entry) r dictSchemaFieldValue).

(** Lines 97-136: the conversion of a field whose value is not [null];
    [rec] is the recursive call. *)
Definition convertPresentField (rec : json -> result json)
  (genAISchema : obj) (fieldName : string) (fieldValue : json)
  : result obj :=
  if String.eqb fieldName "type" then
    if strict_eq_str (Some fieldValue) "null" then
      Err (JsError null_only_message)
    else
      match fieldValue with
      | JArr _ => Ok genAISchema
      | _ =>
          upperCaseValue <- toUpperCase fieldValue ;;
          Ok (set "type" (JStr (typeName upperCaseValue)) genAISchema)
      end
  else if includes schemaFieldNames fieldName then
    r <- rec fieldValue ;; Ok (set fieldName r genAISchema)
  else if includes listSchemaFieldNames fieldName then
    items <- iterate fieldValue ;;
    st <- foldM (convertAlternative rec) items (genAISchema, []) ;;
    Ok (set fieldName (JArr (snd st)) (fst st))
  else if includes dictSchemaFieldNames fieldName then
    props <- entries fieldValue ;;
    dictSchemaFieldValue <- foldM (convertProperty rec) props [] ;;
    Ok (set fieldName (JObj dictSchemaFieldValue) genAISchema)
  else if String.eqb fieldName "additionalProperties" then
    Ok genAISchema
  else
    Ok (set fieldName fieldValue genAISchema).

(** One round of the main loop over [Object.entries(_jsonSchema)]
    (lines 91-137). *)
Definition convertField (rec : json -> result json) (genAISchema : obj)
  (field : string * json) : result obj :=
  match snd field with
  | JNull => Ok genAISchema
  | fieldValue => convertPresentField rec genAISchema (fst field) fieldValue
  end.

(** Lines 87-138: the conversion of the fragment that is left after the
    collapse, into the schema object [genAISchema] under construction. *)
Definition convertFragment (rec : json -> result json) (genAISchema : obj)
  (_jsonSchema : json) : result json :=
  type1 <- prop "type" _jsonSchema ;;
  genAISchema <-
    match type1 with
    | Some (JArr typeList) => flattenTypeArrayToAnyOf typeList genAISchema
    | _ => Ok genAISchema
    end ;;
  fields <- entries _jsonSchema ;;
  genAISchema <- foldM (convertField rec) fields genAISchema ;;
  Ok (JObj genAISchema).

(** The body of [processJsonSchema] (lines 53-139) with its recursive call
    abstracted as [rec]. *)
Definition processJsonSchema_body (rec : json -> result json)
  (_jsonSchema : json) : result json :=
  type0 <- prop "type" _jsonSchema ;;
  incomingAnyOf <- prop "anyOf" _jsonSchema ;;
  if truthy type0 && truthy incomingAnyOf then
    Err (JsError conflict_message)
  else
    let '(genAISchema, _jsonSchema) :=
      collapseNullableAnyOf _jsonSchema incomingAnyOf in
    convertFragment rec genAISchema _jsonSchema.

(** The recursion of the source descends into the values of a fragment, so
    the nesting depth of the argument bounds it.  [processJsonSchema] runs
    the body with that many unfoldings in hand; [processJsonSchema_eq]
    below is the recursion equation of the source function, so the base
    case is never consulted. *)
Fixpoint processJsonSchema_upto (n : nat) (_jsonSchema : json)
  : result json :=
  match n with
  | O => Err TypeError
  | S m => processJsonSchema_body (processJsonSchema_upto m) _jsonSchema
  end.

Definition processJsonSchema (_jsonSchema : json) : result json :=
  processJsonSchema_upto (S (depth _jsonSchema)) _jsonSchema.

(* ------------------------------------------------------------------ *)
(** *** [tTool] and the tools of [transformRequestIn]                   *)
(* ------------------------------------------------------------------ *)

(** A function declaration as [tTool] reads and writes it.  [None] is an
    absent property. *)
Record functionDeclaration : Type := mkFunctionDeclaration {
  name : string;
  description : option string;
  parameters : option json;
  parametersJsonSchema : option json;
  response : option json;
  responseJsonSchema : option json
}.

(** [Object.keys(schema).includes("$schema")] for a truthy schema. *)
Definition declares_schema_marker (schema : json) : bool :=
  match schema with
  | JObj o => has_key "$schema" o
  | _ => false
  end.

(** Lines 149-161, on the pair ([parameters], [parametersJsonSchema]); the
    same code runs on ([response], [responseJsonSchema]) in lines 162-174.
    The result is the new pair. *)
Definition convertOrMove (schema rawSchema : option json)
  : result (option json * option json) :=
  match schema with
  | Some s =>
      if truthy schema then
        if negb (declares_schema_marker s) then
          r <- processJsonSchema s ;; Ok (Some r, rawSchema)
        else if negb (truthy rawSchema) then
          Ok (None, Some s)
        else Ok (schema, rawSchema)
      else Ok (schema, rawSchema)
  | None => Ok (schema, rawSchema)
  end.

Definition tTool_declaration (fd : functionDeclaration)
  : result functionDeclaration :=
  ' (p, pj) <- convertOrMove (parameters fd) (parametersJsonSchema fd) ;;
  ' (r, rj) <- convertOrMove (response fd) (responseJsonSchema fd) ;;
  Ok {| name := name fd; description := description fd;
        parameters := p; parametersJsonSchema := pj;
        response := r; responseJsonSchema := rj |}.

(** An upstream tool: a list of function declarations or the built-in
    search ([{googleSearch: {}}]). *)
Inductive geminiTool : Type :=
| FunctionDeclarations (functionDeclarations : list functionDeclaration)
| GoogleSearch.

Fixpoint mapM {A B} (f : A -> result B) (l : list A) : result (list B) :=
  match l with
  | [] => Ok []
  | x :: rest => y <- f x ;; ys <- mapM f rest ;; Ok (y :: ys)
  end.

(** [tTool(tool)] (lines 146-178). *)
Definition tTool (tool : geminiTool) : result geminiTool :=
  match tool with
  | FunctionDeclarations fds =>
      fds' <- mapM tTool_declaration fds ;; Ok (FunctionDeclarations fds')
  | GoogleSearch => Ok GoogleSearch
  end.

(** A tool of the canonical request: [tool.function.{name, description,
    parameters}]. *)
Record canonicalTool : Type := mkCanonicalTool {
  function_name : string;
  function_description : option string;
  function_parameters : option json
}.

Definition is_web_search (tool : canonicalTool) : bool :=
  String.eqb (function_name tool) "web_search".

(** Lines 195-203: the declaration built for one canonical tool. *)
Definition declare (tool : canonicalTool) : functionDeclaration :=
  {| name := function_name tool;
     description := function_description tool;
     parameters := None;
     parametersJsonSchema := function_parameters tool;
     response := None;
     responseJsonSchema := None |}.

(** The [tools] entry of the body built by [transformRequestIn]
    (lines 194-218 and 287); [request.tools] may be absent. *)
Definition transformRequestIn_tools (request_tools : option (list canonicalTool))
  : result (option (list geminiTool)) :=
  let functionDeclarations :=
    option_map (fun ts => map declare
                            (filter (fun t => negb (is_web_search t)) ts))
               request_tools in
  tools <-
    match functionDeclarations with
    | Some (fd :: fds) =>
        t <- tTool (FunctionDeclarations (fd :: fds)) ;; Ok [t]
    | _ => Ok []
    end ;;
  let webSearch :=
    match request_tools with
    | Some ts => find is_web_search ts
    | None => None
    end in
  let tools :=
    match webSearch with
    | Some _ => tools ++ [GoogleSearch]
    | None => tools
    end in
  Ok (match tools with [] => None | _ => Some tools end).

End Gemini.


(* ================================================================== *)
(** ** claude-anthropic.js and plugins/kimi-anthropic.js               *)
(* ================================================================== *)

(** The two classes [ClaudeAnthropicTransformer] and
    [KimiAnthropicTransformer] carry the same [_mapStopReason],
    [_processSSEEvent], [_transformJsonResponse] and
    [_transformStreamResponse], statement for statement (the Claude class
    also logs); one embedding serves both.

    Upstream documents are records whose fields have the type the Messages
    API gives them; [None] is a field that is absent or [null], which the
    tests of the code ([||], [??], [?.], [===] against a string) do not tell
    apart. *)

Module Anthropic.
Import JS.
Local Open Scope js_scope.

(** [_mapStopReason(stopReason)]; [None] is [null]. *)
Definition _mapStopReason (stopReason : option string) : option string :=
  match stopReason with
  | Some s =>
      if String.eqb s "end_turn" then Some "stop"
      else if String.eqb s "max_tokens" then Some "length"
      else if String.eqb s "tool_use" then Some "tool_calls"
      else if String.eqb s "stop_sequence" then Some "stop"
      else (* stopReason || null *)
        if String.eqb s "" then None else Some s
  | None => None
  end.

(** *** Upstream events *)

Record usage : Type := mkUsage {
  input_tokens : option Z;
  output_tokens : option Z
}.

(** [event.message] of a [message_start]. *)
Record message : Type := mkMessage {
  message_id : option string;
  message_model : option string;
  message_usage : option usage
}.

(** [event.content_block]; also a block of a non-stream document. *)
Record content_block : Type := mkContentBlock {
  block_type : option string;
  block_id : option string;
  block_name : option string;
  block_text : option string;
  block_thinking : option string;
  block_input : option json
}.

(** [event.delta] of a [content_block_delta] or a [message_delta]. *)
Record delta : Type := mkDelta {
  delta_type : option string;
  delta_text : option string;
  delta_thinking : option string;
  delta_partial_json : option string;
  delta_stop_reason : option string
}.

Record event : Type := mkEvent {
  event_type : option string;
  event_message : option message;
  event_index : option Z;
  event_content_block : option content_block;
  event_delta : option delta;
  event_usage : option usage
}.

(** [{}] where the code writes [event.message || {}] and the like. *)
Definition empty_message : message := mkMessage None None None.
Definition empty_block : content_block :=
  mkContentBlock None None None None None None.
Definition empty_delta : delta := mkDelta None None None None None.

(** *** Stream state and canonical chunks *)

(** An entry of [toolCallsBuffer]:
    [{id, type: "function", function: {name, arguments}}]. *)
Record toolCall : Type := mkToolCall {
  id : option string;
  function_name : option string;
  function_arguments : string
}.

Record StreamState : Type := mkStreamState {
  messageId : string;
  model : string;
  currentBlockIndex : Z;
  currentBlockType : option string;
  toolCallsBuffer : list toolCall;
  inputTokens : Z;
  outputTokens : Z;
  hasEmittedRole : bool
}.

(** An element of [delta.tool_calls]; the announcing chunk fills every
    field, a fragment chunk only [index] and [function.arguments]. *)
Record toolCallDelta : Type := mkToolCallDelta {
  tc_index : Z;
  tc_id : option string;
  tc_type : option string;
  tc_name : option string;
  tc_arguments : option string
}.

(** [choices[0].delta]. *)
Record chunkDelta : Type := mkChunkDelta {
  role : option string;
  content : option string;
  reasoning_content : option string;
  tool_calls : option (list toolCallDelta)
}.

Record chunkUsage : Type := mkChunkUsage {
  prompt_tokens : Z;
  completion_tokens : Z;
  total_tokens : Z
}.

(** A canonical chunk; [object] is always "chat.completion.chunk" and
    [choices] always has the one element of index 0 shown here. *)
Record chunk : Type := mkChunk {
  chunk_id : string;
  created : Z;
  chunk_model : string;
  chunk_delta : chunkDelta;
  finish_reason : option string;
  chunk_usage : option chunkUsage
}.

(** What [_processSSEEvent] pushes on [chunks]: a canonical chunk, or the
    marker [{_state: state}] that refers to the state object. *)
Inductive item : Type :=
| Chunk (c : chunk)
| StateRef.

Definition empty_delta_out : chunkDelta := mkChunkDelta None None None None.

(** The chunk literal shared by all branches, at clock reading [now]
    ([Date.now()], in milliseconds). *)
Definition mk (now : Z) (state : StreamState) (d : chunkDelta)
  (reason : option string) (u : option chunkUsage) : chunk :=
  {| chunk_id := messageId state;
     created := (now / 1000)%Z;
     chunk_model := model state;
     chunk_delta := d;
     finish_reason := reason;
     chunk_usage := u |}.

(** [a[i].function.arguments += s]; [None] when [a[i]] is [undefined], where
    the property read throws. *)
Definition append_arguments (a : list toolCall) (i : Z) (s : string)
  : option (list toolCall) :=
  match array_get a i with
  | Some e =>
      let e' := {| id := id e; function_name := function_name e;
                   function_arguments := function_arguments e ++ s |} in
      Some (firstn (Z.to_nat i) a ++ e' :: skipn (S (Z.to_nat i)) a)
  | None => None
  end.

Definition is_type (t : option string) (name : string) : bool :=
  match t with
  | Some s => String.eqb s name
  | None => false
  end.

(** Assignments to the fields of the state object. *)
Definition set_messageId (v : string) (s : StreamState) : StreamState :=
  mkStreamState v (model s) (currentBlockIndex s) (currentBlockType s)
    (toolCallsBuffer s) (inputTokens s) (outputTokens s) (hasEmittedRole s).

Definition set_model (v : string) (s : StreamState) : StreamState :=
  mkStreamState (messageId s) v (currentBlockIndex s) (currentBlockType s)
    (toolCallsBuffer s) (inputTokens s) (outputTokens s) (hasEmittedRole s).

Definition set_currentBlockIndex (v : Z) (s : StreamState) : StreamState :=
  mkStreamState (messageId s) (model s) v (currentBlockType s)
    (toolCallsBuffer s) (inputTokens s) (outputTokens s) (hasEmittedRole s).

Definition set_currentBlockType (v : option string) (s : StreamState)
  : StreamState :=
  mkStreamState (messageId s) (model s) (currentBlockIndex s) v
    (toolCallsBuffer s) (inputTokens s) (outputTokens s) (hasEmittedRole s).

Definition set_toolCallsBuffer (v : list toolCall) (s : StreamState)
  : StreamState :=
  mkStreamState (messageId s) (model s) (currentBlockIndex s)
    (currentBlockType s) v (inputTokens s) (outputTokens s)
    (hasEmittedRole s).

Definition set_inputTokens (v : Z) (s : StreamState) : StreamState :=
  mkStreamState (messageId s) (model s) (currentBlockIndex s)
    (currentBlockType s) (toolCallsBuffer s) v (outputTokens s)
    (hasEmittedRole s).

Definition set_outputTokens (v : Z) (s : StreamState) : StreamState :=
  mkStreamState (messageId s) (model s) (currentBlockIndex s)
    (currentBlockType s) (toolCallsBuffer s) (inputTokens s) v
    (hasEmittedRole s).

Definition set_hasEmittedRole (v : bool) (s : StreamState) : StreamState :=
  mkStreamState (messageId s) (model s) (currentBlockIndex s)
    (currentBlockType s) (toolCallsBuffer s) (inputTokens s)
    (outputTokens s) v.

(** [u?.input_tokens] and [u?.output_tokens]. *)
Definition usage_field (f : usage -> option Z) (u : option usage)
  : option Z :=
  match u with
  | Some x => f x
  | None => None
  end.

(** [state.toolCallsBuffer.length - 1]. *)
Definition last_index (state : StreamState) : Z :=
  (Z.of_nat (List.length (toolCallsBuffer state)) - 1)%Z.

(** [_processSSEEvent(event, state)]: the returned chunks and the state
    object after the call (the code updates it in place). *)
Definition _processSSEEvent (now : Z) (event : event) (state : StreamState)
  : result (list item * StreamState) :=
  let eventType := event_type event in
  if is_type eventType "message_start" then
    let message := nullish (event_message event) empty_message in
    let state :=
      set_messageId
        (or_string (message_id message) ("chatcmpl-" ++ decimal now))
        state in
    let state := set_model (or_string (message_model message) "") state in
    let state :=
      set_inputTokens
        (or_number (usage_field input_tokens (message_usage message)) 0)
        state in
    let c := mk now state
                (mkChunkDelta (Some "assistant") (Some "") None None)
                None None in
    let state := set_hasEmittedRole true state in
    Ok ([Chunk c; StateRef], state)
  else if is_type eventType "content_block_start" then
    let block := nullish (event_content_block event) empty_block in
    let state :=
      set_currentBlockIndex
        (nullish (event_index event) (currentBlockIndex state)) state in
    let state := set_currentBlockType (block_type block) state in
    if is_type (block_type block) "tool_use" then
      let state :=
        set_toolCallsBuffer
          (toolCallsBuffer state
             ++ [ {| id := block_id block;
                     function_name := block_name block;
                     function_arguments := "" |} ])
          state in
      let c := mk now state
                  (mkChunkDelta None None None
                     (Some [ {| tc_index := last_index state;
                                tc_id := block_id block;
                                tc_type := Some "function";
                                tc_name := block_name block;
                                tc_arguments := Some "" |} ]))
                  None None in
      Ok ([Chunk c; StateRef], state)
    else Ok ([StateRef], state)
  else if is_type eventType "content_block_delta" then
    let delta := nullish (event_delta event) empty_delta in
    if is_type (delta_type delta) "text_delta" then
      let c := mk now state
                  (mkChunkDelta None (Some (or_string (delta_text delta) ""))
                                None None)
                  None None in
      Ok ([Chunk c; StateRef], state)
    else if is_type (delta_type delta) "thinking_delta" then
      let c := mk now state
                  (mkChunkDelta None None
                     (Some (or_string (delta_thinking delta) "")) None)
                  None None in
      Ok ([Chunk c; StateRef], state)
    else if is_type (delta_type delta) "input_json_delta" then
      let toolIndex := last_index state in
      if (toolIndex >=? 0)%Z then
        match append_arguments (toolCallsBuffer state) toolIndex
                (or_string (delta_partial_json delta) "") with
        | None => Err TypeError
        | Some buffer =>
            let state := set_toolCallsBuffer buffer state in
            let c := mk now state
                        (mkChunkDelta None None None
                           (Some [ {| tc_index := toolIndex;
                                      tc_id := None;
                                      tc_type := None;
                                      tc_name := None;
                                      tc_arguments :=
                                        Some (or_string
                                                (delta_partial_json delta)
                                                "") |} ]))
                        None None in
            Ok ([Chunk c; StateRef], state)
        end
      else Ok ([StateRef], state)
    else
      (* signature_delta and any other delta type *)
      Ok ([StateRef], state)
  else if is_type eventType "content_block_stop" then
    let state := set_currentBlockType None state in
    Ok ([StateRef], state)
  else if is_type eventType "message_delta" then
    let messageDelta := nullish (event_delta event) empty_delta in
    let state :=
      set_outputTokens
        (or_number (usage_field output_tokens (event_usage event))
                   (outputTokens state))
        state in
    let c := mk now state empty_delta_out
                (_mapStopReason (delta_stop_reason messageDelta))
                (Some {| prompt_tokens := inputTokens state;
                         completion_tokens := outputTokens state;
                         total_tokens :=
                           (inputTokens state + outputTokens state)%Z |}) in
    Ok ([Chunk c; StateRef], state)
  else
    (* message_stop, error, ping, and any other type *)
    Ok ([], state).

(** *** The stream reader, [_transformStreamResponse] *)

(** The update of the reader's variables from a [_state] marker
    (lines 441-450): [||] for the strings and the buffer, [??] for the
    rest. *)
Definition absorb (vars state : StreamState) : StreamState :=
  {| messageId := or_string (Some (messageId state)) (messageId vars);
     model := or_string (Some (model state)) (model vars);
     currentBlockIndex := currentBlockIndex state;
     currentBlockType :=
       match currentBlockType state with
       | Some t => Some t
       | None => currentBlockType vars
       end;
     toolCallsBuffer := toolCallsBuffer state;
     inputTokens := inputTokens state;
     outputTokens := outputTokens state;
     hasEmittedRole := hasEmittedRole state |}.

(** The loop over the returned chunks (lines 440-454): markers update the
    variables, every other chunk is enqueued. *)
Fixpoint drain (items : list item) (state vars : StreamState)
  : list chunk * StreamState :=
  match items with
  | [] => ([], vars)
  | StateRef :: rest => drain rest state (absorb vars state)
  | Chunk c :: rest =>
      let '(out, vars') := drain rest state vars in (c :: out, vars')
  end.

(** One parsed event (lines 425-454).  The state object handed to the
    handler is a fresh copy of the variables that shares the buffer array;
    the handler changes the buffer only in branches that also push a marker,
    so the copy taken back by [absorb] is the shared array.  An exception is
    caught by the enclosing [try]. *)
Definition handleEvent (now : Z) (event : event) (vars : StreamState)
  : list chunk * StreamState :=
  match _processSSEEvent now event vars with
  | Ok (items, state) => drain items state vars
  | Err _ => ([], vars)
  end.

(** The variables of a new stream (lines 383-390). *)
Definition initial : StreamState :=
  {| messageId := ""; model := ""; currentBlockIndex := 0;
     currentBlockType := None; toolCallsBuffer := [];
     inputTokens := 0; outputTokens := 0; hasEmittedRole := false |}.

(** A run of the handler over events that arrive at the given clock
    readings, as the reader performs it. *)
Fixpoint handleEvents (events : list (Z * event)) (vars : StreamState)
  : list chunk * StreamState :=
  match events with
  | [] => ([], vars)
  | (now, event) :: rest =>
      let '(out, vars') := handleEvent now event vars in
      let '(outs, vars'') := handleEvents rest vars' in
      (out ++ outs, vars'')
  end.

(** What the reader hands to the consumer. *)
Inductive output : Type :=
| Data (c : chunk)          (* data: <chunk>\n\n *)
| DoneSentinel              (* data: [DONE]\n\n *)
| ErrorSignal               (* controller.error(error) *)
| Close.                    (* controller.close() *)

(** How the upstream body ends: [reader.read()] reports [done], or
    rejects. *)
Inductive ending : Type :=
| CleanEnd
| ReadFailure.

Section Reader.

(** [JSON.parse] on an event line; [None] when it throws. *)
Variable JSON_parse : string -> option event.

(** One line of the body (lines 410-460). *)
Definition handleLine (now : Z) (line : string) (vars : StreamState)
  : list chunk * StreamState :=
  if startsWith "event:" line then ([], vars)
  else if negb (startsWith "data:" line) then ([], vars)
  else
    let jsonStr := trim (slice 5 line) in
    if String.eqb jsonStr "" then ([], vars)
    else match JSON_parse jsonStr with
         | Some event => handleEvent now event vars
         | None => ([], vars)
         end.

Fixpoint handleLines (now : Z) (lines : list string) (vars : StreamState)
  : list chunk * StreamState :=
  match lines with
  | [] => ([], vars)
  | line :: rest =>
      let '(out, vars') := handleLine now line vars in
      let '(outs, vars'') := handleLines now rest vars' in
      (out ++ outs, vars'')
  end.

(** The [while (true)] loop of [start(controller)] (lines 398-467).  Each
    read delivers decoded text at a clock reading; [buffer] is the carried
    partial line. *)
Fixpoint pump (reads : list (Z * string)) (stop : ending) (buffer : string)
  (vars : StreamState) : list output :=
  match reads with
  | [] =>
      match stop with
      | CleanEnd => [DoneSentinel; Close]
      | ReadFailure => [ErrorSignal; Close]
      end
  | (now, value) :: rest =>
      let lines := split_lines (buffer ++ value) in
      let buffer := last lines "" in
      let '(out, vars') := handleLines now (removelast lines) vars in
      map Data out ++ pump rest stop buffer vars'
  end.

Definition _transformStreamResponse (reads : list (Z * string))
  (stop : ending) : list output :=
  pump reads stop "" initial.

End Reader.

(** *** The non-stream document, [_transformJsonResponse] *)

Record document : Type := mkDocument {
  doc_id : option string;
  doc_model : option string;
  doc_stop_reason : option string;
  doc_usage : option usage;
  doc_content : option (list content_block)
}.

(** An element of [message.tool_calls]:
    [{id, type: "function", function: {name, arguments}}]. *)
Record messageToolCall : Type := mkMessageToolCall {
  call_id : option string;
  call_name : option string;
  call_arguments : string
}.

Record responseMessage : Type := mkResponseMessage {
  msg_content : string;
  msg_reasoning_content : option string;
  msg_tool_calls : option (list messageToolCall)
}.

(** The canonical response; [object] is "chat.completion", the role of the
    message "assistant", [choices] has the one element shown. *)
Record completion : Type := mkCompletion {
  completion_id : string;
  completion_created : Z;
  completion_model : option string;
  completion_message : responseMessage;
  completion_finish_reason : option string;
  completion_usage : chunkUsage
}.

(** What the loop over [data.content] builds (lines 327-352). *)
Record gathered : Type := mkGathered {
  textParts : list (option string);
  reasoning : option string;
  toolCalls : list messageToolCall
}.

Section Document.

(** [JSON.stringify] on a tool input. *)
Variable JSON_stringify : json -> string.

(** [s += v] for a [v] that may be [undefined]. *)
Definition append_text (s : string) (v : option string) : string :=
  s ++ match v with Some t => t | None => "undefined" end.

Definition gather (g : gathered) (block : content_block) : gathered :=
  if is_type (block_type block) "text" then
    {| textParts := textParts g ++ [block_text block];
       reasoning := reasoning g; toolCalls := toolCalls g |}
  else if is_type (block_type block) "thinking" then
    let current :=
      match reasoning g with
      | Some r => if String.eqb r "" then "" else r
      | None => ""
      end in
    {| textParts := textParts g;
       reasoning := Some (append_text current (block_thinking block));
       toolCalls := toolCalls g |}
  else if is_type (block_type block) "tool_use" then
    {| textParts := textParts g; reasoning := reasoning g;
       toolCalls :=
         toolCalls g
           ++ [ {| call_id := block_id block;
                   call_name := block_name block;
                   call_arguments :=
                     JSON_stringify
                       (if truthy (block_input block)
                        then nullish (block_input block) (JObj [])
                        else JObj []) |} ] |}
  else g.

Definition _transformJsonResponse (now : Z) (data : document) : completion :=
  let usage_of (f : usage -> option Z) :=
    or_number (usage_field f (doc_usage data)) 0 in
  let g := fold_left gather (nullish (doc_content data) [])
                     (mkGathered [] None []) in
  {| completion_id :=
       or_string (doc_id data) ("chatcmpl-" ++ decimal now);
     completion_created := (now / 1000)%Z;
     completion_model := doc_model data;
     completion_message :=
       {| msg_content := join "" (textParts g);
          msg_reasoning_content := reasoning g;
          msg_tool_calls :=
            match toolCalls g with
            | [] => None
            | calls => Some calls
            end |};
     completion_finish_reason := _mapStopReason (doc_stop_reason data);
     completion_usage :=
       {| prompt_tokens := usage_of input_tokens;
          completion_tokens := usage_of output_tokens;
          total_tokens :=
            (usage_of input_tokens + usage_of output_tokens)%Z |} |}.

End Document.

End Anthropic.

(* ================================================================== *)
(** ** plugins/gemini-cli.js: [transformResponseOut]                   *)
(* ================================================================== *)

(** The Cloud-Code upstream sends a whole response per document or per
    stream line.  Its fields are typed as the upstream documents them;
    [None] is an absent field. *)

Module GeminiResponse.
Import JS.
Local Open Scope js_scope.

Record functionCall : Type := mkFunctionCall {
  call_id : option string;
  call_name : option string;
  call_args : option json
}.

Record part : Type := mkPart {
  text : option string;
  part_functionCall : option functionCall
}.

Record web : Type := mkWeb {
  uri : option string;
  title : option string
}.

Record groundingChunk : Type := mkGroundingChunk {
  chunk_web : option web
}.

Record segment : Type := mkSegment {
  segment_text : option string;
  startIndex : option Z;
  endIndex : option Z
}.

Record groundingSupport : Type := mkGroundingSupport {
  groundingChunkIndices : option (list Z);
  support_segment : option segment
}.

Record groundingMetadata : Type := mkGroundingMetadata {
  groundingChunks : option (list groundingChunk);
  groundingSupports : option (list groundingSupport)
}.

(** [candidate.content] is [Some parts'] when the [content] object is
    there, with [parts'] its [parts] property. *)
Record candidate : Type := mkCandidate {
  content : option (option (list part));
  finishReason : option string;
  candidate_index : option Z;
  candidate_groundingMetadata : option groundingMetadata
}.

Record usageMetadata : Type := mkUsageMetadata {
  candidatesTokenCount : option Z;
  promptTokenCount : option Z;
  totalTokenCount : option Z
}.

(** The value of the [response] property of an upstream document. *)
Record response : Type := mkResponse {
  candidates : option (list candidate);
  responseId : option string;
  modelVersion : option string;
  response_usageMetadata : option usageMetadata
}.

(** The identifier of a tool call: the upstream's, or the text
    [tool_<random>] drawn with [Math.random()]. *)
Inductive toolCallId : Type :=
| Given (id : string)
| Drawn.

(** [{id, type: "function", function: {name, arguments}}]. *)
Record toolCall : Type := mkToolCall {
  id : toolCallId;
  function_name : option string;
  function_arguments : string
}.

Record annotation : Type := mkAnnotation {
  url : option string;
  annotation_title : option string;
  annotation_content : option string;
  start_index : option Z;
  end_index : option Z
}.

Record usage : Type := mkUsage {
  completion_tokens : option Z;
  prompt_tokens : option Z;
  total_tokens : option Z
}.

(** [choices[0].delta] of a stream chunk. *)
Record chunkDelta : Type := mkChunkDelta {
  role : option string;
  delta_content : option string;
  tool_calls : option (list toolCall);
  annotations : option (list annotation)
}.

(** A stream chunk; [object], [logprobs] and [system_fingerprint] are
    constants, [created] is the clock. *)
Record chunk : Type := mkChunk {
  chunk_delta : chunkDelta;
  finish_reason : option string;
  choice_index : Z;
  chunk_id : string;
  chunk_model : string;
  chunk_usage : usage
}.

(** [choices[0].message] of a non-stream response. *)
Record responseMessage : Type := mkResponseMessage {
  message_content : string;
  message_role : string;
  message_tool_calls : option (list toolCall)
}.

Record completion : Type := mkCompletion {
  completion_id : option string;
  completion_message : responseMessage;
  completion_finish_reason : option string;
  completion_model : option string;
  completion_usage : usage
}.

(** Reading a property of [undefined] throws. *)
Definition defined {A} (v : option A) : result A :=
  match v with
  | Some a => Ok a
  | None => Err TypeError
  end.

(** [candidates[0]]. *)
Definition first_candidate (r : response) : result candidate :=
  cs <- defined (candidates r) ;; defined (nth_error cs 0).

(** [chunk.candidates[0].content.parts]. *)
Definition parts_of (r : response) : result (option (list part)) :=
  c <- first_candidate r ;; defined (content c).

Definition text_truthy (p : part) : bool :=
  truthy (option_map JStr (text p)).

(** [parts.filter((part) => part.text).map((part) => part.text)
         .join("\n")]. *)
Definition joined_text (parts : list part) : string :=
  join (String newline "") (map text (filter text_truthy parts)).

(** [finishReason?.toLowerCase() || null]. *)
Definition lowered_finish_reason (c : candidate) : option string :=
  match finishReason c with
  | Some r => if String.eqb (lower r) "" then None else Some (lower r)
  | None => None
  end.

Definition usage_of (u : usageMetadata) : usage :=
  {| completion_tokens := candidatesTokenCount u;
     prompt_tokens := promptTokenCount u;
     total_tokens := totalTokenCount u |}.

Definition has_function_call (p : part) : bool :=
  match part_functionCall p with
  | Some _ => true
  | None => false
  end.

Section Transcoder.

Variable JSON_stringify : json -> string.

(** The [tool_calls] of lines 309-320 and 368-379, for parts that are
    there. *)
Definition tool_call_of (p : part) : toolCall :=
  let fc := part_functionCall p in
  {| id := match fc with
           | Some f =>
               match call_id f with
               | Some i => if String.eqb i "" then Drawn else Given i
               | None => Drawn
               end
           | None => Drawn
           end;
     function_name := match fc with
                      | Some f => call_name f
                      | None => None
                      end;
     function_arguments :=
       JSON_stringify
         (match fc with
          | Some f => if truthy (call_args f)
                      then nullish (call_args f) (JObj []) else JObj []
          | None => JObj []
          end) |}.

Definition tool_calls_of (parts : list part) : list toolCall :=
  map tool_call_of (filter has_function_call parts).

Definition nonempty {A} (l : list A) : option (list A) :=
  match l with
  | [] => None
  | _ => Some l
  end.

(** The non-stream branch (lines 306-351) on the parsed document
    [jsonResponse.response]; [None] when the document has no [response]. *)
Definition transformResponseOut_json (jsonResponse : option response)
  : result completion :=
  r <- defined jsonResponse ;;
  parts <- parts_of r ;;
  let toolCalls := option_map tool_calls_of parts in
  c <- first_candidate r ;;
  (* [.parts.filter] on line 329 has no [?.] *)
  ps <- defined parts ;;
  calls <- defined toolCalls ;;
  u <- defined (response_usageMetadata r) ;;
  Ok {| completion_id := responseId r;
        completion_message :=
          {| message_content := joined_text ps;
             message_role := "assistant";
             message_tool_calls := nonempty calls |};
        completion_finish_reason := lowered_finish_reason c;
        completion_model := modelVersion r;
        completion_usage := usage_of u |}.

(** [groundingSupports?.filter((item) =>
       item.groundingChunkIndices.includes(index))]. *)
Definition supports_of (supports : option (list groundingSupport))
  (index : Z) : result (option (list groundingSupport)) :=
  match supports with
  | None => Ok None
  | Some items =>
      kept <- foldM (fun acc item =>
                       indices <- defined (groundingChunkIndices item) ;;
                       Ok (if existsb (Z.eqb index) indices
                           then acc ++ [item] else acc))
                    items [] ;;
      Ok (Some kept)
  end.

(** The annotation built for one grounding chunk (lines 417-432). *)
Definition annotate (supports : option (list groundingSupport))
  (index : Z) (g : groundingChunk) : result annotation :=
  support <- supports_of supports index ;;
  w <- defined (chunk_web g) ;;
  seg <- match support with
         | None => Ok None
         | Some kept =>
             s0 <- defined (nth_error kept 0) ;;
             s <- defined (support_segment s0) ;;
             Ok (Some s)
         end ;;
  Ok {| url := uri w;
        annotation_title := title w;
        annotation_content :=
          match seg with Some s => segment_text s | None => None end;
        start_index :=
          match seg with Some s => startIndex s | None => None end;
        end_index :=
          match seg with Some s => endIndex s | None => None end |}.

Fixpoint annotate_from (supports : option (list groundingSupport))
  (index : Z) (gs : list groundingChunk) : result (list annotation) :=
  match gs with
  | [] => Ok []
  | g :: rest =>
      a <- annotate supports index g ;;
      others <- annotate_from supports (index + 1) rest ;;
      Ok (a :: others)
  end.

(** The body of the [try] in [processLine] (lines 366-437), on the parsed
    line. *)
Definition convertChunk (parsed : option response) : result chunk :=
  r <- defined parsed ;;
  parts <- parts_of r ;;
  let toolCalls := option_map tool_calls_of parts in
  c <- first_candidate r ;;
  let joined := option_map joined_text parts in
  calls <- defined toolCalls ;;
  u <- defined (response_usageMetadata r) ;;
  let delta :=
    {| role := Some "assistant";
       delta_content := joined;
       tool_calls := nonempty calls;
       annotations := None |} in
  let index :=
    if truthy (option_map JNum (candidate_index c))
       || negb (Nat.eqb (List.length calls) 0)
    then 1%Z else 0%Z in
  let res (d : chunkDelta) :=
    {| chunk_delta := d;
       finish_reason := lowered_finish_reason c;
       choice_index := index;
       chunk_id := or_string (responseId r) "";
       chunk_model := or_string (modelVersion r) "";
       chunk_usage := usage_of u |} in
  match candidate_groundingMetadata c with
  | Some {| groundingChunks := Some (g :: gs);
            groundingSupports := supports |} =>
      notes <- annotate_from supports 0 (g :: gs) ;;
      Ok (res {| role := role delta;
                 delta_content := delta_content delta;
                 tool_calls := tool_calls delta;
                 annotations := Some notes |})
  | _ => Ok (res delta)
  end.

(** [JSON.parse(chunkStr)] followed by [.response]: [None] when parsing
    throws, [Some None] when the document has no [response]. *)
Variable JSON_parse : string -> option (option response).

(** [processLine(line, controller)] (lines 360-446): the chunks it
    enqueues. *)
Definition processLine (line : string) : list chunk :=
  if startsWith "data: " line then
    let chunkStr := trim (slice 6 line) in
    if negb (String.eqb chunkStr "") then
      match JSON_parse chunkStr with
      | Some parsed =>
          match convertChunk parsed with
          | Ok res => [res]
          | Err _ => []
          end
      | None => []
      end
    else []
  else [].

Inductive output : Type :=
| Data (c : chunk)
| ErrorSignal
| Close.

Inductive ending : Type :=
| CleanEnd
| ReadFailure.

(** The [while (true)] loop of [start(controller)] (lines 449-476). *)
Fixpoint pump (reads : list string) (stop : ending) (buffer : string)
  : list output :=
  match reads with
  | [] =>
      match stop with
      | CleanEnd =>
          (if negb (String.eqb buffer "")
           then map Data (processLine buffer) else []) ++ [Close]
      | ReadFailure => [ErrorSignal; Close]
      end
  | value :: rest =>
      let lines := split_lines (buffer ++ value) in
      let buffer := last lines "" in
      map Data (flat_map processLine (removelast lines))
        ++ pump rest stop buffer
  end.

Definition transformResponseOut_stream (reads : list string)
  (stop : ending) : list output :=
  pump reads stop "".

End Transcoder.

End GeminiResponse.


(* ================================================================== *)
(** ** Vocabulary of the properties: Anthropic-style streams           *)
(* ================================================================== *)

Module AnthropicSpec.
Import JS Anthropic.

(** A [content_block_delta] event that carries the text fragment [f]. *)
Definition text_delta_event (ev : event) (f : string) : Prop :=
  event_type ev = Some "content_block_delta" /\
  exists d, event_delta ev = Some d /\
            delta_type d = Some "text_delta" /\
            delta_text d = Some f.

(** A [content_block_delta] event that carries the tool-input fragment
    [p]. *)
Definition input_json_delta_event (ev : event) (p : string) : Prop :=
  event_type ev = Some "content_block_delta" /\
  exists d, event_delta ev = Some d /\
            delta_type d = Some "input_json_delta" /\
            delta_partial_json d = Some p.

(** A [content_block_start] event that opens a [tool_use] block with the
    given id and name. *)
Definition tool_use_start_event (ev : event) (i n : option string) : Prop :=
  event_type ev = Some "content_block_start" /\
  exists b, event_content_block ev = Some b /\
            block_type b = Some "tool_use" /\
            block_id b = i /\ block_name b = n.

(** The text a chunk contributes to the message. *)
Definition content_of (c : chunk) : string :=
  match content (chunk_delta c) with
  | Some s => s
  | None => ""
  end.

Definition emitted_text (out : list chunk) : string :=
  String.concat "" (map content_of out).

(** The [tool_calls] delta that announces entry [index]. *)
Definition announcement (index : nat) (i n : option string)
  : option (list toolCallDelta) :=
  Some [ {| tc_index := Z.of_nat index; tc_id := i;
            tc_type := Some "function"; tc_name := n;
            tc_arguments := Some "" |} ].

(** The [tool_calls] delta that carries fragment [p] for entry [index]. *)
Definition fragment (index : nat) (p : string)
  : option (list toolCallDelta) :=
  Some [ {| tc_index := Z.of_nat index; tc_id := None; tc_type := None;
            tc_name := None; tc_arguments := Some p |} ].

(** Entry [e'] is entry [e] with possibly more argument text. *)
Definition continues (e e' : toolCall) : Prop :=
  id e' = id e /\ function_name e' = function_name e /\
  exists s, function_arguments e' = (function_arguments e ++ s)%string.

(** Buffer [b'] keeps every entry of [b] at its index, in order, and may
    have more entries after them. *)
Definition extends (b b' : list toolCall) : Prop :=
  exists kept added, b' = kept ++ added /\ Forall2 continues b kept.

(** The text blocks of a document, in document order. *)
Definition text_blocks (blocks : list content_block)
  : list (option string) :=
  map block_text
      (filter (fun b => is_type (block_type b) "text") blocks).

(** No line feed occurs in [s]. *)
Fixpoint no_newline (s : string) : bool :=
  match s with
  | EmptyString => true
  | String c rest => negb (Ascii.eqb c newline) && no_newline rest
  end.

(** *** Sample events *)

Definition ev_text (f : string) : event :=
  mkEvent (Some "content_block_delta") None (Some 0%Z) None
          (Some (mkDelta (Some "text_delta") (Some f) None None None)) None.

Definition ev_tool_use (i n : string) : event :=
  mkEvent (Some "content_block_start") None (Some 0%Z)
          (Some (mkContentBlock (Some "tool_use") (Some i) (Some n)
                                None None None))
          None None.

Definition ev_input_json (p : string) : event :=
  mkEvent (Some "content_block_delta") None (Some 0%Z) None
          (Some (mkDelta (Some "input_json_delta") None None (Some p) None))
          None.

Definition ev_message_start (i m : string) : event :=
  mkEvent (Some "message_start")
          (Some (mkMessage (Some i) (Some m)
                           (Some (mkUsage (Some 100%Z) None))))
          None None None None.

Definition ev_message_delta (reason : string) (tokens : Z) : event :=
  mkEvent (Some "message_delta") None None None
          (Some (mkDelta None None None None (Some reason)))
          (Some (mkUsage None (Some tokens))).

Definition ev_plain (type : string) : event :=
  mkEvent (Some type) None (Some 0%Z) None None None.

(** The text of a [data:] line that carries the text fragment "Hi", and a
    parser that reads its payload. *)
Definition dq : string := String (ascii_of_nat 34) "".

Definition quoted (s : string) : string := dq ++ s ++ dq.

Definition sample_payload : string :=
  "{" ++ quoted "type" ++ ":" ++ quoted "content_block_delta" ++ ","
      ++ quoted "index" ++ ":0,"
      ++ quoted "delta" ++ ":{" ++ quoted "type" ++ ":" ++ quoted "text_delta"
      ++ "," ++ quoted "text" ++ ":" ++ quoted "Hi" ++ "}}".

Definition sample_line : string := "data: " ++ sample_payload.

Definition sample_parse (jsonStr : string) : option event :=
  if String.eqb jsonStr sample_payload then Some (ev_text "Hi") else None.

End AnthropicSpec.

(* ================================================================== *)
(** ** Vocabulary of the properties: the schema adapter                *)
(* ================================================================== *)

Module GeminiSpec.
Import JS Gemini.

(** A field name without a conversion rule of its own: the field is
    copied. *)
Definition plain_name (k : string) : bool :=
  negb (String.eqb k "type")
  && negb (includes schemaFieldNames k)
  && negb (includes listSchemaFieldNames k)
  && negb (includes dictSchemaFieldNames k)
  && negb (String.eqb k "additionalProperties").

(** The shape of the adapter's results: an object with distinct keys whose
    [type] is one of the [Type] names, whose [items], [anyOf] elements and
    [properties] values have that shape again, and whose other fields are
    present values under plain names. *)
Inductive converted : json -> Prop :=
| converted_object (o : obj) :
    NoDup (map fst o) -> Forall converted_field o -> converted (JObj o)
with converted_field : string * json -> Prop :=
| field_type (t : string) :
    In t Type_values -> converted_field ("type", JStr t)
| field_items (v : json) :
    converted v -> converted_field ("items", v)
| field_anyOf (l : list json) :
    Forall converted l -> converted_field ("anyOf", JArr l)
| field_properties (d : obj) :
    NoDup (map fst d) -> Forall (fun kv => converted (snd kv)) d ->
    converted_field ("properties", JObj d)
| field_plain (k : string) (v : json) :
    plain_name k = true -> v <> JNull -> converted_field (k, v).

(** The fragment whose fields the conversion of [s] walks: [s] itself, or
    the other alternative of a collapsed nullable [anyOf]. *)
Definition walked (s : json) : option json :=
  match prop "anyOf" s with
  | Ok a => Some (snd (collapseNullableAnyOf s a))
  | Err _ => None
  end.




(** A schema object under construction has distinct keys and fields of
    the converted shape. *)
Definition well_formed (gen : obj) : Prop :=
  NoDup (map fst gen) /\ Forall converted_field gen.

Definition well_formed_properties (d : obj) : Prop :=
  NoDup (map fst d) /\ Forall (fun kv => converted (snd kv)) d.

(** Every result of the recursive call has the converted shape. *)
Definition results_converted (rec : json -> result json) : Prop :=
  forall x r, rec x = Ok r -> converted r.


(** *** Sample schemas *)

Definition string_schema : json := JObj [("type", JStr "string")].

Definition nullable_string_schema : json :=
  JObj [("type", JArr [JStr "string"; JStr "null"])].





Definition marked_schema : json :=
  JObj [("$schema", JStr "http://json-schema.org/draft-07/schema#");
        ("type", JStr "object")].

Definition weather_tool : canonicalTool :=
  mkCanonicalTool "get_weather" (Some "weather of a city")
                  (Some string_schema).

Definition search_tool : canonicalTool :=
  mkCanonicalTool "web_search" None None.

End GeminiSpec.

(* ================================================================== *)
(** ** Vocabulary of the properties: Cloud-Code responses              *)
(* ================================================================== *)

Module GeminiResponseSpec.
Import JS GeminiResponse.

(** The chunks among the outputs of a reader, in order. *)
Definition data_chunks (out : list output) : list chunk :=
  flat_map (fun o => match o with Data c => [c] | _ => [] end) out.

(** *** Sample documents *)

Definition text_part (s : string) : part := mkPart (Some s) None.

Definition sample_response (parts : list part) : response :=
  mkResponse
    (Some [mkCandidate (Some (Some parts)) None None None])
    (Some "r1") (Some "gemini")
    (Some (mkUsageMetadata (Some 1%Z) (Some 2%Z) (Some 3%Z))).

(** The payload of a stream line with the one text part "a". *)
Definition sample_payload : string :=
  let q := AnthropicSpec.quoted in
  "{" ++ q "response" ++ ":{" ++ q "candidates" ++ ":[{" ++ q "content"
      ++ ":{" ++ q "parts" ++ ":[{" ++ q "text" ++ ":" ++ q "a" ++ "}]}}],"
      ++ q "responseId" ++ ":" ++ q "r1" ++ ","
      ++ q "modelVersion" ++ ":" ++ q "gemini" ++ ","
      ++ q "usageMetadata" ++ ":{" ++ q "candidatesTokenCount" ++ ":1,"
      ++ q "promptTokenCount" ++ ":2," ++ q "totalTokenCount" ++ ":3}}}".

Definition sample_line : string := "data: " ++ sample_payload.

Definition sample_parse (chunkStr : string) : option (option response) :=
  if String.eqb chunkStr sample_payload
  then Some (Some (sample_response [text_part "a"]))
  else None.

Definition sample_stringify (j : json) : string := "{}".

Definition line_feed : string := String newline "".

End GeminiResponseSpec.

(* ================================================================== *)
(** ** Canonical requests and the Anthropic-style request transcoders  *)
(* ================================================================== *)

(** The canonical (OpenAI-style) request as the request transcoders read
    it.  Fields have the type the chat-completion format gives them; [None]
    is an absent field unless said otherwise. *)

Module Canonical.
Import JS.

(** [block.image_url]: an object with a [url], or the address itself. *)
Inductive image_url_value : Type :=
| ImageObject (url : option string)
| ImageText (address : string).

(** A block of an array content. *)
Record block : Type := mkBlock {
  type : option string;
  text : option string;
  image_url : option image_url_value;
  media_type : option string
}.

(** [msg.content]: a string, an array of blocks, or a value that is
    neither ([None] for [undefined]). *)
Inductive content : Type :=
| ContentText (s : string)
| ContentBlocks (blocks : list block)
| ContentOther (v : option json).

(** [toolCall.function]. *)
Record calledFunction : Type := mkCalledFunction {
  function_name : option string;
  arguments : option json
}.

Record toolCall : Type := mkToolCall {
  id : option string;
  function : option calledFunction;
  call_name : option string
}.

Record message : Type := mkMessage {
  role : option string;
  message_content : content;
  tool_calls : option (list toolCall);
  tool_call_id : option string;
  name : option string
}.

(** [tool.function], or the tool itself when it has the fields. *)
Record toolFunction : Type := mkToolFunction {
  tool_name : option string;
  description : option string;
  parameters : option json
}.

Record tool : Type := mkTool {
  tool_function : option toolFunction;
  own : toolFunction
}.

Record request : Type := mkRequest {
  model : option string;
  messages : option (list message);
  tools : option (list tool);
  thinking : option json;
  max_tokens : option Z;
  stream : option bool;
  temperature : option json;
  top_p : option json;
  top_k : option json;
  stop : option json
}.

(** [a || b] on values that may be absent strings. *)
Definition or_else (a b : option string) : option string :=
  match a with
  | Some s => if String.eqb s "" then b else a
  | None => b
  end.

(** [hay.includes(needle)]. *)
Fixpoint includes_text (needle hay : string) : bool :=
  startsWith needle hay ||
  match hay with
  | EmptyString => false
  | String _ rest => includes_text needle rest
  end.

(** [s.split(c)] for a one-character separator. *)
Fixpoint split_char (c : ascii) (s : string) : list string :=
  match s with
  | EmptyString => [EmptyString]
  | String a rest =>
      if Ascii.eqb a c then EmptyString :: split_char c rest
      else match split_char c rest with
           | seg :: segs => String a seg :: segs
           | [] => [String a EmptyString]
           end
  end.

End Canonical.

Module AnthropicRequest.
Import JS Canonical.

(** What a transcoder throws: [JSON.parse] on a text that is not JSON, or
    an engine [TypeError]. *)
Inductive failure : Type :=
| SyntaxError
| EngineTypeError.

Inductive outcome (A : Type) : Type :=
| Done (a : A)
| Throws (f : failure).
Arguments Done {A} a.
Arguments Throws {A} f.

Definition and_then {A B} (r : outcome A) (k : A -> outcome B) : outcome B :=
  match r with
  | Done a => k a
  | Throws f => Throws f
  end.

(** [l.map(f)] and a [for ... of] loop that pushes [f x]: the first throw
    ends it. *)
Fixpoint each {A B} (f : A -> outcome B) (l : list A) : outcome (list B) :=
  match l with
  | [] => Done []
  | x :: rest =>
      and_then (f x) (fun y =>
      and_then (each f rest) (fun ys => Done (y :: ys)))
  end.

(** The Claude transcoder (claude-anthropic.js) and the Kimi transcoder
    (kimi-anthropic.js) share this code and differ in a few places. *)
Inductive variant : Type :=
| Claude
| Kimi.

Definition is_role (r : option string) (s : string) : bool :=
  match r with
  | Some t => String.eqb t s
  | None => false
  end.

(** [convertRole(role)]. *)
Definition convertRole (role : option string) : option string :=
  if is_role role "system" then Some "user"
  else if is_role role "tool" then Some "user"
  else if is_role role "function" then Some "user"
  else role.

(** [block.image_url?.url || block.image_url]: nothing ([undefined] or
    [null]), a string, or the object itself when its [url] is falsy. *)
Inductive url_value : Type :=
| UrlNothing
| UrlString (s : string)
| UrlObject (o : image_url_value).

Definition url_of (b : block) : url_value :=
  match image_url b with
  | None => UrlNothing
  | Some (ImageText s) => UrlString s
  | Some (ImageObject (Some u)) =>
      if String.eqb u "" then UrlObject (ImageObject (Some u))
      else UrlString u
  | Some (ImageObject None) => UrlObject (ImageObject None)
  end.

(** The blocks of an Anthropic message content. *)
Inductive out_block : Type :=
| TextBlock (text : option string)
| MessageText (text : content)
| ImageBase64 (media_type : string) (data : option string)
| ImageUrl (url : url_value)
| ToolResult (tool_use_id : option string) (result_content : option string)
| ToolUse (id : option string) (name : option string) (input : json)
| Passed (b : block).

Inductive out_content : Type :=
| OutText (s : string)
| OutBlocks (blocks : list out_block)
| OutOther (v : option json).

Record out_message : Type := mkOutMessage {
  out_role : option string;
  out_content_of : out_content
}.

Definition semicolon : ascii := ascii_of_nat 59.
Definition comma : ascii := ascii_of_nat 44.

(** The longest run of characters other than [;] at the head of [s]. *)
Fixpoint run_to_semicolon (s : string) : string :=
  match s with
  | EmptyString => EmptyString
  | String c rest =>
      if Ascii.eqb c semicolon then EmptyString
      else String c (run_to_semicolon rest)
  end.

(** [s.match(/data:([^;]+)/)]: the first group of the leftmost match. *)
Fixpoint match_data (s : string) : option string :=
  match s with
  | EmptyString => None
  | String _ rest =>
      if startsWith "data:" s then
        match run_to_semicolon (slice 5 s) with
        | EmptyString => match_data rest
        | run => Some run
        end
      else match_data rest
  end.

(** The [image] block of a data URI. *)
Definition data_image (url : string) : out_block :=
  let segments := split_char comma url in
  let meta := nth 0 segments EmptyString in
  let data := nth_error segments 1 in
  ImageBase64 (match match_data meta with
               | Some mime => mime
               | None => "image/png"
               end) data.

(** The callback of [msg.content.map] (part_000 101-132,
    kimi-anthropic.js 75-101). *)
Definition convertBlock (v : variant) (b : block) : outcome out_block :=
  if is_role (type b) "text" then Done (TextBlock (text b))
  else if is_role (type b) "image_url" then
    match url_of b with
    | UrlString s =>
        if startsWith "data:" s then Done (data_image s)
        else Done (ImageUrl (UrlString s))
    | other =>
        match v with
        | Claude => Throws EngineTypeError
        | Kimi => Done (ImageUrl other)
        end
    end
  else Done (Passed b).

(** Truthiness of [msg.content] and of the system prompt. *)
Definition content_truthy (c : content) : bool :=
  match c with
  | ContentText s => negb (String.eqb s "")
  | ContentBlocks _ => true
  | ContentOther v => truthy v
  end.

Definition prompt_truthy (p : option string) : bool :=
  match p with
  | Some s => negb (String.eqb s "")
  | None => false
  end.

(** [systemPrompt ? `${systemPrompt}\n\n${text}` : text]. *)
Definition extend_prompt (p : option string) (text : string) : option string :=
  match p with
  | Some s =>
      if String.eqb s "" then Some text
      else Some (s ++ String newline (String newline EmptyString) ++ text)%string
  | None => Some text
  end.

(** The text of an array content of a system message. *)
Definition system_text (blocks : list block) : string :=
  join (String newline EmptyString)
       (map text (filter (fun c => is_role (type c) "text") blocks)).

Definition empty_object : json := JObj [].

Section Messages.

(** [JSON.parse] ([None] when it throws) and [JSON.stringify] of a message
    content ([None] for the [undefined] it gives on [undefined]). *)
Variable JSON_parse : string -> option json.
Variable JSON_stringify : content -> option string.

Definition parse (s : string) : outcome json :=
  match JSON_parse s with
  | Some j => Done j
  | None => Throws SyntaxError
  end.

(** The [input] of a [tool_use] block. *)
Definition tool_input (c : toolCall) : outcome json :=
  match function c with
  | Some f =>
      match arguments f with
      | Some (JStr s) => parse (or_string (Some s) "{}")
      | Some a => if truthy (Some a) then Done a else Done empty_object
      | None => Done empty_object
      end
  | None => Done empty_object
  end.

Definition tool_use (c : toolCall) : outcome out_block :=
  and_then (tool_input c) (fun input =>
  Done (ToolUse (Canonical.id c)
                (or_else (match function c with
                          | Some f => function_name f
                          | None => None
                          end) (call_name c))
                input)).

Definition tool_result (msg : message) : out_block :=
  ToolResult (or_else (tool_call_id msg) (name msg))
             (match message_content msg with
              | ContentText s => Some s
              | other => JSON_stringify other
              end).

(** One turn of the loop of [convertMessages]: the system prompt after it
    and the messages it pushes. *)
Definition convertMessage (v : variant) (prompt : option string)
    (msg : message) : outcome (option string * list out_message) :=
  if is_role (role msg) "system" then
    match message_content msg with
    | ContentText s => Done (extend_prompt prompt s, [])
    | ContentBlocks blocks => Done (extend_prompt prompt (system_text blocks), [])
    | ContentOther _ => Done (prompt, [])
    end
  else if is_role (role msg) "tool" || is_role (role msg) "function" then
    Done (prompt,
          [mkOutMessage (Some "user") (OutBlocks [tool_result msg])])
  else
    match (if is_role (role msg) "assistant" then tool_calls msg else None) with
    | Some calls =>
        and_then (each tool_use calls) (fun uses =>
        Done (prompt,
              [mkOutMessage (Some "assistant")
                 (OutBlocks
                    ((if content_truthy (message_content msg)
                      then [MessageText (message_content msg)] else [])
                     ++ uses))]))
    | None =>
        and_then
          (match message_content msg with
           | ContentText s => Done (OutText s)
           | ContentBlocks blocks =>
               and_then (each (convertBlock v) blocks) (fun converted =>
               Done (OutBlocks converted))
           | ContentOther o => Done (OutOther o)
           end)
          (fun c => Done (prompt, [mkOutMessage (convertRole (role msg)) c]))
    end.

Fixpoint convertLoop (v : variant) (msgs : list message)
    (prompt : option string) (pushed : list out_message)
    : outcome (option string * list out_message) :=
  match msgs with
  | [] => Done (prompt, pushed)
  | msg :: rest =>
      and_then (convertMessage v prompt msg) (fun r =>
      convertLoop v rest (fst r) (pushed ++ snd r))
  end.

(** [convertMessages(messages)]: [{system, messages}]. *)
Definition convertMessages (v : variant) (msgs : list message)
    : outcome (option string * list out_message) :=
  convertLoop v msgs None [].

End Messages.

(** [convertTools(tools)]. *)
Record out_tool : Type := mkOutTool {
  out_name : option string;
  out_description : string;
  input_schema : json
}.

Definition default_schema : json := JObj [("type", JStr "object")].

Definition convertTool (t : tool) : out_tool :=
  let fn := match tool_function t with
            | Some f => f
            | None => own t
            end in
  mkOutTool (tool_name fn)
            (or_string (description fn) "")
            (match parameters fn with
             | Some p => if truthy (Some p) then p else default_schema
             | None => default_schema
             end).

Definition convertTools (tools : option (list tool)) : option (list out_tool) :=
  match tools with
  | None => None
  | Some [] => None
  | Some l => Some (map convertTool l)
  end.

(** [parseThinkingConfig(request)]: [{type: "enabled", budget_tokens}]. *)
Record thinkingConfig : Type := mkThinkingConfig {
  budget_tokens : json
}.

Definition default_budget : json := JNum 10000.

Definition isThinkingModel (v : variant) (model : string) : bool :=
  match v with
  | Claude => includes_text "thinking" model
  | Kimi => includes_text "thinking" model || includes_text "k2" model
  end.

Definition explicit_budget (thinking : option json) : json :=
  match thinking with
  | Some (JObj o) =>
      if truthy (get "budget_tokens" o)
      then nullish (get "budget_tokens" o) default_budget
      else default_budget
  | _ => default_budget
  end.

Definition parseThinkingConfig (v : variant) (r : request)
    : option thinkingConfig :=
  if isThinkingModel v (or_string (model r) "")
  then Some (mkThinkingConfig (explicit_budget (thinking r)))
  else None.

(** The provider configuration and the options of the constructor. *)
Record provider : Type := mkProvider {
  api_base_url : option string;
  api_key : option string;
  models : option (list string)
}.

Record options : Type := mkOptions {
  baseUrl : option string;
  apiKey : option string
}.

(** [s] without the suffix [suffix], when it ends with it. *)
Fixpoint strip_suffix (suffix s : string) : option string :=
  if String.eqb s suffix then Some EmptyString
  else match s with
       | EmptyString => None
       | String c rest => option_map (String c) (strip_suffix suffix rest)
       end.

(** [baseUrl.replace(/\/v1\/messages\/?$/, replacement)]. *)
Definition replace_endpoint (replacement baseUrl : string) : string :=
  match strip_suffix "/v1/messages/" baseUrl with
  | Some b => (b ++ replacement)%string
  | None =>
      match strip_suffix "/v1/messages" baseUrl with
      | Some b => (b ++ replacement)%string
      | None => baseUrl
      end
  end.

(** The arguments of the [URL] constructor. *)
Inductive url_arguments : Type :=
| Absolute (address : string)
| Relative (path base : string).

Record body : Type := mkBody {
  body_model : string;
  body_messages : list out_message;
  body_max_tokens : Z;
  body_stream : bool;
  body_system : option string;
  body_tools : option (list out_tool);
  body_thinking : option thinkingConfig;
  body_temperature : option json;
  body_top_p : option json;
  body_top_k : option json;
  stop_sequences : option (list json)
}.

Record transformed : Type := mkTransformed {
  request_body : body;
  url : url_arguments;
  headers : list (string * string)
}.

Definition default_base (v : variant) : string :=
  match v with
  | Claude => "https://api.anthropic.com"
  | Kimi => "https://api.kimi.com/coding/"
  end.

Definition default_model (v : variant) (p : option provider) : string :=
  match v with
  | Claude => "claude-sonnet-4-20250514"
  | Kimi =>
      or_string (match p with
                 | Some c => match models c with
                             | Some (m :: _) => Some m
                             | _ => None
                             end
                 | None => None
                 end) "kimi-for-coding"
  end.

(** [provider?.api_base_url || this.options.baseUrl || this.baseUrl], with
    [this.baseUrl] as the constructor sets it. *)
Definition resolved_base (v : variant) (p : option provider) (o : options)
    : string :=
  or_string (or_else (match p with Some c => api_base_url c | None => None end)
                     (baseUrl o))
            (or_string (baseUrl o) (default_base v)).

(** [provider?.api_key || this.options.apiKey || this.apiKey], with
    [this.apiKey] as the constructor sets it from the environment. *)
Definition resolved_key (p : option provider) (o : options)
    (env_key : option string) : option string :=
  or_else (or_else (match p with Some c => api_key c | None => None end)
                   (apiKey o))
          (or_else (apiKey o) env_key).

Definition request_url (v : variant) (base : string) : url_arguments :=
  match v with
  | Claude => Absolute (replace_endpoint "" base ++ "/v1/messages")
  | Kimi => Relative "./v1/messages" (replace_endpoint "/" base)
  end.

Definition stop_list (stop : option json) : option (list json) :=
  if truthy stop then
    match stop with
    | Some (JArr l) => Some l
    | Some s => Some [s]
    | None => None
    end
  else None.

Section Transformer.

Variable JSON_parse : string -> option json.
Variable JSON_stringify : content -> option string.

(** [transformRequestIn(request, provider)] of either transcoder, for the
    constructor options [o] and the [ANTHROPIC_API_KEY] of the
    environment. *)
Definition transformRequestIn (v : variant) (o : options)
    (env_key : option string) (r : request) (p : option provider)
    : outcome transformed :=
  and_then (convertMessages JSON_parse JSON_stringify v
              (nullish (messages r) [])) (fun converted =>
  let b :=
    mkBody (or_string (model r) (default_model v p))
           (snd converted)
           (or_number (max_tokens r) 4096)
           (nullish (stream r) false)
           (if prompt_truthy (fst converted) then fst converted else None)
           (convertTools (tools r))
           (parseThinkingConfig v r)
           (temperature r) (top_p r) (top_k r)
           (stop_list (stop r)) in
  Done (mkTransformed b
          (request_url v (resolved_base v p o))
          ([("Content-Type", "application/json");
            ("anthropic-version", "2023-06-01")]
           ++ (match v with
               | Kimi => if body_stream b
                         then [("Accept", "text/event-stream")] else []
               | Claude => []
               end)
           ++ (match resolved_key p o env_key with
               | Some k => if String.eqb k "" then [] else [("x-api-key", k)]
               | None => []
               end))%list)).

End Transformer.

End AnthropicRequest.

(* ================================================================== *)
(** ** The request contents of the Gemini transcoder                   *)
(* ================================================================== *)

Module GeminiRequest.
Import JS Canonical.
Import AnthropicRequest(failure, SyntaxError, EngineTypeError,
                        outcome, Done, Throws, and_then, each, is_role,
                        comma).

(** [toolCall.id || `tool_${Math.random()...}`]. *)
Inductive call_id : Type :=
| Supplied (id : string)
| Random.

(** A part of a Gemini content; the callback of the block map returns
    [undefined] for a block that is neither text nor an image. *)
Inductive part : Type :=
| TextPart (text : string)
| FileData (mime_type : option string) (file_uri : string)
| InlineData (mime_type : option string) (data : string)
| FunctionCall (id : call_id) (name : option string) (args : json)
| UndefinedPart.

Record geminiContent : Type := mkContent {
  content_role : string;
  parts : list part
}.

(** [url.split(",").pop() || url]. *)
Definition inline_payload (url : string) : string :=
  or_string (Some (last (split_char comma url) EmptyString)) url.

(** The callback of [message.content.map] (gemini-cli.js 238-263). *)
Definition convertBlock (b : block) : outcome part :=
  if is_role (type b) "text" then Done (TextPart (or_string (text b) ""))
  else if is_role (type b) "image_url" then
    match image_url b with
    | Some (ImageObject (Some u)) =>
        if startsWith "http" u then Done (FileData (media_type b) u)
        else Done (InlineData (media_type b) (inline_payload u))
    | _ => Throws EngineTypeError
    end
  else Done UndefinedPart.

Section Contents.

(** [JSON.parse] ([None] when it throws) and the text a value that is not
    a string is turned into when [JSON.parse] is given it. *)
Variable JSON_parse : string -> option json.
Variable text_of : json -> string.

(** The callback of [message.tool_calls.map] (gemini-cli.js 269-279). *)
Definition convertToolCall (c : toolCall) : outcome part :=
  match function c with
  | None => Throws EngineTypeError
  | Some f =>
      match JSON_parse (match arguments f with
                        | Some (JStr s) => or_string (Some s) "{}"
                        | Some a => if truthy (Some a) then text_of a else "{}"
                        | None => "{}"
                        end) with
      | Some args =>
          Done (FunctionCall (match Canonical.id c with
                              | Some i => if String.eqb i "" then Random
                                          else Supplied i
                              | None => Random
                              end)
                             (function_name f) args)
      | None => Throws SyntaxError
      end
  end.

Definition geminiRole (role : option string) : string :=
  if is_role role "assistant" then "model" else "user".

(** The callback of [request.messages.map] (gemini-cli.js 222-286). *)
Definition convertMessage (msg : message) : outcome geminiContent :=
  and_then (match message_content msg with
            | ContentText s => Done [TextPart s]
            | ContentBlocks blocks => each convertBlock blocks
            | ContentOther _ => Done []
            end) (fun from_content =>
  and_then (match tool_calls msg with
            | Some calls => each convertToolCall calls
            | None => Done []
            end) (fun from_calls =>
  Done (mkContent (geminiRole (role msg)) (from_content ++ from_calls)))).

(** [request.messages.map(...)]: the [contents] of the request body. *)
Definition transformRequestIn_contents (r : request)
    : outcome (list geminiContent) :=
  match messages r with
  | Some msgs => each convertMessage msgs
  | None => Throws EngineTypeError
  end.

(** The address of the request (gemini-cli.js 293-297). *)
Definition transformRequestIn_url (r : request) : string :=
  ("https://cloudcode-pa.googleapis.com/v1internal:" ++
   (if nullish (stream r) false
    then "streamGenerateContent?alt=sse" else "generateContent"))%string.

End Contents.

End GeminiRequest.

(* ================================================================== *)
(** ** Vocabulary of further properties of the stream readers          *)
(* ================================================================== *)

Module StreamSpec.
Import JS Anthropic.

(** A [content_block_delta] event that carries the thinking fragment
    [f]. *)
Definition thinking_delta_event (ev : event) (f : string) : Prop :=
  event_type ev = Some "content_block_delta" /\
  exists d, event_delta ev = Some d /\
            delta_type d = Some "thinking_delta" /\
            delta_thinking d = Some f.

(** An upstream fragment of assistant output: visible text or thinking. *)
Inductive fragment_kind : Type :=
| TextFragment (f : string)
| ThinkingFragment (f : string).

Definition carries (ev : event) (k : fragment_kind) : Prop :=
  match k with
  | TextFragment f => AnthropicSpec.text_delta_event ev f
  | ThinkingFragment f => thinking_delta_event ev f
  end.

Definition texts_of (ks : list fragment_kind) : list string :=
  flat_map (fun k => match k with TextFragment f => [f] | _ => [] end) ks.

Definition thoughts_of (ks : list fragment_kind) : list string :=
  flat_map (fun k => match k with ThinkingFragment f => [f] | _ => [] end)
           ks.

(** The reasoning text a chunk contributes. *)
Definition reasoning_of (c : chunk) : string :=
  match reasoning_content (chunk_delta c) with
  | Some s => s
  | None => ""
  end.

Definition emitted_reasoning (out : list chunk) : string :=
  String.concat "" (map reasoning_of out).

(** The event types with a branch that pushes something. *)
Definition acting_type (t : option string) : bool :=
  is_type t "message_start" || is_type t "content_block_start"
  || is_type t "content_block_delta" || is_type t "message_delta".

Definition is_message_start (te : Z * event) : bool :=
  is_type (event_type (snd te)) "message_start".

Definition is_message_delta (te : Z * event) : bool :=
  is_type (event_type (snd te)) "message_delta".

(** Reads that all happen at the clock reading [now]. *)
Definition at_clock (now : Z) (values : list string) : list (Z * string) :=
  map (fun v => (now, v)) values.

(** *** Sample events *)

Definition ev_thinking (f : string) : event :=
  mkEvent (Some "content_block_delta") None (Some 0%Z) None
          (Some (mkDelta (Some "thinking_delta") None (Some f) None None))
          None.

End StreamSpec.

(* ================================================================== *)
(** ** Vocabulary of further properties of the response documents      *)
(* ================================================================== *)

Module DocumentSpec.
Import JS.

(** The [tool_use] blocks and the [thinking] blocks of a document. *)
Definition is_tool_use (b : Anthropic.content_block) : bool :=
  Anthropic.is_type (Anthropic.block_type b) "tool_use".



(** The input of a tool-use block as it is serialised: [{}] when absent
    (or falsy). *)
Definition input_or_empty (b : Anthropic.content_block) : json :=
  if truthy (Anthropic.block_input b)
  then nullish (Anthropic.block_input b) (JObj [])
  else JObj [].

Definition call_of (stringify : json -> string)
  (b : Anthropic.content_block) : Anthropic.messageToolCall :=
  {| Anthropic.call_id := Anthropic.block_id b;
     Anthropic.call_name := Anthropic.block_name b;
     Anthropic.call_arguments := stringify (input_or_empty b) |}.

(** A Cloud-Code response from which a chunk can be built: a first
    candidate with a content that has parts, and usage metadata. *)
Definition complete (r : GeminiResponse.response)
  (c : GeminiResponse.candidate) (ps : list GeminiResponse.part)
  (u : GeminiResponse.usageMetadata) : Prop :=
  (exists cs, GeminiResponse.candidates r = Some (c :: cs)) /\
  GeminiResponse.content c = Some (Some ps) /\
  GeminiResponse.response_usageMetadata r = Some u.

(** No grounding chunk to annotate. *)
Definition ungrounded (c : GeminiResponse.candidate) : Prop :=
  match GeminiResponse.candidate_groundingMetadata c with
  | Some g => GeminiResponse.groundingChunks g = None \/
              GeminiResponse.groundingChunks g = Some []
  | None => True
  end.

(** *** Sample documents *)

Definition block_text (s : string) : Anthropic.content_block :=
  Anthropic.mkContentBlock (Some "text") None None (Some s) None None.

Definition block_thinking (s : string) : Anthropic.content_block :=
  Anthropic.mkContentBlock (Some "thinking") None None None (Some s) None.

Definition block_tool (i n : string) : Anthropic.content_block :=
  Anthropic.mkContentBlock (Some "tool_use") (Some i) (Some n) None None
                           None.

(** A response whose only candidate has a finish reason and no parts. *)
Definition finish_only_response : GeminiResponse.response :=
  GeminiResponse.mkResponse
    (Some [GeminiResponse.mkCandidate (Some None) (Some "STOP") None None])
    (Some "r1") (Some "gemini")
    (Some (GeminiResponse.mkUsageMetadata (Some 1%Z) (Some 2%Z)
                                          (Some 3%Z))).

End DocumentSpec.

(* ================================================================== *)
(** ** Vocabulary of further properties of the schema adapter          *)
(* ================================================================== *)

Module SchemaSpec.
Import JS Gemini.

(** A schema whose structural fields hold what JSON Schema puts there: a
    [type] that is a string or a list of strings, [items] that is a schema,
    [anyOf] that is a list of schemas, [properties] that maps names to
    schemas; any field may be [null], other fields are free. *)
Inductive well_typed : json -> Prop :=
| well_typed_object (o : obj) :
    Forall well_typed_field o -> well_typed (JObj o)
with well_typed_field : string * json -> Prop :=
| field_null (k : string) : well_typed_field (k, JNull)
| field_type_name (t : string) : well_typed_field ("type", JStr t)
| field_type_list (l : list json) :
    Forall (fun x => exists t, x = JStr t) l ->
    well_typed_field ("type", JArr l)
| field_items_schema (v : json) :
    well_typed v -> well_typed_field ("items", v)
| field_anyOf_schemas (l : list json) :
    Forall well_typed l -> well_typed_field ("anyOf", JArr l)
| field_properties_schemas (d : obj) :
    Forall (fun kv => well_typed (snd kv)) d ->
    well_typed_field ("properties", JObj d)
| field_free (k : string) (v : json) :
    String.eqb k "type" = false ->
    includes schemaFieldNames k = false ->
    includes listSchemaFieldNames k = false ->
    includes dictSchemaFieldNames k = false ->
    well_typed_field (k, v).

(** The two errors the adapter throws itself. *)
Definition refusal (e : error) : Prop :=
  e = JsError conflict_message \/ e = JsError null_only_message.

(** A result that is not an engine error. *)
Definition clean {A} (r : result A) : Prop :=
  match r with
  | Ok _ => True
  | Err e => refusal e
  end.



(** *** Sample schemas *)

Definition described_schema : json :=
  JObj [("description", JStr "a city");
        ("type", JArr [JStr "string"; JStr "null"]);
        ("enum", JArr [JStr "Seoul"; JStr "Busan"])].

Definition described_nullable : json :=
  JObj [("description", JStr "a city");
        ("anyOf", JArr [JObj [("type", JStr "null")];
                        JObj [("type", JStr "string")]])].

Definition bare_nullable : json :=
  JObj [("anyOf", JArr [JObj [("type", JStr "null")];
                        JObj [("type", JStr "string")]])].

Definition object_schema : json :=
  JObj [("type", JStr "object");
        ("properties",
         JObj [("city", JObj [("type", JStr "string")]);
               ("days", JObj [("type", JArr [JStr "integer"; JStr "null"])])]);
        ("required", JArr [JStr "city"]);
        ("additionalProperties", JBool false)].

End SchemaSpec.

(** Vocabulary for the facts about the request transcoders. *)

Module RequestSpec.
Import JS Canonical AnthropicRequest.

(** The messages that are turns of the conversation. *)
Definition is_system (m : message) : bool := is_role (role m) "system".

Definition turns (msgs : list message) : list message :=
  filter (fun m => negb (is_system m)) msgs.

(** The texts of the system messages, in order; a system message whose
    content is neither a string nor an array has none. *)
Definition system_texts (msgs : list message) : list string :=
  flat_map (fun m =>
    if is_system m then
      match message_content m with
      | ContentText s => [s]
      | ContentBlocks blocks => [system_text blocks]
      | ContentOther _ => []
      end
    else []) msgs.

Fixpoint drop_empty (texts : list string) : list string :=
  match texts with
  | [] => []
  | t :: rest => if String.eqb t "" then drop_empty rest else texts
  end.

Definition blank_line : string := String newline (String newline EmptyString).

(** An image block has an address the Claude transcoder can read when
    [image_url] is a string or carries a non-empty [url]. *)
Definition addressed (b : block) : bool :=
  if is_role (type b) "text" then true
  else if is_role (type b) "image_url" then
    match url_of b with
    | UrlString _ => true
    | _ => false
    end
  else true.

Definition well_addressed (m : message) : bool :=
  match message_content m with
  | ContentBlocks blocks => forallb addressed blocks
  | _ => true
  end.

(** No character of [s] is [c]. *)
Fixpoint free_of (c : ascii) (s : string) : bool :=
  match s with
  | EmptyString => true
  | String a rest => negb (Ascii.eqb a c) && free_of c rest
  end.

(** [data:<mime>;<parameters>,<payload>]. *)
Definition data_uri (mime parameters payload : string) : string :=
  ("data:" ++ mime ++ String semicolon parameters
     ++ String comma payload)%string.

Definition image_block (address : string) (kind : option string) : block :=
  mkBlock (Some "image_url") None (Some (ImageObject (Some address))) kind.

(** The text a tool call hands to [JSON.parse] in the Anthropic-style
    transcoders, when it hands one. *)
Definition argument_text (c : toolCall) : option string :=
  match function c with
  | Some f =>
      match arguments f with
      | Some (JStr s) => Some (if String.eqb s "" then "{}" else s)
      | _ => None
      end
  | None => None
  end.

Definition arguments_parse (parse : string -> option json) (m : message)
    : Prop :=
  forall calls c s,
    tool_calls m = Some calls -> In c calls ->
    argument_text c = Some s -> parse s <> None.

Definition endpoint : string := "/v1/messages".

(** The base address already names the endpoint, with or without a
    trailing slash. *)
Definition names_endpoint (base : string) : Prop :=
  exists b, base = (b ++ endpoint)%string \/
            base = (b ++ endpoint ++ "/")%string.

(** How many parts a message gives a Gemini content. *)
Definition part_count (m : message) : nat :=
  (match message_content m with
   | ContentText _ => 1
   | ContentBlocks blocks => List.length blocks
   | ContentOther _ => 0
   end +
   match tool_calls m with
   | Some calls => List.length calls
   | None => 0
   end)%nat.

(** Sample requests. *)
Definition plain_message (r s : string) : message :=
  mkMessage (Some r) (ContentText s) None None None.

Definition sample_conversation : list message :=
  [plain_message "system" "";
   plain_message "system" "Be brief.";
   plain_message "user" "Hello";
   plain_message "system" "Answer in French.";
   mkMessage (Some "tool") (ContentText "42") None (Some "call_1") None;
   plain_message "assistant" "Bonjour"].

Definition sample_parse (s : string) : option json :=
  if String.eqb s "{}" then Some (JObj []) else None.

Definition sample_call : toolCall :=
  mkToolCall (Some "call_1")
             (Some (mkCalledFunction (Some "lookup") (Some (JStr ""))))
             None.

Definition sample_image : block :=
  image_block (data_uri "image/jpeg" "base64" "AAAA") (Some "image/jpeg").

Definition sample_turns : list message :=
  [mkMessage (Some "user") (ContentBlocks [sample_image]) None None None;
   mkMessage (Some "assistant") (ContentText "") (Some [sample_call])
             None None].
Definition sample_stringify (c : content) : option string := Some "null".
Definition sample_text_of (j : json) : string := "{}".

Definition sample_request (m : option string) (t : option json) : request :=
  mkRequest m (Some sample_conversation) None t None None None None None None.

End RequestSpec.

(* ================================================================== *)
(** ** Properties of the Anthropic-style transcoders                   *)
(* ================================================================== *)

Module AnthropicFacts.
Import JS Anthropic AnthropicSpec.

(** *** Basic facts about the reader's bookkeeping *)

Lemma or_string_same (s : string) : or_string (Some s) s = s.
Proof. unfold or_string. destruct (String.eqb s ""); reflexivity. Qed.

Lemma or_string_fragment (s : string) : or_string (Some s) "" = s.
Proof.
  unfold or_string. destruct (String.eqb_spec s ""); congruence.
Qed.

Lemma absorb_same (vars : StreamState) : absorb vars vars = vars.
Proof.
  destruct vars as [m mo i ty b it ot h]; unfold absorb; cbn -[or_string].
  rewrite !or_string_same. destruct ty; reflexivity.
Qed.

Lemma skipn_past_last {A} (pre : list A) (e : A) :
  skipn (S (List.length pre)) (pre ++ [e]) = [].
Proof. induction pre; simpl; auto. Qed.

Lemma firstn_before_last {A} (pre : list A) (e : A) :
  firstn (List.length pre) (pre ++ [e]) = pre.
Proof. induction pre; simpl; congruence. Qed.

Lemma nth_error_last {A} (pre : list A) (e : A) :
  nth_error (pre ++ [e]) (List.length pre) = Some e.
Proof. induction pre; simpl; auto. Qed.

(** The last entry of a non-empty buffer is always in range. *)
Lemma append_arguments_last (pre : list toolCall) (e : toolCall)
  (s : string) :
  append_arguments (pre ++ [e])
    (Z.of_nat (List.length (pre ++ [e])) - 1) s
  = Some (pre ++ [ {| id := id e; function_name := function_name e;
                      function_arguments := function_arguments e ++ s |} ]).
Proof.
  unfold append_arguments, array_get.
  rewrite length_app.
  replace (Z.of_nat (List.length pre + List.length [e]) - 1)%Z
    with (Z.of_nat (List.length pre)) by (simpl; lia).
  destruct (Z.ltb_spec (Z.of_nat (List.length pre)) 0); [lia|].
  rewrite Nat2Z.id, nth_error_last, skipn_past_last, firstn_before_last.
  reflexivity.
Qed.

Lemma nonempty_snoc {A} (l : list A) :
  l <> [] -> exists pre e, l = pre ++ [e].
Proof.
  intros H. destruct (exists_last H) as [pre [e ->]]. eauto.
Qed.

(** The handler never throws: the one indexed access is guarded. *)
Lemma handler_total (now : Z) (ev : event) (state : StreamState) :
  exists items state', _processSSEEvent now ev state = Ok (items, state').
Proof.
  unfold _processSSEEvent.
  repeat match goal with
         | |- context [if ?b then _ else _] => destruct b eqn:?
         end; eauto.
  unfold last_index in *.
  destruct (toolCallsBuffer state) as [|e0 l] eqn:Hb.
  - simpl in *. discriminate.
  - destruct (@nonempty_snoc _ (e0 :: l)) as [pre [e He]]; [discriminate|].
    rewrite He, append_arguments_last. eauto.
Qed.

(** *** Single events *)

Lemma handle_text_delta (now : Z) (ev : event) (f : string)
  (vars : StreamState) :
  text_delta_event ev f ->
  handleEvent now ev vars
  = ([mk now vars (mkChunkDelta None (Some f) None None) None None], vars).
Proof.
  intros [Ht [d [Hd [Hdt Hf]]]].
  unfold handleEvent, _processSSEEvent.
  rewrite Ht, Hd; cbn -[or_string absorb mk]. rewrite Hdt, Hf.
  cbn -[or_string absorb mk].
  rewrite or_string_fragment, absorb_same. reflexivity.
Qed.

Lemma concat_cons_empty (s : string) (l : list string) :
  String.concat "" (s :: l) = (s ++ String.concat "" l)%string.
Proof.
  destruct l; simpl; auto.
  induction s; simpl; congruence.
Qed.

Lemma string_app_nil_r (s : string) : (s ++ "")%string = s.
Proof. induction s; simpl; congruence. Qed.

Lemma string_app_assoc (a b c : string) :
  ((a ++ b) ++ c)%string = (a ++ (b ++ c))%string.
Proof. induction a; simpl; congruence. Qed.

(** C1.  Order preservation of text: when the handler processes a sequence
    of text-delta events with fragments f1..fn (from any state of the
    reader), it emits exactly one chunk per fragment, in arrival order, whose
    [delta.content] is that fragment; the concatenation of the emitted
    contents is f1+...+fn; and the reader's state is left as it was. *)
Theorem text_deltas_emitted_in_order
  (events : list (Z * event)) (fs : list string) (vars : StreamState) :
  Forall2 (fun te f => text_delta_event (snd te) f) events fs ->
  map (fun c => content (chunk_delta c)) (fst (handleEvents events vars))
    = map Some fs /\
  emitted_text (fst (handleEvents events vars)) = String.concat "" fs /\
  snd (handleEvents events vars) = vars.
Proof.
  intros H. induction H as [|[now ev] f events fs Hev _ IH].
  - simpl. auto.
  - simpl in Hev. cbn [handleEvents].
    rewrite (handle_text_delta now ev f vars Hev).
    destruct (handleEvents events vars) as [outs vars'] eqn:E.
    simpl in IH. destruct IH as [IH1 [IH2 IH3]].
    cbn [fst snd app map]. repeat split.
    + cbn. now rewrite IH1.
    + unfold emitted_text in *. cbn [map].
      rewrite !concat_cons_empty. unfold content_of at 1. cbn.
      now rewrite IH2.
    + assumption.
Qed.

Lemma text_deltas_emitted_in_order_witness :
  emitted_text
    (fst (handleEvents [(1%Z, ev_text "Hi"); (2%Z, ev_text " there")]
                       initial))
  = "Hi there".
Proof.
  refine (eq_trans
            (proj1 (proj2 (text_deltas_emitted_in_order
                             [(1%Z, ev_text "Hi"); (2%Z, ev_text " there")]
                             ["Hi"; " there"] initial _)))
            eq_refl).
  repeat constructor; unfold text_delta_event; simpl; eauto 10.
Defined.

(** *** Growth of the tool-call buffer *)

Lemma continues_refl (e : toolCall) : continues e e.
Proof.
  repeat split. exists ""%string. now rewrite string_app_nil_r.
Qed.

Lemma continues_trans (a b c : toolCall) :
  continues a b -> continues b c -> continues a c.
Proof.
  intros [Hi [Hn [s Hs]]] [Hi' [Hn' [s' Hs']]].
  repeat split; try congruence.
  exists (s ++ s')%string. rewrite Hs', Hs. apply string_app_assoc.
Qed.

Lemma Forall2_continues_refl (b : list toolCall) : Forall2 continues b b.
Proof. induction b; constructor; auto using continues_refl. Qed.

Lemma extends_refl (b : list toolCall) : extends b b.
Proof.
  exists b, []. rewrite app_nil_r. auto using Forall2_continues_refl.
Qed.

Lemma Forall2_continues_trans (a b c : list toolCall) :
  Forall2 continues a b -> Forall2 continues b c -> Forall2 continues a c.
Proof.
  intros H; revert c. induction H; intros c Hc; inversion Hc; subst;
    constructor; eauto using continues_trans.
Qed.

Lemma extends_trans (a b c : list toolCall) :
  extends a b -> extends b c -> extends a c.
Proof.
  intros [k [ad [-> Hk]]] [k' [ad' [-> Hk']]].
  apply Forall2_app_inv_l in Hk' as [k1 [k2 [H1 [H2 ->]]]].
  exists k1, (k2 ++ ad'). rewrite app_assoc. split; auto.
  eauto using Forall2_continues_trans.
Qed.

Lemma extends_push (b : list toolCall) (e : toolCall) : extends b (b ++ [e]).
Proof. exists b, [e]. auto using Forall2_continues_refl. Qed.

Lemma extends_grow_last (pre : list toolCall) (e : toolCall) (s : string) :
  extends (pre ++ [e])
          (pre ++ [ {| id := id e; function_name := function_name e;
                       function_arguments := function_arguments e ++ s |} ]).
Proof.
  eexists _, []. rewrite app_nil_r. split; [reflexivity|].
  apply Forall2_app; [apply Forall2_continues_refl|].
  constructor; [|constructor]. repeat split. now exists s.
Qed.

(** What one call of the handler does to the buffer, and when it leaves
    the whole state alone. *)
Lemma handler_extends (now : Z) (ev : event) (state state' : StreamState)
  (items : list item) :
  _processSSEEvent now ev state = Ok (items, state') ->
  extends (toolCallsBuffer state) (toolCallsBuffer state') /\
  (In StateRef items \/ (items = [] /\ state' = state)).
Proof.
  unfold _processSSEEvent.
  repeat match goal with
         | |- context [if ?b then _ else _] => destruct b eqn:?
         end;
    try (intros H; injection H as <- <-; cbn;
         split; [first [apply extends_refl | apply extends_push]
                | auto]).
  unfold last_index in *.
  destruct (toolCallsBuffer state) as [|e0 l] eqn:Hb.
  - simpl in *. discriminate.
  - destruct (@nonempty_snoc _ (e0 :: l)) as [pre [e He]]; [discriminate|].
    rewrite He, append_arguments_last.
    intros H; injection H as <- <-; cbn.
    split; [apply extends_grow_last | auto].
Qed.

Lemma drain_buffer (items : list item) (state vars : StreamState) :
  toolCallsBuffer (snd (drain items state vars))
  = if existsb (fun i => match i with StateRef => true | _ => false end)
               items
    then toolCallsBuffer state else toolCallsBuffer vars.
Proof.
  revert vars. induction items as [|[c|] items IH]; intros vars; cbn.
  - reflexivity.
  - specialize (IH vars). destruct (drain items state vars). exact IH.
  - rewrite IH. now destruct (existsb _ items).
Qed.

Lemma handleEvent_extends (now : Z) (ev : event) (vars : StreamState) :
  extends (toolCallsBuffer vars)
          (toolCallsBuffer (snd (handleEvent now ev vars))).
Proof.
  unfold handleEvent.
  destruct (handler_total now ev vars) as [items [state' H]]. rewrite H.
  apply handler_extends in H as [Hext Hm]. rewrite drain_buffer.
  destruct (existsb _ items); [assumption | apply extends_refl].
Qed.

Lemma handleEvents_extends (events : list (Z * event))
  (vars : StreamState) :
  extends (toolCallsBuffer vars)
          (toolCallsBuffer (snd (handleEvents events vars))).
Proof.
  revert vars. induction events as [|[now ev] events IH]; intros vars.
  - apply extends_refl.
  - cbn [handleEvents].
    pose proof (handleEvent_extends now ev vars) as H1.
    destruct (handleEvent now ev vars) as [out vars'].
    specialize (IH vars').
    destruct (handleEvents events vars') as [outs vars''].
    cbn [snd] in *. eauto using extends_trans.
Qed.

Lemma handle_tool_use_start (now : Z) (ev : event) (i n : option string)
  (vars : StreamState) :
  tool_use_start_event ev i n ->
  exists c vars',
    handleEvent now ev vars = ([c], vars') /\
    tool_calls (chunk_delta c)
      = announcement (List.length (toolCallsBuffer vars)) i n /\
    toolCallsBuffer vars' = toolCallsBuffer vars ++ [mkToolCall i n ""].
Proof.
  intros [Ht [b [Hb [Hbt [Hi Hn]]]]].
  unfold handleEvent, _processSSEEvent.
  rewrite Ht, Hb; cbn -[absorb mk last_index]. rewrite Hbt.
  cbn -[absorb mk last_index].
  eexists _, _. split; [reflexivity|]. subst i n. split.
  - unfold announcement, last_index; cbn. rewrite length_app; cbn.
    repeat f_equal. lia.
  - reflexivity.
Qed.

Lemma handle_input_json_delta (now : Z) (ev : event) (p : string)
  (vars : StreamState) (pre : list toolCall) (e : toolCall) :
  input_json_delta_event ev p ->
  toolCallsBuffer vars = pre ++ [e] ->
  exists c vars',
    handleEvent now ev vars = ([c], vars') /\
    tool_calls (chunk_delta c) = fragment (List.length pre) p /\
    toolCallsBuffer vars'
      = pre ++ [mkToolCall (id e) (function_name e)
                           (function_arguments e ++ p)].
Proof.
  intros [Ht [d [Hd [Hdt Hp]]]] Hbuf.
  unfold handleEvent, _processSSEEvent.
  rewrite Ht, Hd; cbn -[absorb mk last_index append_arguments or_string].
  rewrite Hdt, Hp.
  cbn -[absorb mk last_index append_arguments or_string].
  rewrite or_string_fragment.
  unfold last_index. rewrite Hbuf.
  destruct (Z.geb_spec (Z.of_nat (List.length (pre ++ [e])) - 1) 0) as [_|H];
    [|rewrite length_app in H; simpl in H; lia].
  rewrite append_arguments_last.
  cbn -[absorb mk].
  eexists _, _. split; [reflexivity|]. split; [|reflexivity].
  unfold fragment; cbn. rewrite length_app; cbn. repeat f_equal. lia.
Qed.

Lemma handle_input_json_deltas (frags : list (Z * event))
  (ps : list string) :
  Forall2 (fun te p => input_json_delta_event (snd te) p) frags ps ->
  forall (vars : StreamState) (pre : list toolCall) (e : toolCall),
    toolCallsBuffer vars = pre ++ [e] ->
    map (fun c => tool_calls (chunk_delta c))
        (fst (handleEvents frags vars))
      = map (fragment (List.length pre)) ps /\
    toolCallsBuffer (snd (handleEvents frags vars))
      = pre ++ [mkToolCall (id e) (function_name e)
                  (function_arguments e ++ String.concat "" ps)].
Proof.
  induction 1 as [|[now ev] p frags ps Hev _ IH]; intros vars pre e Hbuf.
  - cbn. rewrite string_app_nil_r, Hbuf. destruct e; auto.
  - cbn [handleEvents]. simpl in Hev.
    destruct (handle_input_json_delta now ev p vars pre e Hev Hbuf)
      as [c [vars' [E [Hc Hb']]]].
    rewrite E. specialize (IH vars' pre _ Hb').
    destruct (handleEvents frags vars') as [outs vars''].
    cbn [fst snd] in *. destruct IH as [IH1 IH2]. split.
    + cbn. now rewrite Hc, IH1.
    + rewrite IH2. cbn [id function_name function_arguments].
      rewrite concat_cons_empty, string_app_assoc. reflexivity.
Qed.

(** C2.  Tool-argument accumulation: after a [tool_use] block start followed
    by input fragments p1..pn, the buffer is the old buffer with one new last
    entry whose arguments are p1+...+pn; the emitted chunks are the
    announcement of that entry's index followed by one chunk per fragment
    carrying exactly that fragment for that index; and over any sequence of
    events whatever, no buffer entry is reordered or removed (each keeps its
    index, id and name, and its arguments only grow at the end). *)
Theorem tool_arguments_accumulate
  (now : Z) (start : event) (i n : option string)
  (frags : list (Z * event)) (ps : list string) (vars : StreamState) :
  tool_use_start_event start i n ->
  Forall2 (fun te p => input_json_delta_event (snd te) p) frags ps ->
  toolCallsBuffer (snd (handleEvents ((now, start) :: frags) vars))
    = toolCallsBuffer vars ++ [mkToolCall i n (String.concat "" ps)] /\
  map (fun c => tool_calls (chunk_delta c))
      (fst (handleEvents ((now, start) :: frags) vars))
    = announcement (List.length (toolCallsBuffer vars)) i n
      :: map (fragment (List.length (toolCallsBuffer vars))) ps /\
  (forall events' vars',
      extends (toolCallsBuffer vars')
              (toolCallsBuffer (snd (handleEvents events' vars')))).
Proof.
  intros Hs Hf.
  destruct (handle_tool_use_start now start i n vars Hs)
    as [c [vars1 [E [Hc Hb]]]].
  cbn [handleEvents]. rewrite E.
  destruct (handle_input_json_deltas frags ps Hf vars1 _ _ Hb) as [H1 H2].
  destruct (handleEvents frags vars1) as [outs vars2].
  cbn [fst snd] in *. repeat split.
  - rewrite H2. reflexivity.
  - cbn. now rewrite Hc, H1.
  - intros. apply handleEvents_extends.
Qed.

Lemma tool_arguments_accumulate_witness :
  toolCallsBuffer
    (snd (handleEvents [(1%Z, ev_tool_use "t1" "get_weather");
                        (2%Z, ev_input_json "{city:");
                        (3%Z, ev_input_json "Seoul}")] initial))
  = [mkToolCall (Some "t1") (Some "get_weather") "{city:Seoul}"].
Proof.
  refine (proj1 (tool_arguments_accumulate 1%Z
                   (ev_tool_use "t1" "get_weather")
                   (Some "t1") (Some "get_weather")
                   [(2%Z, ev_input_json "{city:");
                    (3%Z, ev_input_json "Seoul}")]
                   ["{city:"; "Seoul}"] initial _ _)).
  - unfold tool_use_start_event; simpl; eauto 10.
  - repeat constructor; unfold input_json_delta_event; simpl; eauto 10.
Defined.

(** C10.  A tool-input fragment that arrives while the buffer is empty:
    the handler returns only the state marker and the state it was given,
    the reader enqueues nothing and keeps all its variables; and the handler
    never fails on any event in any state, its one indexed access to the
    buffer being inside the bounds. *)
Theorem stray_fragment_is_ignored
  (now : Z) (ev : event) (p : string) (state : StreamState) :
  input_json_delta_event ev p ->
  toolCallsBuffer state = [] ->
  _processSSEEvent now ev state = Ok ([StateRef], state) /\
  handleEvent now ev state = ([], state) /\
  (forall now' ev' state',
      is_ok (_processSSEEvent now' ev' state') = true).
Proof.
  intros [Ht [d [Hd [Hdt Hp]]]] Hbuf.
  assert (E : _processSSEEvent now ev state = Ok ([StateRef], state)).
  { unfold _processSSEEvent.
    rewrite Ht, Hd; cbn -[last_index append_arguments or_string].
    rewrite Hdt. cbn -[last_index append_arguments or_string].
    unfold last_index. rewrite Hbuf. reflexivity. }
  repeat split.
  - exact E.
  - unfold handleEvent. rewrite E. cbn. now rewrite absorb_same.
  - intros. destruct (handler_total now' ev' state') as [? [? ->]].
    reflexivity.
Qed.

Lemma stray_fragment_is_ignored_witness :
  handleEvent 5%Z (ev_input_json "{}") initial = ([], initial).
Proof.
  refine (proj1 (proj2 (stray_fragment_is_ignored 5%Z (ev_input_json "{}")
                          "{}" initial _ eq_refl))).
  unfold input_json_delta_event; simpl; eauto 10.
Defined.

(** *** The finish-reason table *)

(** Against C3 as worded: the empty string is not [null], is none of the
    four mapped names, and is not passed through. *)
Lemma empty_stop_reason_not_passed_through :
  ~ (forall s : string,
        s <> "end_turn" -> s <> "max_tokens" -> s <> "tool_use" ->
        s <> "stop_sequence" ->
        _mapStopReason (Some s) = Some s).
Proof.
  intros H. specialize (H ""%string).
  cbn in H. assert (E : @None string = Some ""%string)
    by (apply H; discriminate).
  discriminate E.
Qed.

(** C3 (amended).  The finish-reason mapping is a total function of its
    argument: "end_turn" and "stop_sequence" give "stop", "max_tokens" gives
    "length", "tool_use" gives "tool_calls"; every other non-empty string is
    passed through unchanged; [null] (or an absent value) and the empty
    string give [null].  The non-stream transcoder applies it to the
    document's [stop_reason] and the stream handler applies it to the
    [stop_reason] of a [message_delta] event. *)
Theorem finish_reason_mapping (s : string) :
  _mapStopReason (Some "end_turn") = Some "stop" /\
  _mapStopReason (Some "max_tokens") = Some "length" /\
  _mapStopReason (Some "tool_use") = Some "tool_calls" /\
  _mapStopReason (Some "stop_sequence") = Some "stop" /\
  _mapStopReason None = None /\
  _mapStopReason (Some "") = None /\
  (s <> "end_turn" -> s <> "max_tokens" -> s <> "tool_use" ->
   s <> "stop_sequence" -> s <> "" ->
   _mapStopReason (Some s) = Some s) /\
  (forall stringify now data,
      completion_finish_reason (_transformJsonResponse stringify now data)
      = _mapStopReason (doc_stop_reason data)) /\
  (forall now ev state,
      event_type ev = Some "message_delta" ->
      exists c state',
        _processSSEEvent now ev state = Ok ([Chunk c; StateRef], state') /\
        finish_reason c
        = _mapStopReason
            (delta_stop_reason (nullish (event_delta ev) empty_delta))).
Proof.
  repeat split.
  - intros H1 H2 H3 H4 H5. unfold _mapStopReason.
    repeat match goal with
           | |- context [String.eqb s ?x] =>
               destruct (String.eqb_spec s x); [congruence|]
           end.
    reflexivity.
  - intros now ev state Ht. unfold _processSSEEvent. rewrite Ht.
    cbn -[mk _mapStopReason]. eexists _, _. split; reflexivity.
Qed.

Lemma finish_reason_mapping_witness :
  _mapStopReason (Some "refusal") = Some "refusal".
Proof.
  apply (finish_reason_mapping "refusal"); discriminate.
Defined.

(** *** Role *)

Lemma is_type_true (t : option string) (name : string) :
  is_type t name = true <-> t = Some name.
Proof.
  destruct t as [s|]; simpl.
  - rewrite String.eqb_eq. split; congruence.
  - split; discriminate.
Qed.

Lemma drain_chunks (items : list item) (state vars : StreamState) :
  fst (drain items state vars)
  = flat_map (fun i => match i with Chunk c => [c] | StateRef => [] end)
             items.
Proof.
  revert vars. induction items as [|[c|] items IH]; intros vars; cbn.
  - reflexivity.
  - specialize (IH vars). destruct (drain items state vars).
    cbn in *. now rewrite IH.
  - apply IH.
Qed.

(** A chunk emitted for an event other than [message_start] has no
    role. *)
Lemma role_absent_off_message_start (now : Z) (ev : event)
  (vars : StreamState) :
  event_type ev <> Some "message_start" ->
  Forall (fun c => role (chunk_delta c) = None)
         (fst (handleEvent now ev vars)).
Proof.
  intros Hne. unfold handleEvent, _processSSEEvent.
  destruct (is_type (event_type ev) "message_start") eqn:E.
  { apply is_type_true in E. contradiction. }
  repeat match goal with
         | |- context [if ?b then _ else _] => destruct b eqn:?
         | |- context [match append_arguments ?a ?i ?s with _ => _ end] =>
             destruct (append_arguments a i s)
         end;
    rewrite ?drain_chunks; cbn; repeat constructor.
Qed.

(** The one chunk emitted for [message_start] has the role. *)
Lemma role_on_message_start (now : Z) (ev : event) (vars : StreamState) :
  event_type ev = Some "message_start" ->
  exists c, fst (handleEvent now ev vars) = [c] /\
            role (chunk_delta c) = Some "assistant".
Proof.
  intros Ht. unfold handleEvent, _processSSEEvent. rewrite Ht.
  cbn -[mk absorb drain]. rewrite drain_chunks. cbn -[mk].
  eexists. split; reflexivity.
Qed.

Lemma roles_after_message_start (events : list (Z * event))
  (vars : StreamState) :
  Forall (fun te => event_type (snd te) <> Some "message_start") events ->
  Forall (fun c => role (chunk_delta c) = None)
         (fst (handleEvents events vars)).
Proof.
  intros H; revert vars.
  induction H as [|[now ev] events Hne _ IH]; intros vars.
  - constructor.
  - cbn [handleEvents].
    pose proof (role_absent_off_message_start now ev vars Hne) as H1.
    destruct (handleEvent now ev vars) as [out vars'].
    specialize (IH vars').
    destruct (handleEvents events vars') as [outs vars''].
    cbn [fst] in *. apply Forall_app; auto.
Qed.

(** *** The non-stream document *)

Lemma gather_textParts (stringify : json -> string)
  (blocks : list content_block) (g : gathered) :
  textParts (fold_left (gather stringify) blocks g)
  = textParts g ++ text_blocks blocks.
Proof.
  revert g. induction blocks as [|b blocks IH]; intros g.
  - cbn. now rewrite app_nil_r.
  - cbn [fold_left]. rewrite IH. unfold text_blocks. cbn [filter].
    unfold gather at 1.
    destruct (is_type (block_type b) "text") eqn:E.
    + cbn. now rewrite <- app_assoc.
    + destruct (is_type (block_type b) "thinking");
        [|destruct (is_type (block_type b) "tool_use")]; reflexivity.
Qed.

(** The content of the canonical message is the text blocks of the
    document, in document order, joined with the empty separator. *)
Lemma json_content_concatenates (stringify : json -> string) (now : Z)
  (data : document) :
  msg_content (completion_message (_transformJsonResponse stringify now data))
  = join "" (text_blocks (nullish (doc_content data) [])).
Proof.
  unfold _transformJsonResponse. cbn [completion_message msg_content].
  now rewrite gather_textParts.
Qed.

(** *** Framing *)

Lemma split_lines_nonempty (s : string) : split_lines s <> [].
Proof.
  induction s as [|c s IH]; cbn [split_lines]; [discriminate|].
  destruct (Ascii.eqb c newline); [discriminate|].
  destruct (split_lines s); [congruence | discriminate].
Qed.

Lemma split_lines_no_newline (s : string) :
  no_newline s = true -> split_lines s = [s].
Proof.
  induction s as [|c s IH]; cbn [split_lines no_newline]; [reflexivity|].
  intros H. apply andb_prop in H as [Hc Hs].
  apply negb_true_iff in Hc. rewrite Hc, (IH Hs). reflexivity.
Qed.

Lemma no_newline_app (a b : string) :
  no_newline a = true -> no_newline b = true ->
  no_newline (a ++ b) = true.
Proof.
  induction a as [|c a IH]; cbn [no_newline String.append]; auto.
  intros H Hb. apply andb_prop in H as [Hc Ha].
  rewrite Hc. cbn [andb]. auto.
Qed.

(** The carried partial line never contains a line feed. *)
Lemma carried_no_newline (s : string) :
  no_newline (last (split_lines s) "") = true.
Proof.
  induction s as [|c s IH]; cbn [split_lines]; [reflexivity|].
  destruct (Ascii.eqb c newline) eqn:E.
  - pose proof (split_lines_nonempty s).
    destruct (split_lines s); [congruence | exact IH].
  - pose proof (split_lines_nonempty s).
    destruct (split_lines s) as [|seg segs]; [congruence|].
    destruct segs as [|seg' segs].
    + cbn [last no_newline] in *. now rewrite E, IH.
    + exact IH.
Qed.

(** At a clean end the Anthropic-style reader drops a final read that
    brings no line feed: the text only joins the carried partial line, and
    the partial line is not looked at when [done] is reported. *)
Lemma reader_discards_partial_line (parse : string -> option event)
  (reads : list (Z * string)) (now : Z) (tail : string)
  (buffer : string) (vars : StreamState) :
  no_newline buffer = true ->
  no_newline tail = true ->
  pump parse (reads ++ [(now, tail)]) CleanEnd buffer vars
  = pump parse reads CleanEnd buffer vars.
Proof.
  revert buffer vars. induction reads as [|[t v] reads IH];
    intros buffer vars Hb Ht.
  - cbn [app pump].
    rewrite (split_lines_no_newline _ (no_newline_app _ _ Hb Ht)).
    reflexivity.
  - cbn [app pump].
    destruct (handleLines parse t (removelast (split_lines (buffer ++ v)))
                          vars) as [out vars'].
    rewrite IH; auto using carried_no_newline.
Qed.

(** *** The scenarios of the specification *)

(** A text stream: role chunk, the two content chunks, the terminal chunk
    with the mapped finish reason and the usage. *)
Example scenario_text_stream :
  map (fun c => (role (chunk_delta c), content (chunk_delta c),
                 finish_reason c,
                 option_map completion_tokens (chunk_usage c)))
      (fst (handleEvents
              [(1%Z, ev_message_start "msg_1" "m1");
               (2%Z, ev_plain "content_block_start");
               (3%Z, ev_text "Hi");
               (4%Z, ev_text " there");
               (5%Z, ev_plain "content_block_stop");
               (6%Z, ev_message_delta "end_turn" 2%Z);
               (7%Z, ev_plain "message_stop")]
              initial))
  = [ (Some "assistant", Some "", None, None);
      (None, Some "Hi", None, None);
      (None, Some " there", None, None);
      (None, None, Some "stop", Some 2%Z) ]%string.
Proof. reflexivity. Qed.

(** A tool call: the buffer ends with the whole argument text. *)
Example scenario_tool_call :
  toolCallsBuffer
    (snd (handleEvents
            [(1%Z, ev_tool_use "t1" "get_weather");
             (2%Z, ev_input_json ("{" ++ quoted "city" ++ ":"));
             (3%Z, ev_input_json (quoted "Seoul" ++ "}"))]
            initial))
  = [mkToolCall (Some "t1") (Some "get_weather")
       ("{" ++ quoted "city" ++ ":" ++ quoted "Seoul" ++ "}")]%string.
Proof. reflexivity. Qed.

(** The stream reader on the text stream above, framed as lines and
    delivered in two reads that cut a line in the middle. *)
Example scenario_reader :
  _transformStreamResponse sample_parse
    [(1%Z, ("event: content_block_delta" ++ String newline "data: {")%string);
     (2%Z, (slice 7 sample_line ++ String newline (String newline ""))%string)]
    CleanEnd
  = [Data (mk 2 initial (mkChunkDelta None (Some "Hi"%string) None None)
              None None);
     DoneSentinel; Close].
Proof. reflexivity. Qed.

End AnthropicFacts.

(* ================================================================== *)
(** ** Properties of the schema adapter and of the request tools       *)
(* ================================================================== *)

Module GeminiFacts.
Import JS Gemini GeminiSpec.

(** *** Errors of the conversion *)

Lemma convertField_eq (rec : json -> result json) (gen : obj)
  (k : string) (v : json) :
  convertField rec gen (k, v)
  = match v with
    | JNull => Ok gen
    | _ => convertPresentField rec gen k v
    end.
Proof. destruct v; reflexivity. Qed.





(** *** The tools of a request *)

Lemma tTool_declaration_declare (t : canonicalTool) :
  tTool_declaration (declare t) = Ok (declare t).
Proof. reflexivity. Qed.

Lemma mapM_declare (ts : list canonicalTool) :
  mapM tTool_declaration (map declare ts) = Ok (map declare ts).
Proof.
  induction ts as [|t ts IH]; cbn [map mapM]; [reflexivity|].
  rewrite tTool_declaration_declare. cbn [bind]. now rewrite IH.
Qed.

Lemma find_existsb {A} (p : A -> bool) (l : list A) :
  match find p l with Some _ => true | None => false end = existsb p l.
Proof.
  induction l as [|a l IH]; cbn; [reflexivity|].
  destruct (p a); [reflexivity | exact IH].
Qed.

(** Against C7 as worded: the declaration that [transformRequestIn] emits
    for a tool never carries the converted schema. *)
Lemma request_schema_is_not_converted :
  ~ (forall (t : canonicalTool) (s s' : json),
        is_web_search t = false ->
        function_parameters t = Some s ->
        declares_schema_marker s = false ->
        processJsonSchema s = Ok s' ->
        exists d,
          transformRequestIn_tools (Some [t])
          = Ok (Some [FunctionDeclarations [d]]) /\
          parameters d = Some s').
Proof.
  intros H.
  destruct (H weather_tool string_schema (JObj [("type", JStr "STRING")])
              eq_refl eq_refl eq_refl eq_refl) as [d [E Hd]].
  cbn in E. injection E as <-. discriminate Hd.
Qed.

(** C7 (amended).  For every canonical request carrying tools,
    [transformRequestIn] never fails on them and never applies the adapter:
    each tool other than "web_search" becomes a declaration whose
    [parametersJsonSchema] is the tool's parameter schema as given, whether
    or not it declares [$schema], and which has no [parameters]; a
    "web_search" tool adds the built-in search.  The adapter runs in
    [tTool], once, on a declaration's populated [parameters] that has no
    [$schema] key; when the key is there and [parametersJsonSchema] is not
    populated, the schema is moved to [parametersJsonSchema] as it is and
    [parameters] is removed. *)
Theorem request_tools_are_passed_raw (ts : list canonicalTool) :
  let fds := map declare (filter (fun t => negb (is_web_search t)) ts) in
  let tools :=
    match fds with [] => [] | _ => [FunctionDeclarations fds] end
    ++ (if existsb is_web_search ts then [GoogleSearch] else []) in
  transformRequestIn_tools (Some ts)
    = Ok (match tools with [] => None | _ => Some tools end) /\
  Forall (fun d => parameters d = None) fds /\
  (forall (s : json) (raw : option json) (r : json),
      truthy (Some s) = true ->
      declares_schema_marker s = false ->
      processJsonSchema s = Ok r ->
      convertOrMove (Some s) raw = Ok (Some r, raw)) /\
  (forall (s : json) (raw : option json),
      declares_schema_marker s = true ->
      truthy raw = false ->
      convertOrMove (Some s) raw = Ok (None, Some s)).
Proof.
  cbv zeta. repeat split.
  - unfold transformRequestIn_tools. cbn [option_map].
    rewrite <- (find_existsb is_web_search ts).
    destruct (map declare (filter (fun t => negb (is_web_search t)) ts))
      as [|fd fds] eqn:E.
    + cbn [bind app]. destruct (find is_web_search ts); reflexivity.
    + unfold tTool. rewrite <- E, mapM_declare. rewrite E. cbn [bind app].
      destruct (find is_web_search ts); reflexivity.
  - apply Forall_forall. intros d Hd. apply in_map_iff in Hd as [t [<- _]].
    reflexivity.
  - intros s raw r Ht Hm Hr. unfold convertOrMove.
    rewrite Ht, Hm. cbn [negb]. now rewrite Hr.
  - intros s raw Hm Hraw. unfold convertOrMove. rewrite Hm, Hraw.
    destruct s; try discriminate Hm. reflexivity.
Qed.

Lemma request_tools_are_passed_raw_witness :
  transformRequestIn_tools (Some [weather_tool; search_tool])
    = Ok (Some [FunctionDeclarations [declare weather_tool]; GoogleSearch])
  /\ convertOrMove (Some string_schema) None
     = Ok (Some (JObj [("type", JStr "STRING")]), None)
  /\ convertOrMove (Some marked_schema) None = Ok (None, Some marked_schema).
Proof.
  pose proof (request_tools_are_passed_raw [weather_tool; search_tool])
    as [H1 [_ [H2 H3]]].
  split; [exact H1|]. split.
  - apply H2; reflexivity.
  - apply H3; reflexivity.
Defined.

(** *** Objects as ordered fields *)

Lemma get_In (k : string) (o : obj) (v : json) :
  get k o = Some v -> In (k, v) o.
Proof.
  induction o as [|[k' v'] o IH]; cbn; [discriminate|].
  destruct (String.eqb_spec k k') as [->|_].
  - intros [= ->]. now left.
  - auto.
Qed.

Lemma in_keys_set (x k : string) (v : json) (o : obj) :
  In x (map fst (set k v o)) -> x = k \/ In x (map fst o).
Proof.
  induction o as [|[k' v'] o IH]; cbn.
  - intros [<-|[]]. now left.
  - destruct (String.eqb_spec k k') as [->|_]; cbn.
    + intros [<-|H]; auto.
    + intros [<-|H]; auto. destruct (IH H); auto.
Qed.

Lemma set_NoDup (k : string) (v : json) (o : obj) :
  NoDup (map fst o) -> NoDup (map fst (set k v o)).
Proof.
  induction o as [|[k' v'] o IH]; cbn; intros H.
  - constructor; [intros [] | constructor].
  - inversion H as [|? ? Hnin Hnd]; subst.
    destruct (String.eqb_spec k k') as [->|Hne]; cbn.
    + now constructor.
    + constructor; auto. intros Hin.
      apply in_keys_set in Hin as [->|Hin]; auto.
Qed.

Lemma set_Forall (P : string * json -> Prop) (k : string) (v : json)
  (o : obj) :
  Forall P o -> P (k, v) -> Forall P (set k v o).
Proof.
  intros H Hkv. induction H as [|[k' v'] o Hx Ho IH]; cbn.
  - now constructor.
  - destruct (String.eqb_spec k k') as [->|_]; constructor; auto.
Qed.




(** *** The shape of the results *)

Lemma well_formed_set (k : string) (v : json) (gen : obj) :
  well_formed gen -> converted_field (k, v) -> well_formed (set k v gen).
Proof.
  intros [H1 H2] H. split; auto using set_NoDup, set_Forall.
Qed.

Lemma nullable_field : converted_field ("nullable", JBool true).
Proof. apply field_plain; [reflexivity | discriminate]. Qed.

Lemma typeName_in (u : string) : In (typeName u) Type_values.
Proof.
  unfold typeName.
  destruct (existsb (String.eqb u) Type_values) eqn:E.
  - apply existsb_exists in E as [x [Hx E]].
    apply String.eqb_eq in E. now subst.
  - now left.
Qed.

Lemma foldM_invariant {A S} (I : S -> Prop) (f : S -> A -> result S)
  (l : list A) :
  (forall s x s', In x l -> I s -> f s x = Ok s' -> I s') ->
  forall s s', I s -> foldM f l s = Ok s' -> I s'.
Proof.
  induction l as [|x l IH]; cbn; intros Hf s s' Hs H.
  - now injection H as <-.
  - destruct (f s x) as [s1|e] eqn:E; cbn in H; [|discriminate].
    apply (IH (fun s0 x0 s0' Hin => Hf s0 x0 s0' (or_intror Hin)) s1 s');
      auto.
    apply (Hf s x s1); auto.
Qed.

Lemma single_type_converted (u : string) :
  converted (JObj [("type", JStr (typeName u))]).
Proof.
  constructor.
  - cbn. constructor; [intros [] | constructor].
  - constructor; [|constructor]. apply field_type, typeName_in.
Qed.

Lemma flatten_well_formed (typeList : list json) (gen gen' : obj) :
  well_formed gen ->
  flattenTypeArrayToAnyOf typeList gen = Ok gen' ->
  well_formed gen'.
Proof.
  intros Hgen. unfold flattenTypeArrayToAnyOf.
  set (gen1 := if existsb is_null_name typeList
               then set "nullable" (JBool true) gen else gen).
  assert (H1 : well_formed gen1).
  { subst gen1. destruct (existsb is_null_name typeList); auto.
    apply well_formed_set; auto using nullable_field. }
  clearbody gen1.
  set (step := fun acc i =>
                 bind (toUpperCase i)
                      (fun u => Ok (acc ++ [JObj [("type",
                                                   JStr (typeName u))]]))).
  assert (Hany : forall l r, foldM step l [] = Ok r -> Forall converted r).
  { intros l r. apply foldM_invariant; [|constructor].
    intros s x s' _ Hs. unfold step.
    destruct (toUpperCase x); cbn; [|discriminate].
    intros [= <-]. apply Forall_app. split; auto.
    constructor; [|constructor]. apply single_type_converted. }
  destruct (filter (fun t => negb (is_null_name t)) typeList)
    as [|t [|t' l]].
  - destruct (foldM step [] []) eqn:E; cbn; [|discriminate].
    intros [= <-]. apply well_formed_set; auto.
    constructor. eauto.
  - destruct (toUpperCase t); cbn; [|discriminate].
    intros [= <-]. apply well_formed_set; auto.
    constructor. apply typeName_in.
  - fold step. destruct (foldM step (t :: t' :: l) []) eqn:E; cbn;
      [|discriminate].
    intros [= <-]. apply well_formed_set; auto.
    constructor. eauto.
Qed.

Lemma includes_single (name k : string) :
  includes [name] k = true -> k = name.
Proof.
  unfold includes. cbn. rewrite orb_false_r. apply String.eqb_eq.
Qed.

Lemma alternative_well_formed (rec : json -> result json)
  (st st' : obj * list json) (item : json) :
  results_converted rec ->
  well_formed (fst st) /\ Forall converted (snd st) ->
  convertAlternative rec st item = Ok st' ->
  well_formed (fst st') /\ Forall converted (snd st').
Proof.
  intros Hrec [Hg Ha]. unfold convertAlternative.
  destruct (prop "type" item) as [t|]; cbn [bind]; [|discriminate].
  destruct (loose_eq_null_literal t).
  - intros [= <-]. cbn. split; auto.
    apply well_formed_set; auto using nullable_field.
  - destruct (rec item) as [r|] eqn:E; cbn [bind]; [|discriminate].
    intros [= <-]. cbn. split; auto.
    apply Forall_app. split; auto. constructor; [|constructor]. eauto.
Qed.

Lemma property_well_formed (rec : json -> result json)
  (d d' : obj) (entry : string * json) :
  results_converted rec ->
  well_formed_properties d ->
  convertProperty rec d entry = Ok d' ->
  well_formed_properties d'.
Proof.
  intros Hrec [Hn Hf]. unfold convertProperty.
  destruct (rec (snd entry)) as [r|] eqn:E; cbn [bind]; [|discriminate].
  intros [= <-]. split; auto using set_NoDup.
  apply set_Forall; auto. cbn. eauto.
Qed.

Lemma present_field_well_formed (rec : json -> result json)
  (gen gen' : obj) (k : string) (v : json) :
  results_converted rec ->
  well_formed gen ->
  v <> JNull ->
  convertPresentField rec gen k v = Ok gen' ->
  well_formed gen'.
Proof.
  intros Hrec Hgen Hv. unfold convertPresentField.
  destruct (String.eqb k "type") eqn:Etype.
  { destruct (strict_eq_str (Some v) "null"); [discriminate|].
    assert (Hup : forall u, toUpperCase v = Ok u ->
                    well_formed (set "type" (JStr (typeName u)) gen)).
    { intros. apply well_formed_set; auto. constructor.
      apply typeName_in. }
    destruct v; cbn [toUpperCase bind]; try discriminate;
      intros [= <-]; auto. }
  destruct (includes schemaFieldNames k) eqn:Eitems.
  { apply includes_single in Eitems as ->.
    destruct (rec v) as [r|] eqn:E; cbn [bind]; [|discriminate].
    intros [= <-]. apply well_formed_set; auto. constructor. eauto. }
  destruct (includes listSchemaFieldNames k) eqn:Eany.
  { apply includes_single in Eany as ->.
    destruct (iterate v) as [items|]; cbn [bind]; [|discriminate].
    destruct (foldM (convertAlternative rec) items (gen, [])) as [st|] eqn:E;
      cbn [bind]; [|discriminate].
    intros [= <-].
    assert (Hst : well_formed (fst st) /\ Forall converted (snd st)).
    { eapply (foldM_invariant
                (fun st => well_formed (fst st) /\ Forall converted (snd st)));
        [| |exact E].
      - intros; eapply alternative_well_formed; eauto.
      - cbn. auto. }
    destruct Hst. apply well_formed_set; auto. now constructor. }
  destruct (includes dictSchemaFieldNames k) eqn:Eprops.
  { apply includes_single in Eprops as ->.
    destruct (entries v) as [props|]; cbn [bind]; [|discriminate].
    destruct (foldM (convertProperty rec) props []) as [d|] eqn:E;
      cbn [bind]; [|discriminate].
    intros [= <-].
    assert (Hd : well_formed_properties d).
    { eapply (foldM_invariant well_formed_properties); [| |exact E].
      - intros; eapply property_well_formed; eauto.
      - split; constructor. }
    destruct Hd. apply well_formed_set; auto. now constructor. }
  destruct (String.eqb k "additionalProperties") eqn:Eadd.
  { now intros [= <-]. }
  intros [= <-]. apply well_formed_set; auto.
  apply field_plain; auto. unfold plain_name.
  now rewrite Etype, Eitems, Eany, Eprops, Eadd.
Qed.

Lemma field_well_formed (rec : json -> result json)
  (gen gen' : obj) (kv : string * json) :
  results_converted rec ->
  well_formed gen ->
  convertField rec gen kv = Ok gen' ->
  well_formed gen'.
Proof.
  intros Hrec Hgen. destruct kv as [k v]. rewrite convertField_eq.
  destruct v; try (apply present_field_well_formed; auto; discriminate).
  now intros [= <-].
Qed.

Lemma fragment_converted (rec : json -> result json) (gen : obj)
  (t r : json) :
  results_converted rec ->
  well_formed gen ->
  convertFragment rec gen t = Ok r ->
  converted r.
Proof.
  intros Hrec Hgen. unfold convertFragment.
  destruct (prop "type" t) as [type1|]; cbn [bind]; [|discriminate].
  set (flat := match type1 with
               | Some (JArr typeList) =>
                   flattenTypeArrayToAnyOf typeList gen
               | _ => Ok gen
               end).
  assert (Hflat : forall g, flat = Ok g -> well_formed g).
  { subst flat. destruct type1 as [[| | | |l|]|]; intros g;
      try (now intros [= <-]).
    now apply flatten_well_formed. }
  destruct flat as [g|]; cbn [bind]; [|discriminate].
  destruct (entries t) as [fields|]; cbn [bind]; [|discriminate].
  destruct (foldM (convertField rec) fields g) as [g'|] eqn:E; cbn [bind];
    [|discriminate].
  intros [= <-].
  assert (Hg' : well_formed g').
  { eapply (foldM_invariant well_formed); [| |exact E]; auto.
    intros; eapply field_well_formed; eauto. }
  destruct Hg'. now constructor.
Qed.

Lemma collapse_well_formed (j : json) (a : option json) :
  well_formed (fst (collapseNullableAnyOf j a)).
Proof.
  assert (H0 : well_formed []) by (split; constructor).
  assert (H1 : well_formed (set "nullable" (JBool true) [])).
  { apply well_formed_set; auto using nullable_field. }
  unfold collapseNullableAnyOf.
  destruct a as [[| | | |[|a0 [|a1 [|a2 l]]]|]|]; auto.
  destruct (null_typed a0); auto. destruct (null_typed a1); auto.
Qed.

Lemma body_converted (rec : json -> result json) (j r : json) :
  results_converted rec ->
  processJsonSchema_body rec j = Ok r ->
  converted r.
Proof.
  intros Hrec. unfold processJsonSchema_body.
  destruct (prop "type" j) as [type0|]; cbn [bind]; [|discriminate].
  destruct (prop "anyOf" j) as [incomingAnyOf|]; cbn [bind]; [|discriminate].
  destruct (truthy type0 && truthy incomingAnyOf); [discriminate|].
  pose proof (collapse_well_formed j incomingAnyOf) as Hc.
  destruct (collapseNullableAnyOf j incomingAnyOf) as [gen t].
  now apply fragment_converted.
Qed.

(** Every result of the adapter has the shape [converted]. *)
Lemma processJsonSchema_converted (j r : json) :
  processJsonSchema j = Ok r -> converted r.
Proof.
  unfold processJsonSchema. generalize (S (depth j)) as n.
  intros n; revert j r. induction n as [|n IH]; intros j r; cbn.
  - discriminate.
  - apply body_converted. exact IH.
Qed.

(** *** Nesting depth *)

Lemma depth_element (x : json) (l : list json) :
  In x l -> (depth x < depth (JArr l))%nat.
Proof.
  cbn [depth]. intros H. apply Nat.lt_succ_r.
  induction l as [|y l IH]; cbn; [destruct H|].
  destruct H as [->|H]; [lia|]. specialize (IH H). lia.
Qed.

Lemma depth_field (k : string) (v : json) (o : obj) :
  In (k, v) o -> (depth v < depth (JObj o))%nat.
Proof.
  cbn [depth]. intros H. apply Nat.lt_succ_r.
  induction o as [|y o IH]; cbn; [destruct H|].
  destruct H as [->|H]; [cbn; lia|]. specialize (IH H). lia.
Qed.

(** *** A second pass over a result *)


Lemma converted_type (o : obj) :
  converted (JObj o) ->
  get "type" o = None \/
  exists t, get "type" o = Some (JStr t) /\ In t Type_values.
Proof.
  intros H. inversion H as [o' Hnd Hf]; subst.
  destruct (get "type" o) as [v|] eqn:E; [right|now left].
  apply get_In in E. rewrite Forall_forall in Hf. specialize (Hf _ E).
  inversion Hf; subst; eauto; discriminate.
Qed.














(** *** The recursion equation *)

Lemma foldM_ext {A S} (f g : S -> A -> result S) (l : list A) :
  (forall x, In x l -> forall s, f s x = g s x) ->
  forall s, foldM f l s = foldM g l s.
Proof.
  induction l as [|x l IH]; intros H s; cbn [foldM]; [reflexivity|].
  rewrite (H x (or_introl eq_refl)).
  destruct (g s x); cbn [bind]; [|reflexivity].
  apply IH. intros y Hy. apply H. now right.
Qed.

Lemma chars_depth (s : string) (x : json) :
  In x (chars s) -> depth x = 0%nat.
Proof.
  induction s as [|c s IH]; cbn; [intros []|].
  intros [<-|H]; auto.
Qed.

Lemma indexed_value {A} (l : list A) (i : nat) (k : string) (v : A) :
  In (k, v) (indexed_from i l) -> In v l /\ exists j, k = index_key j.
Proof.
  revert i. induction l as [|x l IH]; intros i; cbn; [intros []|].
  intros [[= <- <-]|H]; [eauto|].
  destruct (IH _ H). auto.
Qed.

Lemma iterate_depth (v : json) (items : list json) (x : json) :
  iterate v = Ok items -> In x items -> (depth x <= depth v)%nat.
Proof.
  destruct v; cbn [iterate]; try discriminate; intros [= <-] H.
  - rewrite (chars_depth _ _ H). lia.
  - apply Nat.lt_le_incl, depth_element, H.
Qed.

Lemma entries_depth (v : json) (props : obj) (k : string) (x : json) :
  entries v = Ok props -> In (k, x) props -> (depth x <= depth v)%nat.
Proof.
  destruct v; cbn [entries]; try discriminate; intros [= <-] H.
  - destruct H.
  - destruct H.
  - apply indexed_value in H as [H _]. rewrite (chars_depth _ _ H). lia.
  - apply indexed_value in H as [H _].
    apply Nat.lt_le_incl, depth_element, H.
  - apply Nat.lt_le_incl. eapply depth_field, H.
Qed.

(** An array-index key is none of the names with a conversion rule that
    recurses. *)
Lemma index_key_not_structural (j : nat) :
  includes schemaFieldNames (index_key j) = false /\
  includes listSchemaFieldNames (index_key j) = false /\
  includes dictSchemaFieldNames (index_key j) = false.
Proof.
  unfold index_key, NilZero.string_of_uint.
  destruct (Nat.to_uint j); repeat split; reflexivity.
Qed.

Lemma convertPresentField_ext (f g : json -> result json) (gen : obj)
  (k : string) (v : json) :
  (forall x, (depth x <= depth v)%nat -> f x = g x) ->
  convertPresentField f gen k v = convertPresentField g gen k v.
Proof.
  intros H. unfold convertPresentField.
  destruct (String.eqb k "type"); [reflexivity|].
  destruct (includes schemaFieldNames k).
  { now rewrite (H v (Nat.le_refl _)). }
  destruct (includes listSchemaFieldNames k).
  { destruct (iterate v) as [items|] eqn:E; cbn [bind]; [|reflexivity].
    rewrite (foldM_ext (convertAlternative f) (convertAlternative g));
      [reflexivity|].
    intros x Hx s. unfold convertAlternative.
    rewrite (H x (iterate_depth v items x E Hx)). reflexivity. }
  destruct (includes dictSchemaFieldNames k); [|reflexivity].
  destruct (entries v) as [props|] eqn:E; cbn [bind]; [|reflexivity].
  rewrite (foldM_ext (convertProperty f) (convertProperty g));
    [reflexivity|].
  intros [k' x] Hx s. unfold convertProperty. cbn [fst snd].
  rewrite (H x (entries_depth v props k' x E Hx)). reflexivity.
Qed.

Lemma convertField_ext (f g : json -> result json) (gen : obj)
  (k : string) (v : json) :
  (forall x, (depth x <= depth v)%nat -> f x = g x) ->
  convertField f gen (k, v) = convertField g gen (k, v).
Proof.
  intros H. rewrite !convertField_eq.
  destruct v; auto using convertPresentField_ext.
Qed.

Lemma convertField_index (f g : json -> result json) (gen : obj)
  (j : nat) (v : json) :
  convertField f gen (index_key j, v) = convertField g gen (index_key j, v).
Proof.
  rewrite !convertField_eq. unfold convertPresentField.
  destruct (index_key_not_structural j) as [-> [-> ->]].
  reflexivity.
Qed.

Lemma convertFragment_ext (f g : json -> result json) (gen : obj)
  (t : json) :
  (forall x, (depth x < depth t)%nat -> f x = g x) ->
  convertFragment f gen t = convertFragment g gen t.
Proof.
  intros H. unfold convertFragment.
  destruct (prop "type" t) as [type1|]; cbn [bind]; [|reflexivity].
  match goal with
  | |- bind ?flat _ = _ => destruct flat as [gen1|]; cbn [bind];
                           [|reflexivity]
  end.
  destruct (entries t) as [fields|] eqn:E; cbn [bind]; [|reflexivity].
  rewrite (foldM_ext (convertField f) (convertField g)); [reflexivity|].
  intros [k v] Hkv s.
  destruct t; cbn [entries] in E; try discriminate E;
    injection E as <-.
  - destruct Hkv.
  - destruct Hkv.
  - apply indexed_value in Hkv as [_ [j ->]]. apply convertField_index.
  - apply indexed_value in Hkv as [Hv _].
    apply convertField_ext. intros x Hx. apply H.
    pose proof (depth_element _ _ Hv). lia.
  - apply convertField_ext. intros x Hx. apply H.
    pose proof (depth_field _ _ _ Hkv). lia.
Qed.

Lemma collapse_depth (j : json) (a : option json) :
  prop "anyOf" j = Ok a ->
  (depth (snd (collapseNullableAnyOf j a)) <= depth j)%nat.
Proof.
  intros Ha. unfold collapseNullableAnyOf.
  destruct a as [[| | | |[|a0 [|a1 [|a2 l]]]|]|]; cbn [snd]; try lia.
  destruct j; cbn [prop] in Ha; try discriminate Ha.
  injection Ha as Ha. apply get_In in Ha.
  pose proof (depth_field _ _ _ Ha) as H.
  pose proof (depth_element a0 [a0; a1] (or_introl eq_refl)).
  pose proof (depth_element a1 [a0; a1] (or_intror (or_introl eq_refl))).
  destruct (null_typed a0); [cbn [snd]; lia|].
  destruct (null_typed a1); cbn [snd]; lia.
Qed.

Lemma body_ext (f g : json -> result json) (j : json) :
  (forall x, (depth x < depth j)%nat -> f x = g x) ->
  processJsonSchema_body f j = processJsonSchema_body g j.
Proof.
  intros H. unfold processJsonSchema_body.
  destruct (prop "type" j) as [type0|]; cbn [bind]; [|reflexivity].
  destruct (prop "anyOf" j) as [a|] eqn:Ea; cbn [bind]; [|reflexivity].
  destruct (truthy type0 && truthy a); [reflexivity|].
  pose proof (collapse_depth j a Ea) as Hd.
  destruct (collapseNullableAnyOf j a) as [gen t]. cbn [snd] in Hd.
  apply convertFragment_ext. intros x Hx. apply H. lia.
Qed.

(** Unfoldings beyond the depth of the argument change nothing. *)
Lemma upto_stable (n m : nat) (j : json) :
  (depth j < n)%nat -> (depth j < m)%nat ->
  processJsonSchema_upto n j = processJsonSchema_upto m j.
Proof.
  revert m j. induction n as [|n IH]; intros m j Hn Hm; [lia|].
  destruct m as [|m]; [lia|]. cbn [processJsonSchema_upto].
  apply body_ext. intros x Hx. apply IH; lia.
Qed.

(** The recursion equation of the source function: [processJsonSchema] is
    its body applied to itself. *)
Lemma processJsonSchema_eq (_jsonSchema : json) :
  processJsonSchema _jsonSchema
  = processJsonSchema_body processJsonSchema _jsonSchema.
Proof.
  unfold processJsonSchema at 1. cbn [processJsonSchema_upto].
  apply body_ext. intros x Hx. unfold processJsonSchema.
  apply upto_stable; lia.
Qed.

(** *** Errors of nested fragments *)








(** *** The scenario of the specification *)

Example scenario_nullable_string :
  processJsonSchema nullable_string_schema
  = Ok (JObj [("nullable", JBool true); ("type", JStr "STRING")]).
Proof. reflexivity. Qed.

Example scenario_nested_schema :
  processJsonSchema
    (JObj [("type", JStr "object");
           ("additionalProperties", JBool false);
           ("properties",
            JObj [("city", JObj [("type", JStr "string")]);
                  ("days", JObj [("anyOf",
                                  JArr [JObj [("type", JStr "integer")];
                                        JObj [("type", JStr "null")]])])]);
           ("required", JArr [JStr "city"])])
  = Ok (JObj [("type", JStr "OBJECT");
              ("properties",
               JObj [("city", JObj [("type", JStr "STRING")]);
                     ("days", JObj [("nullable", JBool true);
                                    ("type", JStr "INTEGER")])]);
              ("required", JArr [JStr "city"])]).
Proof. reflexivity. Qed.

End GeminiFacts.

(* ================================================================== *)
(** ** Properties of the response transcoders, across upstreams        *)
(* ================================================================== *)

Module ResponseFacts.
Import JS.

(** *** Role *)

Lemma gemini_convertChunk_role (stringify : json -> string)
  (parsed : option GeminiResponse.response) (c : GeminiResponse.chunk) :
  GeminiResponse.convertChunk stringify parsed = Ok c ->
  GeminiResponse.role (GeminiResponse.chunk_delta c) = Some "assistant".
Proof.
  unfold GeminiResponse.convertChunk.
  repeat match goal with
         | |- bind ?x _ = _ -> _ =>
             destruct x; cbn [bind]; [|discriminate]
         end.
  match goal with
  | |- context [GeminiResponse.candidate_groundingMetadata ?a] =>
      destruct (GeminiResponse.candidate_groundingMetadata a)
        as [[[[|g gs]|] supports]|]
  end;
    try (intros [= <-]; reflexivity).
  match goal with
  | |- bind ?x _ = _ -> _ => destruct x; cbn [bind]; [|discriminate]
  end.
  intros [= <-]. reflexivity.
Qed.

Lemma gemini_processLine_role (stringify : json -> string)
  (parse : string -> option (option GeminiResponse.response))
  (line : string) (c : GeminiResponse.chunk) :
  In c (GeminiResponse.processLine stringify parse line) ->
  GeminiResponse.role (GeminiResponse.chunk_delta c) = Some "assistant".
Proof.
  unfold GeminiResponse.processLine.
  destruct (startsWith "data: " line); [|intros []].
  destruct (negb _); [|intros []].
  destruct (parse _) as [parsed|]; [|intros []].
  destruct (GeminiResponse.convertChunk stringify parsed) eqn:E;
    [|intros []].
  intros [<-|[]]. eapply gemini_convertChunk_role, E.
Qed.

Lemma gemini_pump_role (stringify : json -> string)
  (parse : string -> option (option GeminiResponse.response))
  (reads : list string) (stop : GeminiResponse.ending) (buffer : string)
  (c : GeminiResponse.chunk) :
  In (GeminiResponse.Data c)
     (GeminiResponse.pump stringify parse reads stop buffer) ->
  GeminiResponse.role (GeminiResponse.chunk_delta c) = Some "assistant".
Proof.
  revert buffer. induction reads as [|value reads IH]; intros buffer;
    cbn [GeminiResponse.pump].
  - destruct stop.
    + rewrite in_app_iff. intros [H|[H|[]]]; [|discriminate H].
      destruct (negb _); [|destruct H].
      apply in_map_iff in H as [c' [[= ->] H]].
      eapply gemini_processLine_role, H.
    + intros [H|[H|[]]]; discriminate H.
  - rewrite in_app_iff. intros [H|H]; [|eapply IH, H].
    apply in_map_iff in H as [c' [[= ->] H]].
    apply in_flat_map in H as [line [_ H]].
    eapply gemini_processLine_role, H.
Qed.

(** Against C4 as worded: on the Cloud-Code reader two lines give two
    chunks, and the second one carries the role too. *)
Lemma gemini_role_on_later_chunk :
  ~ (forall (stringify : json -> string)
            (parse : string -> option (option GeminiResponse.response))
            (reads : list string) (stop : GeminiResponse.ending)
            (c : GeminiResponse.chunk) (rest : list GeminiResponse.chunk),
        GeminiResponseSpec.data_chunks
          (GeminiResponse.transformResponseOut_stream stringify parse reads
                                                      stop)
        = c :: rest ->
        Forall (fun c' => GeminiResponse.role (GeminiResponse.chunk_delta c')
                          = None) rest).
Proof.
  intros H.
  specialize (H GeminiResponseSpec.sample_stringify
                GeminiResponseSpec.sample_parse
                [(GeminiResponseSpec.sample_line
                    ++ GeminiResponseSpec.line_feed
                    ++ GeminiResponseSpec.sample_line
                    ++ GeminiResponseSpec.line_feed)%string]
                GeminiResponse.CleanEnd _ _ eq_refl).
  inversion H as [|c' rest' Hrole _]. discriminate Hrole.
Qed.

(** C4 (amended).  On an Anthropic-style stream that begins with its
    [message_start] event and has no other, the role is on the first
    emitted chunk and on no later one.  The Cloud-Code stream transcoder
    puts the role "assistant" on every chunk it emits. *)
Theorem role_placement (now : Z) (start : Anthropic.event)
  (events : list (Z * Anthropic.event)) (vars : Anthropic.StreamState) :
  Anthropic.event_type start = Some "message_start" ->
  Forall (fun te => Anthropic.event_type (snd te) <> Some "message_start")
         events ->
  (exists c rest,
      fst (Anthropic.handleEvents ((now, start) :: events) vars) = c :: rest
      /\ Anthropic.role (Anthropic.chunk_delta c) = Some "assistant"
      /\ Forall (fun c' => Anthropic.role (Anthropic.chunk_delta c') = None)
                rest) /\
  (forall stringify parse reads stop c,
      In (GeminiResponse.Data c)
         (GeminiResponse.transformResponseOut_stream stringify parse reads
                                                     stop) ->
      GeminiResponse.role (GeminiResponse.chunk_delta c) = Some "assistant").
Proof.
  intros Hs Hev. split.
  - cbn [Anthropic.handleEvents].
    destruct (AnthropicFacts.role_on_message_start now start vars Hs)
      as [c [Hc Hr]].
    destruct (Anthropic.handleEvent now start vars) as [out vars'].
    cbn [fst] in Hc. subst out.
    pose proof (AnthropicFacts.roles_after_message_start events vars' Hev)
      as Hrest.
    destruct (Anthropic.handleEvents events vars') as [outs vars''].
    cbn [fst app] in *. eauto.
  - intros stringify parse reads stop c.
    apply gemini_pump_role.
Qed.

Lemma role_placement_witness :
  exists c rest,
    fst (Anthropic.handleEvents
           [(1%Z, AnthropicSpec.ev_message_start "msg_1" "m1");
            (2%Z, AnthropicSpec.ev_text "Hi");
            (3%Z, AnthropicSpec.ev_message_delta "end_turn" 2%Z)]
           Anthropic.initial) = c :: rest
    /\ Anthropic.role (Anthropic.chunk_delta c) = Some "assistant"
    /\ Forall (fun c' => Anthropic.role (Anthropic.chunk_delta c') = None)
              rest.
Proof.
  refine (proj1 (role_placement 1%Z
                   (AnthropicSpec.ev_message_start "msg_1" "m1")
                   [(2%Z, AnthropicSpec.ev_text "Hi");
                    (3%Z, AnthropicSpec.ev_message_delta "end_turn" 2%Z)]
                   Anthropic.initial eq_refl _)).
  repeat constructor; discriminate.
Defined.

(** *** The final partial line *)

(** At a clean end the Cloud-Code reader hands a carried partial line to
    [processLine] before it closes the stream. *)
Lemma gemini_reader_flushes (stringify : json -> string)
  (parse : string -> option (option GeminiResponse.response))
  (tail : string) :
  AnthropicSpec.no_newline tail = true ->
  tail <> ""%string ->
  GeminiResponse.transformResponseOut_stream stringify parse [tail]
                                             GeminiResponse.CleanEnd
  = map GeminiResponse.Data (GeminiResponse.processLine stringify parse tail)
    ++ [GeminiResponse.Close].
Proof.
  intros Hn Hne. unfold GeminiResponse.transformResponseOut_stream.
  cbn [GeminiResponse.pump String.append].
  rewrite (AnthropicFacts.split_lines_no_newline tail Hn).
  cbn [last removelast flat_map map app].
  destruct (String.eqb_spec tail ""); [contradiction|]. reflexivity.
Qed.

(** C5.  The final partial line at a clean end of the upstream body.  The
    Anthropic-style reader ([_transformStreamResponse] of the Claude and
    Kimi transformers) receives the one read [sample_line], a complete
    [data:] line for the text fragment "Hi" that lacks its line feed, and
    emits only the [DONE] sentinel before closing: the carried line is never
    processed.  Had the line feed been there, the chunk for "Hi" would have
    been emitted.  The Cloud-Code reader does process such a carried line
    before closing. *)
Theorem final_partial_line_at_clean_end :
  (forall parse now,
      Anthropic._transformStreamResponse parse
        [(now, AnthropicSpec.sample_line)] Anthropic.CleanEnd
      = [Anthropic.DoneSentinel; Anthropic.Close]) /\
  (forall now,
      Anthropic._transformStreamResponse AnthropicSpec.sample_parse
        [(now, (AnthropicSpec.sample_line
                  ++ GeminiResponseSpec.line_feed)%string)]
        Anthropic.CleanEnd
      = [Anthropic.Data
           (Anthropic.mk now Anthropic.initial
              (Anthropic.mkChunkDelta None (Some "Hi"%string) None None)
              None None);
         Anthropic.DoneSentinel; Anthropic.Close]) /\
  (forall stringify,
      GeminiResponse.transformResponseOut_stream stringify
        GeminiResponseSpec.sample_parse [GeminiResponseSpec.sample_line]
        GeminiResponse.CleanEnd
      = map GeminiResponse.Data
            (GeminiResponse.processLine stringify
               GeminiResponseSpec.sample_parse
               GeminiResponseSpec.sample_line)
        ++ [GeminiResponse.Close] /\
      List.length (GeminiResponse.processLine stringify
                     GeminiResponseSpec.sample_parse
                     GeminiResponseSpec.sample_line) = 1%nat).
Proof.
  split; [|split].
  - intros parse now. reflexivity.
  - intros now. reflexivity.
  - intros stringify. split.
    + apply gemini_reader_flushes; [reflexivity | discriminate].
    + reflexivity.
Qed.

(** *** The content of a non-stream message *)

(** Against C9 as worded: the Anthropic-style transcoders concatenate two
    text blocks without a line feed between them. *)
Lemma anthropic_content_without_separator :
  ~ (forall (stringify : json -> string) (now : Z)
            (data : Anthropic.document),
        Anthropic.msg_content
          (Anthropic.completion_message
             (Anthropic._transformJsonResponse stringify now data))
        = join GeminiResponseSpec.line_feed
               (AnthropicSpec.text_blocks
                  (nullish (Anthropic.doc_content data) []))).
Proof.
  intros H.
  specialize (H GeminiResponseSpec.sample_stringify 0%Z
                (Anthropic.mkDocument None None None None
                   (Some [Anthropic.mkContentBlock (Some "text"%string) None
                            None (Some "a"%string) None None;
                          Anthropic.mkContentBlock (Some "text"%string) None
                            None (Some "b"%string) None None]))).
  discriminate H.
Qed.

(** C9 (amended).  The content of the canonical message of a non-stream
    response: the Anthropic-style transcoders concatenate the texts of the
    text-type blocks of the document, in document order, with nothing
    between them; the Cloud-Code transcoder joins the non-empty texts of
    the parts of the first candidate, in document order, with line
    feeds. *)
Theorem message_content_of_document (stringify : json -> string)
  (r : GeminiResponse.response) (c : GeminiResponse.completion) :
  GeminiResponse.transformResponseOut_json stringify (Some r) = Ok c ->
  (exists ps,
      GeminiResponse.parts_of r = Ok (Some ps) /\
      GeminiResponse.message_content (GeminiResponse.completion_message c)
      = join GeminiResponseSpec.line_feed
             (map GeminiResponse.text
                  (filter GeminiResponse.text_truthy ps))) /\
  (forall now data,
      Anthropic.msg_content
        (Anthropic.completion_message
           (Anthropic._transformJsonResponse stringify now data))
      = join "" (AnthropicSpec.text_blocks
                   (nullish (Anthropic.doc_content data) []))).
Proof.
  intros H. split.
  - unfold GeminiResponse.transformResponseOut_json in H.
    cbn [GeminiResponse.defined bind] in H.
    destruct (GeminiResponse.parts_of r) as [[ps|]|]; cbn [bind] in H;
      try discriminate H.
    + exists ps. split; [reflexivity|].
      destruct (GeminiResponse.first_candidate r); cbn [bind] in H;
        [|discriminate H].
      cbn [GeminiResponse.defined option_map bind] in H.
      destruct (GeminiResponse.response_usageMetadata r);
        cbn [GeminiResponse.defined bind] in H; [|discriminate H].
      injection H as <-. reflexivity.
    + destruct (GeminiResponse.first_candidate r); cbn [bind] in H;
        discriminate H.
  - intros now data. apply AnthropicFacts.json_content_concatenates.
Qed.

Lemma message_content_of_document_witness :
  exists ps,
    GeminiResponse.parts_of
      (GeminiResponseSpec.sample_response
         [GeminiResponseSpec.text_part "a"; GeminiResponseSpec.text_part "";
          GeminiResponseSpec.text_part "b"]) = Ok (Some ps) /\
    join GeminiResponseSpec.line_feed
         (map GeminiResponse.text (filter GeminiResponse.text_truthy ps))
    = ("a" ++ GeminiResponseSpec.line_feed ++ "b")%string.
Proof.
  destruct (proj1 (message_content_of_document
                     GeminiResponseSpec.sample_stringify
                     (GeminiResponseSpec.sample_response
                        [GeminiResponseSpec.text_part "a";
                         GeminiResponseSpec.text_part "";
                         GeminiResponseSpec.text_part "b"])
                     _ eq_refl)) as [ps [Hps _]].
  exists ps. split; [exact Hps|].
  injection Hps as <-. reflexivity.
Defined.

End ResponseFacts.

(* ================================================================== *)
(** ** Further properties of the stream readers                        *)
(* ================================================================== *)

Module StreamFacts.
Import JS.

(** *** Framing *)

Lemma removelast_app_nonempty {A} (x y : list A) :
  y <> [] -> removelast (x ++ y) = x ++ removelast y.
Proof. intros H. now apply removelast_app. Qed.

Lemma last_app_nonempty {A} (x y : list A) (d : A) :
  y <> [] -> last (x ++ y) d = last y d.
Proof.
  intros H. induction x as [|a x IH]; [reflexivity|].
  cbn [app last]. destruct (x ++ y) eqn:E; [|exact IH].
  destruct x; cbn in E; [contradiction | discriminate].
Qed.

(** Splitting a text that arrives in two pieces: the complete lines of the
    first piece, then the split of what the first piece left over followed
    by the second piece. *)
Lemma split_lines_app (a b : string) :
  split_lines (a ++ b)
  = removelast (split_lines a)
    ++ split_lines (last (split_lines a) "" ++ b).
Proof.
  induction a as [|c a IH]; [reflexivity|].
  cbn [String.append split_lines].
  pose proof (AnthropicFacts.split_lines_nonempty a) as Hne.
  destruct (Ascii.eqb c newline) eqn:Ec.
  - rewrite IH.
    destruct (split_lines a) as [|seg segs]; [congruence|]. reflexivity.
  - rewrite IH.
    destruct (split_lines a) as [|seg [|seg' segs]]; [congruence| |].
    + cbn [removelast last app String.append split_lines]. now rewrite Ec.
    + pose proof (AnthropicFacts.split_lines_nonempty
                    (last (seg :: seg' :: segs) "" ++ b)) as Hne'.
      cbn [removelast app]. reflexivity.
Qed.

Lemma concat_cons (s : string) (l : list string) :
  String.concat "" (s :: l) = (s ++ String.concat "" l)%string.
Proof. apply AnthropicFacts.concat_cons_empty. Qed.

(** *** The Cloud-Code reader and the cuts between reads *)

Section GeminiReader.

Variable stringify : json -> string.
Variable parse : string -> option (option GeminiResponse.response).

Lemma gemini_pump_single (value : string) (stop : GeminiResponse.ending)
  (buffer : string) :
  GeminiResponse.pump stringify parse [value] stop buffer
  = map GeminiResponse.Data
        (flat_map (GeminiResponse.processLine stringify parse)
                  (removelast (split_lines (buffer ++ value))))
    ++ GeminiResponse.pump stringify parse [] stop
         (last (split_lines (buffer ++ value)) "").
Proof. reflexivity. Qed.

Lemma gemini_pump_joined (reads : list string)
  (stop : GeminiResponse.ending) (buffer : string) :
  AnthropicSpec.no_newline buffer = true ->
  GeminiResponse.pump stringify parse reads stop buffer
  = GeminiResponse.pump stringify parse [String.concat "" reads] stop
                        buffer.
Proof.
  revert buffer. induction reads as [|value reads IH]; intros buffer Hb.
  - rewrite gemini_pump_single. cbn [String.concat].
    rewrite AnthropicFacts.string_app_nil_r.
    rewrite (AnthropicFacts.split_lines_no_newline buffer Hb).
    reflexivity.
  - rewrite concat_cons, gemini_pump_single.
    cbn [GeminiResponse.pump]. rewrite IH
      by apply AnthropicFacts.carried_no_newline.
    rewrite gemini_pump_single.
    rewrite <- AnthropicFacts.string_app_assoc.
    rewrite (split_lines_app (buffer ++ value)).
    pose proof (AnthropicFacts.split_lines_nonempty
                  (last (split_lines (buffer ++ value)) ""
                     ++ String.concat "" reads)) as Hne.
    rewrite removelast_app_nonempty, last_app_nonempty by assumption.
    rewrite flat_map_app, map_app, <- app_assoc. reflexivity.
Qed.

(** X1.  The Cloud-Code reader is insensitive to how the upstream body is
    cut into reads: whatever the reads, and whether the body ends cleanly
    or with a read failure, it hands out what it would hand out had the
    whole text arrived in one read. *)
Theorem gemini_reader_ignores_read_boundaries (reads : list string)
  (stop : GeminiResponse.ending) :
  GeminiResponse.transformResponseOut_stream stringify parse reads stop
  = GeminiResponse.transformResponseOut_stream stringify parse
      [String.concat "" reads] stop.
Proof.
  unfold GeminiResponse.transformResponseOut_stream.
  now apply gemini_pump_joined.
Qed.

End GeminiReader.

(** *** The Anthropic-style reader *)

Section AnthropicReader.
Import Anthropic StreamSpec.

Variable parse : string -> option event.

Lemma handleLines_app (now : Z) (l1 l2 : list string) (vars : StreamState) :
  handleLines parse now (l1 ++ l2) vars
  = (fst (handleLines parse now l1 vars)
       ++ fst (handleLines parse now l2
                 (snd (handleLines parse now l1 vars))),
     snd (handleLines parse now l2 (snd (handleLines parse now l1 vars)))).
Proof.
  revert vars. induction l1 as [|line l1 IH]; intros vars.
  - cbn. now destruct (handleLines parse now l2 vars).
  - cbn [app handleLines].
    destruct (handleLine parse now line vars) as [out vars1].
    rewrite IH.
    destruct (handleLines parse now l1 vars1) as [o1 v1]. cbn [fst snd].
    destruct (handleLines parse now l2 v1) as [o2 v2]. cbn [fst snd].
    now rewrite app_assoc.
Qed.

Lemma pump_single (now : Z) (value : string) (stop : ending)
  (buffer : string) (vars : StreamState) :
  pump parse [(now, value)] stop buffer vars
  = map Data (fst (handleLines parse now
                     (removelast (split_lines (buffer ++ value))) vars))
    ++ pump parse [] stop (last (split_lines (buffer ++ value)) "")
         (snd (handleLines parse now
                 (removelast (split_lines (buffer ++ value))) vars)).
Proof.
  cbn [pump].
  now destruct (handleLines parse now
                  (removelast (split_lines (buffer ++ value))) vars).
Qed.

Lemma pump_joined (now : Z) (values : list string) (stop : ending)
  (buffer : string) (vars : StreamState) :
  AnthropicSpec.no_newline buffer = true ->
  pump parse (at_clock now values) stop buffer vars
  = pump parse [(now, String.concat "" values)] stop buffer vars.
Proof.
  revert buffer vars.
  induction values as [|value values IH]; intros buffer vars Hb.
  - rewrite pump_single. cbn [String.concat at_clock map].
    rewrite AnthropicFacts.string_app_nil_r.
    rewrite (AnthropicFacts.split_lines_no_newline buffer Hb).
    reflexivity.
  - rewrite concat_cons, pump_single.
    cbn [at_clock map pump].
    destruct (handleLines parse now
                (removelast (split_lines (buffer ++ value))) vars)
      as [o1 v1] eqn:E1.
    fold (at_clock now values).
    rewrite IH by apply AnthropicFacts.carried_no_newline.
    rewrite pump_single.
    rewrite <- AnthropicFacts.string_app_assoc.
    rewrite (split_lines_app (buffer ++ value)).
    pose proof (AnthropicFacts.split_lines_nonempty
                  (last (split_lines (buffer ++ value)) ""
                     ++ String.concat "" values)) as Hne.
    rewrite removelast_app_nonempty by assumption.
    rewrite handleLines_app, E1. cbn [fst snd pump].
    rewrite map_app, <- app_assoc. reflexivity.
Qed.

(** X2.  The Anthropic-style reader is insensitive to how the upstream body
    is cut into reads that happen at one clock reading: it hands out what
    it would hand out had the whole text arrived in one read. *)
Theorem anthropic_reader_ignores_read_boundaries (now : Z)
  (values : list string) (stop : ending) :
  _transformStreamResponse parse (at_clock now values) stop
  = _transformStreamResponse parse [(now, String.concat "" values)] stop.
Proof.
  unfold _transformStreamResponse. now apply pump_joined.
Qed.

Lemma pump_shape (reads : list (Z * string)) (buffer : string)
  (vars : StreamState) :
  exists cs,
    forall stop,
      pump parse reads stop buffer vars
      = map Data cs ++ pump parse [] stop "" initial.
Proof.
  revert buffer vars. induction reads as [|[now value] reads IH];
    intros buffer vars.
  - exists []. intros stop. reflexivity.
  - cbn [pump].
    destruct (handleLines parse now
                (removelast (split_lines (buffer ++ value))) vars)
      as [out vars'].
    destruct (IH (last (split_lines (buffer ++ value)) "") vars')
      as [cs Hcs].
    exists (out ++ cs). intros stop.
    now rewrite Hcs, map_app, app_assoc.
Qed.

(** X3.  What the consumer of an Anthropic-style stream sees: canonical
    chunks, then, at a clean end of the body, the [DONE] sentinel and the
    close; at a read failure the same chunks, then the error signal and the
    close, and no sentinel. *)
Theorem anthropic_reader_output_shape (reads : list (Z * string)) :
  exists cs,
    _transformStreamResponse parse reads CleanEnd
      = map Data cs ++ [DoneSentinel; Close] /\
    _transformStreamResponse parse reads ReadFailure
      = map Data cs ++ [ErrorSignal; Close].
Proof.
  unfold _transformStreamResponse.
  destruct (pump_shape reads "" initial) as [cs H].
  exists cs. split; apply H.
Qed.

End AnthropicReader.

End StreamFacts.

(* ================================================================== *)
(** ** Further properties of the SSE event handler                     *)
(* ================================================================== *)

Module HandlerFacts.
Import JS Anthropic AnthropicSpec StreamSpec.

Lemma is_type_false (t : option string) (name : string) :
  is_type t name = false <-> t <> Some name.
Proof.
  rewrite <- AnthropicFacts.is_type_true.
  destruct (is_type t name); split; congruence.
Qed.


Lemma absorb_cleared (vars : StreamState) :
  absorb vars (set_currentBlockType None vars) = vars.
Proof.
  destruct vars as [m mo i ty b it ot h]; unfold absorb; cbn -[or_string].
  now rewrite !AnthropicFacts.or_string_same.
Qed.

(** X4.  Only [message_start], [content_block_start],
    [content_block_delta] and [message_delta] events can make the reader
    emit a chunk or change one of its variables.  Every other event,
    [content_block_stop] included, emits nothing and leaves all variables as
    they are: the handler sets the current block type of its state object to
    [null] on [content_block_stop], and the reader's [??] keeps the old
    value. *)
Theorem passive_events_change_nothing (now : Z) (ev : event)
  (vars : StreamState) :
  acting_type (event_type ev) = false ->
  handleEvent now ev vars = ([], vars).
Proof.
  unfold acting_type. intros H.
  repeat (apply orb_false_elim in H as [H ?]).
  unfold handleEvent, _processSSEEvent.
  repeat match goal with
         | E : is_type _ _ = false |- _ => rewrite E; clear E
         end.
  destruct (is_type (event_type ev) "content_block_stop"); cbn [drain].
  - now rewrite absorb_cleared.
  - reflexivity.
Qed.

Lemma passive_events_change_nothing_witness :
  handleEvent 9%Z (ev_plain "content_block_stop")
              (set_currentBlockType (Some "text"%string) initial)
  = ([], set_currentBlockType (Some "text"%string) initial).
Proof.
  apply passive_events_change_nothing. reflexivity.
Defined.

(** *** Message id and model *)

Lemma event_keeps_ids (now : Z) (ev : event) (vars : StreamState) :
  event_type ev <> Some "message_start" ->
  Forall (fun c => chunk_id c = messageId vars /\
                   chunk_model c = model vars)
         (fst (handleEvent now ev vars)) /\
  messageId (snd (handleEvent now ev vars)) = messageId vars /\
  model (snd (handleEvent now ev vars)) = model vars.
Proof.
  intros Hne. apply is_type_false in Hne.
  unfold handleEvent, _processSSEEvent. rewrite Hne.
  repeat match goal with
         | |- context [if ?b then _ else _] => destruct b eqn:?
         | |- context [match append_arguments ?a ?i ?s with _ => _ end] =>
             destruct (append_arguments a i s)
         end;
    cbn -[or_string]; rewrite ?AnthropicFacts.or_string_same;
    repeat split; repeat constructor.
Qed.

Lemma events_keep_ids (events : list (Z * event)) (vars : StreamState) :
  Forall (fun te => event_type (snd te) <> Some "message_start") events ->
  Forall (fun c => chunk_id c = messageId vars /\
                   chunk_model c = model vars)
         (fst (handleEvents events vars)).
Proof.
  intros H; revert vars.
  induction H as [|[now ev] events Hne _ IH]; intros vars.
  - constructor.
  - cbn [handleEvents].
    destruct (event_keeps_ids now ev vars Hne) as [H1 [H2 H3]].
    destruct (handleEvent now ev vars) as [out vars'].
    specialize (IH vars').
    destruct (handleEvents events vars') as [outs vars''].
    cbn [fst snd] in *. apply Forall_app. split; auto.
    now rewrite H2, H3 in IH.
Qed.

(** X5.  All chunks of a stream carry the id and the model announced by
    its [message_start] event (when both are non-empty), as long as no other
    [message_start] follows. *)
Theorem chunks_share_id_and_model (now : Z) (start : event) (msg : message)
  (i m : string) (events : list (Z * event)) (vars : StreamState) :
  event_type start = Some "message_start" ->
  event_message start = Some msg ->
  message_id msg = Some i -> i <> ""%string ->
  message_model msg = Some m -> m <> ""%string ->
  Forall (fun te => event_type (snd te) <> Some "message_start") events ->
  Forall (fun c => chunk_id c = i /\ chunk_model c = m)
         (fst (handleEvents ((now, start) :: events) vars)).
Proof.
  intros Ht Hmsg Hi Hine Hm Hmne Hev.
  assert (Ei' : forall d, or_string (Some i) d = i).
  { intros d. unfold or_string. destruct (String.eqb_spec i "");
      congruence. }
  assert (Em' : forall d, or_string (Some m) d = m).
  { intros d. unfold or_string. destruct (String.eqb_spec m "");
      congruence. }
  cbn [handleEvents].
  assert (E : exists c vars',
             handleEvent now start vars = ([c], vars') /\
             chunk_id c = i /\ chunk_model c = m /\
             messageId vars' = i /\ model vars' = m).
  { unfold handleEvent, _processSSEEvent. rewrite Ht, Hmsg.
    cbn -[or_string decimal]. rewrite Hi, Hm, !Ei', !Em'.
    eexists _, _. split; [reflexivity|]. cbn -[or_string].
    rewrite ?Ei', ?Em'. auto. }
  destruct E as [c [vars' [E [Hc1 [Hc2 [Hv1 Hv2]]]]]]. rewrite E.
  pose proof (events_keep_ids events vars' Hev) as H.
  destruct (handleEvents events vars') as [outs vars''].
  cbn [fst app] in *. constructor; auto.
  now rewrite Hv1, Hv2 in H.
Qed.

Lemma chunks_share_id_and_model_witness :
  Forall (fun c => chunk_id c = "msg_1"%string /\
                   chunk_model c = "m1"%string)
         (fst (handleEvents
                 [(1%Z, ev_message_start "msg_1" "m1");
                  (2%Z, ev_text "Hi");
                  (3%Z, ev_tool_use "t1" "f");
                  (4%Z, ev_message_delta "end_turn" 2%Z)]
                 initial)).
Proof.
  apply (chunks_share_id_and_model 1%Z (ev_message_start "msg_1" "m1")
           (mkMessage (Some "msg_1"%string) (Some "m1"%string)
                      (Some (mkUsage (Some 100%Z) None)))
           "msg_1" "m1");
    try reflexivity; try discriminate.
  repeat constructor; discriminate.
Defined.

(** *** Token counts *)





(** *** Text and thinking *)

Lemma handle_thinking_delta (now : Z) (ev : event) (f : string)
  (vars : StreamState) :
  thinking_delta_event ev f ->
  handleEvent now ev vars
  = ([mk now vars (mkChunkDelta None None (Some f) None) None None], vars).
Proof.
  intros [Ht [d [Hd [Hdt Hf]]]].
  unfold handleEvent, _processSSEEvent.
  rewrite Ht, Hd; cbn -[or_string absorb mk]. rewrite Hdt, Hf.
  cbn -[or_string absorb mk].
  rewrite AnthropicFacts.or_string_fragment, AnthropicFacts.absorb_same.
  reflexivity.
Qed.

(** X7.  Visible text and thinking are kept apart.  When the handler
    processes text-delta and thinking-delta events in any interleaving, it
    emits one chunk per event, in arrival order; the [delta.content] values
    concatenate to the text fragments and the [delta.reasoning_content]
    values to the thinking fragments, each in arrival order; and the
    reader's variables are left as they were. *)
Theorem text_and_thinking_are_separated (events : list (Z * event))
  (ks : list fragment_kind) (vars : StreamState) :
  Forall2 (fun te k => carries (snd te) k) events ks ->
  List.length (fst (handleEvents events vars)) = List.length ks /\
  emitted_text (fst (handleEvents events vars))
    = String.concat "" (texts_of ks) /\
  emitted_reasoning (fst (handleEvents events vars))
    = String.concat "" (thoughts_of ks) /\
  snd (handleEvents events vars) = vars.
Proof.
  intros H. induction H as [|[now ev] k events ks Hev _ IH].
  - cbn. auto.
  - cbn [handleEvents]. cbn [snd] in Hev.
    assert (E : exists c,
               handleEvent now ev vars = ([c], vars) /\
               content_of c
                 = String.concat "" (texts_of [k]) /\
               reasoning_of c
                 = String.concat "" (thoughts_of [k])).
    { destruct k as [f|f]; cbn [carries] in Hev.
      - rewrite (AnthropicFacts.handle_text_delta now ev f vars Hev).
        eexists. repeat split.
      - rewrite (handle_thinking_delta now ev f vars Hev).
        eexists. repeat split. }
    destruct E as [c [E [Hc Hr]]]. rewrite E.
    destruct (handleEvents events vars) as [outs vars'].
    cbn [fst snd app] in *. destruct IH as [IH1 [IH2 [IH3 IH4]]].
    unfold emitted_text, emitted_reasoning in *. cbn [map List.length].
    rewrite !AnthropicFacts.concat_cons_empty, IH1, IH2, IH3, Hc, Hr.
    repeat split; auto.
    + destruct k; cbn [texts_of flat_map app];
        rewrite ?AnthropicFacts.concat_cons_empty; cbn;
        rewrite ?AnthropicFacts.string_app_nil_r; reflexivity.
    + destruct k; cbn [thoughts_of flat_map app];
        rewrite ?AnthropicFacts.concat_cons_empty; cbn;
        rewrite ?AnthropicFacts.string_app_nil_r; reflexivity.
Qed.

Lemma text_and_thinking_are_separated_witness :
  emitted_text
    (fst (handleEvents [(1%Z, ev_thinking "hm");
                        (2%Z, ev_text "Hi");
                        (3%Z, ev_thinking "ok");
                        (4%Z, ev_text " there")] initial))
  = "Hi there"%string /\
  emitted_reasoning
    (fst (handleEvents [(1%Z, ev_thinking "hm");
                        (2%Z, ev_text "Hi");
                        (3%Z, ev_thinking "ok");
                        (4%Z, ev_text " there")] initial))
  = "hmok"%string.
Proof.
  pose proof (text_and_thinking_are_separated
                [(1%Z, ev_thinking "hm"); (2%Z, ev_text "Hi");
                 (3%Z, ev_thinking "ok"); (4%Z, ev_text " there")]
                [ThinkingFragment "hm"; TextFragment "Hi";
                 ThinkingFragment "ok"; TextFragment " there"] initial)
    as H.
  destruct H as [_ [H1 [H2 _]]].
  - repeat constructor;
      unfold carries, text_delta_event, thinking_delta_event; simpl;
      eauto 10.
  - split; [exact H1 | exact H2].
Defined.

End HandlerFacts.

(* ================================================================== *)
(** ** Further properties of the response documents                    *)
(* ================================================================== *)

Module DocumentFacts.
Import JS DocumentSpec.

Section AnthropicDocument.
Import Anthropic.

Variable stringify : json -> string.

Lemma gather_toolCalls (blocks : list content_block) (g : gathered) :
  toolCalls (fold_left (gather stringify) blocks g)
  = toolCalls g ++ map (call_of stringify) (filter is_tool_use blocks).
Proof.
  revert g. induction blocks as [|b blocks IH]; intros g.
  - cbn. now rewrite app_nil_r.
  - cbn [fold_left filter]. rewrite IH. unfold gather at 1, is_tool_use at 2.
    destruct (is_type (block_type b) "text") eqn:Et.
    + apply AnthropicFacts.is_type_true in Et. rewrite Et. reflexivity.
    + destruct (is_type (block_type b) "thinking") eqn:Eth.
      * apply AnthropicFacts.is_type_true in Eth. rewrite Eth. reflexivity.
      * destruct (is_type (block_type b) "tool_use"); cbn [toolCalls map].
        -- now rewrite <- app_assoc.
        -- reflexivity.
Qed.

(** X8.  The tool calls of a non-stream Anthropic-style response are the
    [tool_use] blocks of the document, in document order, each with its id,
    its name and its input serialised ([{}] when the block has none); the
    [tool_calls] field is absent when the document has no such block. *)
Theorem document_tool_calls (now : Z) (data : document) :
  msg_tool_calls (completion_message
                    (_transformJsonResponse stringify now data))
  = match filter is_tool_use (nullish (doc_content data) []) with
    | [] => None
    | b :: bs => Some (map (call_of stringify) (b :: bs))
    end.
Proof.
  unfold _transformJsonResponse. cbn [completion_message msg_tool_calls].
  rewrite gather_toolCalls. cbn [toolCalls app].
  destruct (filter is_tool_use (nullish (doc_content data) []));
    reflexivity.
Qed.



End AnthropicDocument.

Section GeminiDocument.
Import GeminiResponse.

Variable stringify : json -> string.

Lemma annotate_nothing (supports : option (list groundingSupport))
  (index : Z) : annotate_from supports index [] = Ok [].
Proof. reflexivity. Qed.

(** X10.  When a Cloud-Code stream line yields a chunk.  A chunk can only
    be built from a parsed document that has a [response] with a first
    candidate, a content with parts, and usage metadata: a line whose
    candidate has no parts, such as one that only brings a finish reason,
    is dropped.  When these are there and no grounding chunk has to be
    annotated, the chunk is built: its content joins the non-empty texts of
    the parts with line feeds, its tool calls are the parts that carry a
    function call, in order (absent when there are none), and its finish
    reason is the candidate's in lower case. *)
Theorem gemini_chunk_needs_complete_response (r : response)
  (c : candidate) (ps : list part) (u : usageMetadata) :
  complete r c ps u ->
  ungrounded c ->
  (exists ch,
      convertChunk stringify (Some r) = Ok ch /\
      delta_content (chunk_delta ch) = Some (joined_text ps) /\
      tool_calls (chunk_delta ch) = nonempty (tool_calls_of stringify ps) /\
      finish_reason ch = lowered_finish_reason c /\
      chunk_usage ch = usage_of u) /\
  (forall parsed ch,
      convertChunk stringify parsed = Ok ch ->
      exists r' c' ps' u', parsed = Some r' /\ complete r' c' ps' u').
Proof.
  intros [[cs Hc] [Hp Hu]] Hg. split.
  - unfold convertChunk, parts_of, first_candidate.
    cbn [defined bind]. rewrite Hc. cbn [defined bind nth_error].
    rewrite Hp. cbn [defined bind option_map]. rewrite Hu.
    cbn [defined bind]. unfold ungrounded in Hg.
    destruct (candidate_groundingMetadata c) as [[gc gs]|].
    + cbn [groundingChunks] in Hg. destruct Hg as [->| ->];
        eexists; repeat split.
    + eexists; repeat split.
  - intros parsed ch. unfold convertChunk, parts_of, first_candidate.
    destruct parsed as [r'|]; cbn [defined bind]; [|discriminate].
    destruct (candidates r') as [[|c' cs']|] eqn:Ec; cbn [defined bind nth_error];
      try discriminate.
    destruct (content c') as [[ps'|]|] eqn:Ep; cbn [defined bind option_map];
      try discriminate.
    destruct (response_usageMetadata r') as [u'|] eqn:Eu; cbn [defined bind];
      [|discriminate].
    intros _. exists r', c', ps', u'. unfold complete. eauto 10.
Qed.

End GeminiDocument.

Lemma gemini_chunk_needs_complete_response_witness :
  (exists ch,
      GeminiResponse.convertChunk GeminiResponseSpec.sample_stringify
        (Some (GeminiResponseSpec.sample_response
                 [GeminiResponseSpec.text_part "a"])) = Ok ch /\
      GeminiResponse.delta_content (GeminiResponse.chunk_delta ch)
      = Some "a"%string) /\
  GeminiResponse.convertChunk GeminiResponseSpec.sample_stringify
    (Some finish_only_response) = Err TypeError.
Proof.
  split.
  - destruct (proj1 (gemini_chunk_needs_complete_response
                       GeminiResponseSpec.sample_stringify
                       (GeminiResponseSpec.sample_response
                          [GeminiResponseSpec.text_part "a"])
                       (GeminiResponse.mkCandidate
                          (Some (Some [GeminiResponseSpec.text_part "a"]))
                          None None None)
                       [GeminiResponseSpec.text_part "a"]
                       (GeminiResponse.mkUsageMetadata
                          (Some 1%Z) (Some 2%Z) (Some 3%Z))
                       (conj (ex_intro _ [] eq_refl)
                             (conj eq_refl eq_refl))
                       I))
      as [ch [H1 [H2 _]]].
    exists ch. split; [exact H1 | exact H2].
  - reflexivity.
Defined.

End DocumentFacts.

(* ================================================================== *)
(** ** Further properties of the schema adapter                        *)
(* ================================================================== *)

Module SchemaFacts.
Import JS Gemini GeminiSpec SchemaSpec.

(** *** The shape of a result *)

Lemma converted_no_additionalProperties (o : obj) :
  converted (JObj o) -> get "additionalProperties" o = None.
Proof.
  intros H. inversion H as [o' Hnd Hf]; subst.
  destruct (get "additionalProperties" o) as [v|] eqn:E; [|reflexivity].
  apply GeminiFacts.get_In in E. rewrite Forall_forall in Hf.
  specialize (Hf _ E). inversion Hf; subst; discriminate.
Qed.

(** X11.  What every result of the adapter looks like: it is an object
    with distinct keys; its [type], when it has one, is one of the eight
    [Type] names; it has no [additionalProperties]; and the same holds for
    its [items], for the elements of its [anyOf] and for the values of its
    [properties] (the shape [converted]). *)
Theorem adapter_result_shape (s r : json) :
  processJsonSchema s = Ok r ->
  converted r /\
  exists o,
    r = JObj o /\
    NoDup (map fst o) /\
    get "additionalProperties" o = None /\
    (get "type" o = None \/
     exists t, get "type" o = Some (JStr t) /\ In t Type_values).
Proof.
  intros H. apply GeminiFacts.processJsonSchema_converted in H.
  split; [assumption|].
  inversion H as [o Hnd Hf]; subst. exists o.
  repeat split; auto.
  - now apply converted_no_additionalProperties.
  - now apply GeminiFacts.converted_type.
Qed.

Lemma adapter_result_shape_witness :
  exists o,
    processJsonSchema object_schema = Ok (JObj o) /\
    get "additionalProperties" o = None /\
    get "type" o = Some (JStr "OBJECT").
Proof.
  destruct (adapter_result_shape object_schema _ eq_refl)
    as [_ [o [Ho [_ [Ha _]]]]].
  exists o. injection Ho as <-. repeat split.
Defined.

(** *** No engine error on well-typed schemas *)

Lemma clean_bind {A B} (r : result A) (k : A -> result B) :
  clean r -> (forall a, r = Ok a -> clean (k a)) -> clean (bind r k).
Proof. destruct r; cbn; auto. Qed.

Lemma clean_foldM {A S} (f : S -> A -> result S) (l : list A) :
  (forall x, In x l -> forall s, clean (f s x)) ->
  forall s, clean (foldM f l s).
Proof.
  induction l as [|x l IH]; intros H s; cbn [foldM]; [exact I|].
  apply clean_bind; [apply H; now left|].
  intros s' _. apply IH. intros y Hy. apply H. now right.
Qed.

Lemma flatten_clean (typeList : list json) (gen : obj) :
  Forall (fun x => exists t, x = JStr t) typeList ->
  clean (flattenTypeArrayToAnyOf typeList gen).
Proof.
  intros H. unfold flattenTypeArrayToAnyOf.
  assert (Hf : Forall (fun x => exists t, x = JStr t)
                      (filter (fun t => negb (is_null_name t)) typeList)).
  { rewrite Forall_forall in *. intros x Hx.
    apply filter_In in Hx as [Hx _]. auto. }
  set (step := fun acc i =>
                 bind (toUpperCase i)
                      (fun u => Ok (acc ++ [JObj [("type",
                                                   JStr (typeName u))]]))).
  assert (Hany : forall l, Forall (fun x => exists t, x = JStr t) l ->
                           clean (bind (foldM step l [])
                                    (fun anyOf =>
                                       Ok (set "anyOf" (JArr anyOf)
                                             (if existsb is_null_name typeList
                                              then set "nullable" (JBool true)
                                                       gen
                                              else gen))))).
  { intros l Hl. apply clean_bind; [|intros; exact I].
    apply clean_foldM. intros x Hx s. rewrite Forall_forall in Hl.
    destruct (Hl x Hx) as [t ->]. exact I. }
  destruct (filter (fun t => negb (is_null_name t)) typeList)
    as [|t [|t' l]] eqn:E.
  - apply (Hany []). constructor.
  - inversion Hf as [|? ? [t0 ->] _]; subst. exact I.
  - apply (Hany (t :: t' :: l)). assumption.
Qed.

Lemma well_typed_field_in (o : obj) (k : string) (v : json) :
  well_typed (JObj o) -> In (k, v) o -> well_typed_field (k, v).
Proof.
  intros H Hin. inversion H as [o' Hf]; subst.
  rewrite Forall_forall in Hf. auto.
Qed.

Lemma well_typed_anyOf (o : obj) (l : list json) :
  well_typed (JObj o) -> get "anyOf" o = Some (JArr l) ->
  Forall well_typed l.
Proof.
  intros H E. apply GeminiFacts.get_In in E.
  pose proof (well_typed_field_in o _ _ H E) as Hf.
  inversion Hf; subst; auto; discriminate.
Qed.

Lemma field_clean (rec : json -> result json) (gen : obj) (k : string)
  (v : json) :
  well_typed_field (k, v) ->
  (forall x, well_typed x -> (depth x <= depth v)%nat -> clean (rec x)) ->
  clean (convertField rec gen (k, v)).
Proof.
  intros Hf Hrec. rewrite GeminiFacts.convertField_eq.
  inversion Hf as [k' | t | l Hl | v' Hv | l Hl | d Hd | k' v' H1 H2 H3 H4];
    subst.
  - exact I.
  - unfold convertPresentField. cbn.
    destruct (String.eqb t "null"); cbn; [now right | exact I].
  - exact I.
  - inversion Hv as [o Ho]; subst. unfold convertPresentField. cbn.
    apply clean_bind; [|intros; exact I]. apply Hrec; auto.
  - unfold convertPresentField. cbn.
    apply clean_bind; [|intros; exact I].
    apply clean_foldM. intros x Hx st. unfold convertAlternative.
    rewrite Forall_forall in Hl. pose proof (Hl x Hx) as Hwx.
    inversion Hwx as [o Ho]; subst. cbn [prop bind].
    destruct (loose_eq_null_literal (get "type" o)); [exact I|].
    apply clean_bind; [|intros; exact I].
    apply Hrec; auto.
    apply Nat.lt_le_incl, GeminiFacts.depth_element, Hx.
  - unfold convertPresentField. cbn.
    apply clean_bind; [|intros; exact I].
    apply clean_foldM. intros [k' x] Hx acc. unfold convertProperty.
    cbn [fst snd]. apply clean_bind; [|intros; exact I].
    rewrite Forall_forall in Hd. apply Hrec.
    + apply (Hd _ Hx).
    + apply Nat.lt_le_incl. eapply GeminiFacts.depth_field, Hx.
  - unfold convertPresentField. rewrite H1, H2, H3, H4.
    destruct v; try exact I;
      destruct (String.eqb k "additionalProperties"); exact I.
Qed.

Lemma fragment_clean (rec : json -> result json) (gen : obj) (t : json) :
  well_typed t ->
  (forall x, well_typed x -> (depth x < depth t)%nat -> clean (rec x)) ->
  clean (convertFragment rec gen t).
Proof.
  intros Ht Hrec. inversion Ht as [o Ho]; subst.
  unfold convertFragment. cbn [prop bind].
  apply clean_bind.
  - destruct (get "type" o) as [[| | | |l|]|] eqn:E; try exact I.
    apply flatten_clean. apply GeminiFacts.get_In in E.
    pose proof (well_typed_field_in o _ _ Ht E) as Hf.
    inversion Hf; subst; auto; discriminate.
  - intros gen1 _. cbn [entries bind].
    apply clean_bind; [|intros; exact I].
    apply clean_foldM. intros [k v] Hin g.
    apply field_clean.
    + apply (well_typed_field_in o k v Ht Hin).
    + intros x Hx Hd. apply Hrec; auto.
      pose proof (GeminiFacts.depth_field k v o Hin). lia.
Qed.

Lemma body_clean (rec : json -> result json) (s : json) :
  well_typed s ->
  (forall x, well_typed x -> (depth x < depth s)%nat -> clean (rec x)) ->
  clean (processJsonSchema_body rec s).
Proof.
  intros Hs Hrec. inversion Hs as [o Ho]; subst.
  unfold processJsonSchema_body. cbn [prop bind].
  destruct (truthy (get "type" o) && truthy (get "anyOf" o));
    [now left|].
  pose proof (GeminiFacts.collapse_depth (JObj o) (get "anyOf" o) eq_refl)
    as Hd.
  assert (Hw : well_typed (snd (collapseNullableAnyOf (JObj o)
                                   (get "anyOf" o)))).
  { unfold collapseNullableAnyOf.
    destruct (get "anyOf" o) as [[| | | |[|a0 [|a1 [|a2 l]]]|]|] eqn:E;
      try exact Hs.
    pose proof (well_typed_anyOf o _ Hs E) as Hl.
    inversion Hl as [|? ? H0 Hl']; subst.
    inversion Hl' as [|? ? H1 _]; subst.
    destruct (null_typed a0); [exact H1|].
    destruct (null_typed a1); [exact H0 | exact Hs]. }
  destruct (collapseNullableAnyOf (JObj o) (get "anyOf" o)) as [gen t].
  cbn [snd] in *. apply fragment_clean; auto.
  intros x Hx Hdx. apply Hrec; auto. lia.
Qed.

Lemma upto_clean (n : nat) (s : json) :
  well_typed s -> (depth s < n)%nat -> clean (processJsonSchema_upto n s).
Proof.
  revert s. induction n as [|n IH]; intros s Hs Hd; [lia|].
  cbn [processJsonSchema_upto]. apply body_clean; auto.
  intros x Hx Hdx. apply IH; auto. lia.
Qed.

(** X12.  On a well-typed schema the adapter never fails with an engine
    error: it returns a converted schema or throws one of its own two
    errors, the [type]/[anyOf] conflict or the only-null type. *)
Theorem adapter_fails_only_with_its_own_errors (s : json) :
  well_typed s ->
  (exists r, processJsonSchema s = Ok r) \/
  processJsonSchema s = Err (JsError conflict_message) \/
  processJsonSchema s = Err (JsError null_only_message).
Proof.
  intros Hs.
  pose proof (upto_clean (S (depth s)) s Hs (Nat.lt_succ_diag_r _)) as H.
  fold (processJsonSchema s) in H.
  destruct (processJsonSchema s) as [r|e]; [eauto|].
  right. destruct H as [-> | ->]; auto.
Qed.

Lemma adapter_fails_only_with_its_own_errors_witness :
  (exists r, processJsonSchema object_schema = Ok r) \/
  processJsonSchema object_schema = Err (JsError conflict_message) \/
  processJsonSchema object_schema = Err (JsError null_only_message).
Proof.
  apply adapter_fails_only_with_its_own_errors.
  repeat first [ apply well_typed_object
               | apply Forall_cons
               | apply Forall_nil
               | apply field_type_name
               | apply field_type_list
               | apply field_properties_schemas
               | (apply field_free; reflexivity)
               | (eexists; reflexivity) ].
Defined.

(** *** Two spellings of "or null" *)



(** *** Fields that are copied *)

Lemma get_set_same (k : string) (v : json) (o : obj) :
  get k (set k v o) = Some v.
Proof.
  induction o as [|[k' v'] o IH]; cbn.
  - now rewrite String.eqb_refl.
  - destruct (String.eqb k k') eqn:E; cbn; rewrite E; auto.
Qed.

Lemma get_set_other (k k' : string) (v : json) (o : obj) :
  k <> k' -> get k (set k' v o) = get k o.
Proof.
  intros Hne. induction o as [|[k0 v0] o IH]; cbn.
  - apply String.eqb_neq in Hne. now rewrite Hne.
  - destruct (String.eqb_spec k' k0) as [->|Hk]; cbn.
    + apply String.eqb_neq in Hne. now rewrite Hne.
    + destruct (String.eqb k k0); auto.
Qed.

Lemma flatten_keeps (typeList : list json) (gen gen' : obj) (k : string) :
  plain_name k = true -> k <> "nullable"%string ->
  flattenTypeArrayToAnyOf typeList gen = Ok gen' ->
  get k gen' = get k gen.
Proof.
  intros Hp Hn. unfold plain_name in Hp.
  repeat (apply andb_prop in Hp as [Hp ?]).
  assert (Hty : k <> "type"%string)
    by (intros ->; discriminate).
  assert (Hany : k <> "anyOf"%string)
    by (intros ->; discriminate).
  unfold flattenTypeArrayToAnyOf.
  set (gen1 := if existsb is_null_name typeList
               then set "nullable" (JBool true) gen else gen).
  assert (Hgen1 : get k gen1 = get k gen).
  { subst gen1. destruct (existsb is_null_name typeList); auto.
    now apply get_set_other. }
  rewrite <- Hgen1. clearbody gen1.
  destruct (filter (fun t => negb (is_null_name t)) typeList)
    as [|t [|t' l]];
    match goal with
    | |- bind ?x _ = _ -> _ => destruct x; cbn [bind]; [|discriminate]
    end;
    intros [= <-]; now apply get_set_other.
Qed.

Lemma present_field_keeps (rec : json -> result json) (gen gen' : obj)
  (k k' : string) (v' : json) :
  k <> k' -> k <> "nullable"%string ->
  convertPresentField rec gen k' v' = Ok gen' ->
  get k gen' = get k gen.
Proof.
  intros Hne Hn. unfold convertPresentField.
  destruct (String.eqb_spec k' "type") as [->|_].
  { destruct (strict_eq_str (Some v') "null"); [discriminate|].
    destruct v'; cbn [toUpperCase bind]; try discriminate;
      intros [= <-]; auto using get_set_other. }
  destruct (includes schemaFieldNames k').
  { destruct (rec v'); cbn [bind]; [|discriminate].
    intros [= <-]. now apply get_set_other. }
  destruct (includes listSchemaFieldNames k').
  { destruct (iterate v') as [items|]; cbn [bind]; [|discriminate].
    destruct (foldM (convertAlternative rec) items (gen, []))
      as [st|] eqn:E; cbn [bind]; [|discriminate].
    intros [= <-]. rewrite get_set_other by assumption.
    apply (GeminiFacts.foldM_invariant
             (fun st => get k (fst st) = get k gen)
             (convertAlternative rec) items) with (s := (gen, []));
      [|reflexivity|exact E].
    intros s x s' _ Hs. unfold convertAlternative.
    destruct (prop "type" x); cbn [bind]; [|discriminate].
    destruct (loose_eq_null_literal _).
    - intros [= <-]. cbn [fst]. now rewrite get_set_other.
    - destruct (rec x); cbn [bind]; [|discriminate]. now intros [= <-]. }
  destruct (includes dictSchemaFieldNames k').
  { destruct (entries v'); cbn [bind]; [|discriminate].
    destruct (foldM (convertProperty rec) _ []); cbn [bind];
      [|discriminate].
    intros [= <-]. now apply get_set_other. }
  destruct (String.eqb k' "additionalProperties").
  { now intros [= <-]. }
  intros [= <-]. now apply get_set_other.
Qed.

Lemma field_keeps (rec : json -> result json) (gen gen' : obj)
  (k k' : string) (v' : json) :
  k <> k' -> k <> "nullable"%string ->
  convertField rec gen (k', v') = Ok gen' ->
  get k gen' = get k gen.
Proof.
  intros Hne Hn. rewrite GeminiFacts.convertField_eq.
  destruct v'; try (now apply present_field_keeps).
  now intros [= <-].
Qed.

Lemma plain_field_is_copied (rec : json -> result json) (gen : obj)
  (k : string) (v : json) :
  plain_name k = true -> v <> JNull ->
  convertField rec gen (k, v) = Ok (set k v gen).
Proof.
  intros Hp Hv. unfold plain_name in Hp.
  repeat (apply andb_prop in Hp as [Hp ?]).
  repeat match goal with
         | H : negb _ = true |- _ => apply negb_true_iff in H
         end.
  rewrite GeminiFacts.convertField_eq. unfold convertPresentField.
  destruct v; try congruence;
    repeat match goal with H : _ = false |- _ => rewrite H end;
    reflexivity.
Qed.

Lemma loop_keeps (rec : json -> result json) (fields : obj) (k : string) :
  k <> "nullable"%string -> ~ In k (map fst fields) ->
  forall gen g,
    foldM (convertField rec) fields gen = Ok g -> get k g = get k gen.
Proof.
  intros Hn. induction fields as [|[k1 v1] fields IH];
    intros Hnin gen g; cbn [foldM].
  - now intros [= <-].
  - destruct (convertField rec gen (k1, v1)) as [g1|] eqn:E;
      cbn [bind]; [|discriminate].
    intros H. transitivity (get k g1).
    + apply IH; [|exact H]. intros Hin. apply Hnin. now right.
    + apply (field_keeps rec gen g1 k k1 v1); auto.
      intros ->. apply Hnin. now left.
Qed.

Lemma loop_copies (rec : json -> result json) (fields : obj) (k : string)
  (v : json) :
  NoDup (map fst fields) -> In (k, v) fields ->
  plain_name k = true -> k <> "nullable"%string -> v <> JNull ->
  forall gen g,
    foldM (convertField rec) fields gen = Ok g -> get k g = Some v.
Proof.
  intros Hnd Hin Hp Hn Hv.
  induction fields as [|[k' v'] fields IH]; [destruct Hin|].
  intros gen g. cbn [foldM].
  inversion Hnd as [|? ? Hnin Hnd']; subst.
  destruct Hin as [[= -> ->]|Hin].
  - rewrite plain_field_is_copied by assumption. cbn [bind].
    intros H. rewrite (loop_keeps rec fields k Hn Hnin _ g H).
    apply get_set_same.
  - destruct (convertField rec gen (k', v')) as [g1|]; cbn [bind];
      [|discriminate].
    now apply IH.
Qed.

(** X14.  Fields without a conversion rule survive the conversion.  When
    the fragment is an object with distinct keys that is not replaced by a
    nullable alternative, every field under a plain name other than
    "nullable" (a description, an enumeration, the required names, ...) that
    holds a value is in the result with that same value. *)
Theorem plain_fields_are_preserved (o : obj) (r : json) (k : string)
  (v : json) :
  NoDup (map fst o) ->
  walked (JObj o) = Some (JObj o) ->
  get k o = Some v ->
  plain_name k = true -> k <> "nullable"%string -> v <> JNull ->
  processJsonSchema (JObj o) = Ok r ->
  exists o', r = JObj o' /\ get k o' = Some v.
Proof.
  intros Hnd Hw Hget Hp Hn Hv.
  unfold processJsonSchema. cbn [processJsonSchema_upto].
  unfold processJsonSchema_body. cbn [prop bind].
  destruct (truthy (get "type" o) && truthy (get "anyOf" o));
    [discriminate|].
  unfold walked in Hw. cbn [prop] in Hw. injection Hw as Hw.
  destruct (collapseNullableAnyOf (JObj o) (get "anyOf" o)) as [gen t].
  cbn [snd] in Hw. subst t.
  unfold convertFragment. cbn [prop bind entries].
  match goal with
  | |- bind ?flat _ = _ -> _ => destruct flat as [gen1|] eqn:Ef;
                                cbn [bind]; [|discriminate]
  end.
  destruct (foldM _ o gen1) as [g|] eqn:E; cbn [bind]; [|discriminate].
  intros [= <-]. exists g. split; [reflexivity|].
  apply (loop_copies _ o k v Hnd (GeminiFacts.get_In _ _ _ Hget) Hp Hn Hv
           gen1 g E).
Qed.

Lemma plain_fields_are_preserved_witness :
  exists o',
    processJsonSchema described_schema = Ok (JObj o') /\
    get "description" o' = Some (JStr "a city") /\
    get "enum" o' = Some (JArr [JStr "Seoul"; JStr "Busan"]).
Proof.
  destruct (processJsonSchema described_schema) as [r|] eqn:E;
    [|discriminate E].
  destruct (plain_fields_are_preserved
              [("description", JStr "a city");
               ("type", JArr [JStr "string"; JStr "null"]);
               ("enum", JArr [JStr "Seoul"; JStr "Busan"])]
              r "description" (JStr "a city"))
    as [o1 [H1 G1]];
    try reflexivity; try discriminate; try exact E.
  { repeat constructor; cbn; intuition discriminate. }
  destruct (plain_fields_are_preserved
              [("description", JStr "a city");
               ("type", JArr [JStr "string"; JStr "null"]);
               ("enum", JArr [JStr "Seoul"; JStr "Busan"])]
              r "enum" (JArr [JStr "Seoul"; JStr "Busan"]))
    as [o2 [H2 G2]];
    try reflexivity; try discriminate; try exact E.
  { repeat constructor; cbn; intuition discriminate. }
  exists o1. subst r. injection H2 as <-. auto.
Defined.

(** X15.  What stands next to a collapsed nullable [anyOf] is ignored.
    When a fragment without a populated [type] has a two-element [anyOf]
    with a "null" alternative, the result is computed from the other
    alternative alone: two such fragments with the same [anyOf] convert
    alike, whatever else (a description, say) they hold. *)
Theorem siblings_of_nullable_anyOf_are_ignored (o o' : obj)
  (a0 a1 : json) :
  get "anyOf" o = Some (JArr [a0; a1]) ->
  get "anyOf" o' = Some (JArr [a0; a1]) ->
  truthy (get "type" o) = false ->
  truthy (get "type" o') = false ->
  null_typed a0 = true \/ null_typed a1 = true ->
  processJsonSchema (JObj o) = processJsonSchema (JObj o').
Proof.
  intros Ha Ha' Ht Ht' Hnull.
  rewrite (GeminiFacts.processJsonSchema_eq (JObj o)),
          (GeminiFacts.processJsonSchema_eq (JObj o')).
  unfold processJsonSchema_body. cbn [prop bind].
  rewrite Ha, Ha', Ht, Ht'. cbn [andb collapseNullableAnyOf].
  destruct (null_typed a0); [reflexivity|].
  destruct Hnull as [Hnull|Hnull]; [discriminate|].
  now rewrite Hnull.
Qed.

Lemma siblings_of_nullable_anyOf_are_ignored_witness :
  processJsonSchema described_nullable = processJsonSchema bare_nullable /\
  processJsonSchema bare_nullable
  = Ok (JObj [("nullable", JBool true); ("type", JStr "STRING")]).
Proof.
  split; [|reflexivity].
  apply (siblings_of_nullable_anyOf_are_ignored
           [("description", JStr "a city");
            ("anyOf", JArr [JObj [("type", JStr "null")];
                            JObj [("type", JStr "string")]])]
           [("anyOf", JArr [JObj [("type", JStr "null")];
                            JObj [("type", JStr "string")]])]
           (JObj [("type", JStr "null")]) (JObj [("type", JStr "string")]));
    try reflexivity.
  left. reflexivity.
Defined.

End SchemaFacts.

(* ================================================================== *)
(** ** Facts about the request transcoders                             *)
(* ================================================================== *)

Module RequestFacts.
Import JS Canonical AnthropicRequest RequestSpec.

Lemma and_then_done {A B} (r : outcome A) (k : A -> outcome B) (b : B) :
  and_then r k = Done b -> exists a, r = Done a /\ k a = Done b.
Proof.
  destruct r as [a | f]; cbn; [eauto | discriminate].
Qed.

Section AnthropicMessages.

Variable JSON_parse : string -> option json.
Variable JSON_stringify : content -> option string.


(** One turn of the loop: a system message pushes nothing, any other
    message pushes one message with the converted role. *)
Lemma turn_pushes v p m p' pushed :
  convertMessage JSON_parse JSON_stringify v p m = Done (p', pushed) ->
  map out_role pushed =
  (if is_system m then [] else [convertRole (role m)]).
Proof.
  unfold convertMessage, is_system, convertRole.
  destruct (is_role (role m) "system") eqn:Es.
  - destruct (message_content m); intros H; injection H as _ <-; reflexivity.
  - destruct (is_role (role m) "tool") eqn:Et.
    { cbn. intros H; injection H as _ <-; reflexivity. }
    destruct (is_role (role m) "function") eqn:Ef.
    { cbn. intros H; injection H as _ <-; reflexivity. }
    cbn [orb].
    destruct (is_role (role m) "assistant") eqn:Ea.
    + destruct (tool_calls m) as [calls |].
      * intros H. apply and_then_done in H as (uses & _ & H).
        injection H as _ <-. cbn.
        destruct (role m) as [r |]; [| discriminate].
        cbn in Ea. apply String.eqb_eq in Ea. subst r. reflexivity.
      * intros H. apply and_then_done in H as (c & _ & H).
        injection H as _ <-. reflexivity.
    + intros H. apply and_then_done in H as (c & _ & H).
      injection H as _ <-. reflexivity.
Qed.

Lemma turn_prompt v p m p' pushed :
  convertMessage JSON_parse JSON_stringify v p m = Done (p', pushed) ->
  p' = fold_left extend_prompt (system_texts [m]) p.
Proof.
  unfold convertMessage, system_texts, is_system. cbn [flat_map].
  destruct (is_role (role m) "system") eqn:Es.
  - destruct (message_content m); intros H; injection H as <- _; reflexivity.
  - cbn [fold_left app].
    destruct (is_role (role m) "tool" || is_role (role m) "function").
    { intros H; injection H as <- _; reflexivity. }
    destruct (if is_role (role m) "assistant" then tool_calls m else None).
    + intros H. apply and_then_done in H as (uses & _ & H).
      injection H as <- _. reflexivity.
    + intros H. apply and_then_done in H as (c & _ & H).
      injection H as <- _. reflexivity.
Qed.

Lemma loop_roles v msgs : forall p acc p' out,
  convertLoop JSON_parse JSON_stringify v msgs p acc = Done (p', out) ->
  map out_role out =
  (map out_role acc ++ map (fun m => convertRole (role m)) (turns msgs))%list.
Proof.
  induction msgs as [| m rest IH]; intros p acc p' out H.
  - cbn in H. injection H as _ <-. cbn. now rewrite app_nil_r.
  - cbn [AnthropicRequest.convertLoop] in H.
    apply and_then_done in H as ([p1 pushed] & Hm & H).
    cbn [fst snd] in H. apply IH in H. rewrite H.
    rewrite map_app, (turn_pushes _ _ _ _ _ Hm), <- app_assoc.
    f_equal. unfold turns. cbn [filter].
    destruct (is_system m); reflexivity.
Qed.

Lemma loop_prompt v msgs : forall p acc p' out,
  convertLoop JSON_parse JSON_stringify v msgs p acc = Done (p', out) ->
  p' = fold_left extend_prompt (system_texts msgs) p.
Proof.
  induction msgs as [| m rest IH]; intros p acc p' out H.
  - cbn in H. injection H as <- _. reflexivity.
  - cbn [AnthropicRequest.convertLoop] in H.
    apply and_then_done in H as ([p1 pushed] & Hm & H).
    cbn [fst snd] in H. apply IH in H. subst p'.
    apply turn_prompt in Hm. subst p1.
    change (m :: rest) with ([m] ++ rest)%list.
    unfold system_texts. rewrite flat_map_app, fold_left_app. reflexivity.
Qed.

Lemma convertRole_not_special r :
  is_role (convertRole r) "system" = false /\
  is_role (convertRole r) "tool" = false /\
  is_role (convertRole r) "function" = false.
Proof.
  unfold convertRole.
  destruct (is_role r "system") eqn:E1; [cbn; auto |].
  destruct (is_role r "tool") eqn:E2; [cbn; auto |].
  destruct (is_role r "function") eqn:E3; [cbn; auto |].
  auto.
Qed.

(** X16.  [convertMessages] of either transcoder, when it returns, gives
    one message for every message that is not a system message, in the
    order of the request, with role [convertRole(msg.role)]; so no message
    it returns has the role system, tool or function. *)
Theorem converted_turns_follow_the_request v msgs prompt out :
  convertMessages JSON_parse JSON_stringify v msgs = Done (prompt, out) ->
  map out_role out = map (fun m => convertRole (role m)) (turns msgs) /\
  List.length out = List.length (turns msgs) /\
  Forall (fun o => is_role (out_role o) "system" = false /\
                   is_role (out_role o) "tool" = false /\
                   is_role (out_role o) "function" = false) out.
Proof.
  intros H. unfold AnthropicRequest.convertMessages in H.
  apply loop_roles in H. cbn [map app] in H.
  split; [exact H |]. split.
  - rewrite <- (length_map out_role), H, length_map. reflexivity.
  - rewrite Forall_forall. intros o Ho.
    apply (in_map out_role) in Ho. rewrite H in Ho.
    apply in_map_iff in Ho as (m & <- & _).
    apply convertRole_not_special.
Qed.

Lemma fold_prompt_nonempty texts : forall s,
  s <> EmptyString ->
  fold_left extend_prompt texts (Some s) =
  Some (String.concat blank_line (s :: texts)).
Proof.
  induction texts as [| t rest IH]; intros s Hs; [reflexivity |].
  cbn [fold_left]. unfold extend_prompt at 2.
  destruct (String.eqb s "") eqn:E.
  { apply String.eqb_eq in E. contradiction. }
  rewrite IH.
  - f_equal. fold blank_line.
    change (String.concat blank_line (s :: t :: rest))
      with (s ++ blank_line ++ String.concat blank_line (t :: rest))%string.
    destruct rest as [| t' rest'].
    + reflexivity.
    + change (String.concat blank_line ((s ++ blank_line ++ t)%string :: t' :: rest'))
        with ((s ++ blank_line ++ t) ++ blank_line ++
              String.concat blank_line (t' :: rest'))%string.
      change (String.concat blank_line (t :: t' :: rest'))
        with (t ++ blank_line ++ String.concat blank_line (t' :: rest'))%string.
      rewrite !AnthropicFacts.string_app_assoc. reflexivity.
  - destruct s; [contradiction | discriminate].
Qed.

Lemma fold_prompt_empty texts : forall p,
  prompt_truthy p = false ->
  texts <> [] ->
  fold_left extend_prompt texts p =
  Some (String.concat blank_line (drop_empty texts)).
Proof.
  induction texts as [| t rest IH]; intros p Hp Hne; [contradiction |].
  cbn [fold_left].
  assert (Hstep : extend_prompt p t = Some t).
  { destruct p as [s |]; cbn in *; [| reflexivity].
    destruct (String.eqb s ""); [reflexivity | discriminate]. }
  rewrite Hstep. cbn [drop_empty].
  destruct (String.eqb t "") eqn:Et.
  - apply String.eqb_eq in Et. subst t.
    destruct rest as [| t' rest'].
    + reflexivity.
    + apply IH; [reflexivity | discriminate].
  - apply fold_prompt_nonempty. intros ->. discriminate.
Qed.

(** X17.  The system prompt [convertMessages] returns is [null] when no
    system message has a string or array content; otherwise it is the texts
    of the system messages joined by blank lines, in order, without the
    empty texts that come before the first text that is not empty.  It
    does not depend on the other messages. *)
Theorem system_prompt_of_the_request v msgs prompt out :
  convertMessages JSON_parse JSON_stringify v msgs = Done (prompt, out) ->
  prompt = match system_texts msgs with
           | [] => None
           | texts => Some (String.concat blank_line (drop_empty texts))
           end.
Proof.
  intros H. unfold AnthropicRequest.convertMessages in H.
  apply loop_prompt in H. subst prompt.
  destruct (system_texts msgs) as [| t rest] eqn:E; [reflexivity |].
  apply fold_prompt_empty; [reflexivity | discriminate].
Qed.

Lemma each_done {A B} (f : A -> outcome B) (l : list A) :
  (forall x, In x l -> exists y, f x = Done y) ->
  exists ys, each f l = Done ys.
Proof.
  induction l as [| x rest IH]; intros H; [now exists [] |].
  destruct (H x (or_introl eq_refl)) as (y & Hy).
  destruct IH as (ys & Hys); [intros z Hz; apply H; now right |].
  exists (y :: ys). cbn. rewrite Hy. cbn. rewrite Hys. reflexivity.
Qed.

Lemma tool_use_done c :
  (forall s, argument_text c = Some s -> JSON_parse s <> None) ->
  exists u, tool_use JSON_parse c = Done u.
Proof.
  intros H. unfold tool_use, tool_input, argument_text in *.
  destruct (function c) as [f |]; [| cbn; eauto].
  destruct (arguments f) as [a |]; [| cbn; eauto].
  destruct a as [| b | n | s | l | o];
    try (destruct (truthy _); cbn; eauto; fail).
  unfold parse, or_string.
  destruct (JSON_parse (if String.eqb s "" then "{}" else s)) eqn:E.
  - cbn. eauto.
  - exfalso. apply (H _ eq_refl). exact E.
Qed.

Lemma block_done v b :
  (v = Claude -> addressed b = true) ->
  exists o, convertBlock v b = Done o.
Proof.
  intros H. unfold convertBlock, addressed in *.
  destruct (is_role (type b) "text"); [eauto |].
  destruct (is_role (type b) "image_url"); [| eauto].
  destruct (url_of b) as [| s | o].
  - destruct v; [specialize (H eq_refl); discriminate | eauto].
  - destruct (startsWith "data:" s); eauto.
  - destruct v; [specialize (H eq_refl); discriminate | eauto].
Qed.

Lemma turn_done v p m :
  arguments_parse JSON_parse m ->
  (v = Claude -> well_addressed m = true) ->
  exists r, convertMessage JSON_parse JSON_stringify v p m = Done r.
Proof.
  intros Hp Ha. unfold convertMessage.
  destruct (is_role (role m) "system").
  { destruct (message_content m); eauto. }
  destruct (is_role (role m) "tool" || is_role (role m) "function"); [eauto |].
  destruct (if is_role (role m) "assistant" then tool_calls m else None)
    as [calls |] eqn:Ec.
  - destruct (each_done (tool_use JSON_parse) calls) as (uses & Hu).
    { intros c Hc. apply tool_use_done. intros s Hs.
      destruct (is_role (role m) "assistant"); [| discriminate].
      exact (Hp calls c s Ec Hc Hs). }
    rewrite Hu. cbn. eauto.
  - unfold well_addressed in Ha.
    destruct (message_content m) as [s | blocks | o]; cbn; eauto.
    destruct (each_done (convertBlock v) blocks) as (bs & Hb).
    { intros b Hb. apply block_done. intros Hv.
      specialize (Ha Hv). rewrite forallb_forall in Ha. auto. }
    rewrite Hb. cbn. eauto.
Qed.

(** X18.  [convertMessages] throws only on what it cannot read: it returns
    whenever every argument text the tool calls hand to [JSON.parse]
    parses and, for the Claude transcoder, every image block has an address
    that is a string (the Kimi transcoder passes any other address on). *)
Theorem conversion_returns_on_readable_requests v msgs :
  Forall (arguments_parse JSON_parse) msgs ->
  (v = Claude -> forallb well_addressed msgs = true) ->
  exists r, convertMessages JSON_parse JSON_stringify v msgs = Done r.
Proof.
  unfold convertMessages. generalize (@None string) (@nil out_message).
  induction msgs as [| m rest IH]; intros p acc Hp Ha; [cbn; eauto |].
  cbn [convertLoop].
  destruct (turn_done v p m) as ([p1 pushed] & Hm).
  { now inversion Hp. }
  { intros Hv. specialize (Ha Hv). cbn in Ha.
    now apply andb_true_iff in Ha as [Ha _]. }
  rewrite Hm. cbn [and_then fst snd]. apply IH.
  - now inversion Hp.
  - intros Hv. specialize (Ha Hv). cbn in Ha.
    now apply andb_true_iff in Ha as [_ Ha].
Qed.

End AnthropicMessages.

Lemma converted_turns_follow_the_request_witness :
  exists prompt out,
    convertMessages sample_parse sample_stringify Claude sample_conversation
      = Done (prompt, out) /\
    (map out_role out
       = map (fun m => convertRole (role m)) (turns sample_conversation) /\
     List.length out = List.length (turns sample_conversation) /\
     Forall (fun o => is_role (out_role o) "system" = false /\
                      is_role (out_role o) "tool" = false /\
                      is_role (out_role o) "function" = false) out).
Proof.
  eexists; eexists. split; [reflexivity |].
  eapply (converted_turns_follow_the_request sample_parse sample_stringify
            Claude sample_conversation).
  reflexivity.
Defined.

Lemma system_prompt_of_the_request_witness :
  exists prompt out,
    convertMessages sample_parse sample_stringify Kimi sample_conversation
      = Done (prompt, out) /\
    prompt = Some (String.concat blank_line
                     ["Be brief."; "Answer in French."]%string).
Proof.
  eexists; eexists. split; [reflexivity |].
  eapply (system_prompt_of_the_request sample_parse sample_stringify Kimi
            sample_conversation).
  reflexivity.
Defined.

Lemma conversion_returns_on_readable_requests_witness :
  exists r,
    convertMessages sample_parse sample_stringify Claude sample_turns = Done r.
Proof.
  apply conversion_returns_on_readable_requests.
  - repeat constructor; intros calls c s H; try discriminate.
    injection H as <-. intros [<- | []] Hs. injection Hs as <-. discriminate.
  - reflexivity.
Defined.

(** *** Images given as data URIs *)

Lemma split_char_nonempty c s : split_char c s <> [].
Proof.
  destruct s as [| a rest]; cbn; [discriminate |].
  destruct (Ascii.eqb a c); [discriminate |].
  destruct (split_char c rest); discriminate.
Qed.

Lemma split_char_free c s : free_of c s = true -> split_char c s = [s].
Proof.
  induction s as [| a rest IH]; cbn; [reflexivity |].
  intros H. apply andb_true_iff in H as [Ha Hr].
  apply negb_true_iff in Ha. rewrite Ha, (IH Hr). reflexivity.
Qed.

Lemma split_char_cut c a p :
  free_of c a = true ->
  split_char c (a ++ String c p) = a :: split_char c p.
Proof.
  induction a as [| x rest IH]; cbn.
  - intros _. now rewrite Ascii.eqb_refl.
  - intros H. apply andb_true_iff in H as [Hx Hr].
    apply negb_true_iff in Hx. rewrite Hx, (IH Hr). reflexivity.
Qed.

Lemma split_char_last c a p :
  free_of c p = true ->
  last (split_char c (a ++ String c p)) EmptyString = p.
Proof.
  intros Hp. induction a as [| x rest IH].
  - cbn [append split_char]. rewrite Ascii.eqb_refl, (split_char_free _ _ Hp).
    reflexivity.
  - cbn [append split_char].
    destruct (split_char c (rest ++ String c p)) as [| seg segs] eqn:E.
    { now apply split_char_nonempty in E. }
    destruct (Ascii.eqb x c).
    + exact IH.
    + destruct segs as [| seg' segs'].
      * (* one segment only: impossible, the separator is in the text *)
        exfalso. clear IH.
        assert (H : (2 <= List.length (split_char c (rest ++ String c p)))%nat).
        { clear E. induction rest as [| y r IHr]; cbn [append split_char].
          - rewrite Ascii.eqb_refl. cbn.
            destruct (split_char c p) eqn:E'; [now apply split_char_nonempty in E' |].
            cbn. lia.
          - destruct (Ascii.eqb y c); [cbn; lia |].
            destruct (split_char c (r ++ String c p)); cbn in *; lia. }
        rewrite E in H. cbn in H. lia.
      * exact IH.
Qed.

Lemma run_to_semicolon_cut mime rest :
  free_of semicolon mime = true ->
  run_to_semicolon (mime ++ String semicolon rest) = mime.
Proof.
  induction mime as [| x m IH]; cbn [append run_to_semicolon free_of].
  - now rewrite Ascii.eqb_refl.
  - intros H. apply andb_true_iff in H as [Hx Hm].
    apply negb_true_iff in Hx. rewrite Hx, (IH Hm). reflexivity.
Qed.

Lemma free_of_app c a b :
  free_of c (a ++ b) = free_of c a && free_of c b.
Proof.
  induction a as [| x r IH]; cbn; [reflexivity |].
  now rewrite IH, andb_assoc.
Qed.

Lemma starts_with_data x : startsWith "data:" ("data:" ++ x) = true.
Proof. unfold startsWith. cbn. destruct x; reflexivity. Qed.

(** X19.  An image block whose address is the data URI
    [data:<mime>;<parameters>,<payload>] (a media type that is not empty
    and has no [;], no comma before the payload, none in it) becomes a
    base64 image source with that media type and that payload, in either
    transcoder. *)
Theorem data_uri_image_is_split v b mime parameters payload :
  mime <> EmptyString ->
  free_of semicolon mime = true ->
  free_of comma mime = true ->
  free_of comma parameters = true ->
  free_of comma payload = true ->
  type b = Some "image_url"%string ->
  url_of b = UrlString (data_uri mime parameters payload) ->
  convertBlock v b = Done (ImageBase64 mime (Some payload)).
Proof.
  intros Hne Hsemi Hc1 Hc2 Hc3 Ht Hu.
  unfold convertBlock. rewrite Ht, Hu.
  cbn [is_role String.eqb Ascii.eqb Bool.eqb].
  unfold data_uri at 1. rewrite starts_with_data. unfold data_image.
  assert (Hsplit : split_char comma (data_uri mime parameters payload)
                   = ("data:" ++ mime ++ String semicolon parameters)%string
                       :: [payload]).
  { unfold data_uri.
    replace ("data:" ++ mime ++ String semicolon parameters
               ++ String comma payload)%string
      with (("data:" ++ mime ++ String semicolon parameters)
              ++ String comma payload)%string.
    - rewrite split_char_cut, (split_char_free _ _ Hc3); [reflexivity |].
      rewrite !free_of_app. cbn [free_of].
      rewrite Hc1, Hc2. reflexivity.
    - rewrite !AnthropicFacts.string_app_assoc. reflexivity. }
  rewrite Hsplit. cbn [nth nth_error].
  assert (Hm : match_data ("data:" ++ mime ++ String semicolon parameters)
               = Some mime).
  { pose proof (starts_with_data (mime ++ String semicolon parameters)) as Hs.
    cbn [append] in Hs |- *. cbn [match_data]. rewrite Hs. cbn [slice].
    rewrite (run_to_semicolon_cut _ _ Hsemi).
    destruct mime; [contradiction | reflexivity]. }
  rewrite Hm. reflexivity.
Qed.

Lemma data_uri_image_is_split_witness :
  convertBlock Claude sample_image
  = Done (ImageBase64 "image/jpeg" (Some "AAAA"%string)).
Proof.
  apply (data_uri_image_is_split Claude sample_image "image/jpeg" "base64"
           "AAAA"); try reflexivity.
  discriminate.
Defined.

(** *** The address of the request *)

Lemma length_append (a b : string) :
  String.length (a ++ b) = (String.length a + String.length b)%nat.
Proof. induction a; cbn; congruence. Qed.

Lemma strip_suffix_complete suffix b :
  strip_suffix suffix (b ++ suffix) = Some b.
Proof.
  induction b as [| x b IH].
  - cbn [append]. destruct suffix; cbn; [reflexivity |].
    now rewrite Ascii.eqb_refl, String.eqb_refl.
  - cbn [append strip_suffix]. rewrite IH.
    destruct (String.eqb (String x (b ++ suffix)) suffix) eqn:E;
      [| reflexivity].
    apply String.eqb_eq in E. apply (f_equal String.length) in E.
    cbn in E. rewrite length_append in E. lia.
Qed.

Lemma strip_suffix_sound suffix s : forall p,
  strip_suffix suffix s = Some p -> s = (p ++ suffix)%string.
Proof.
  induction s as [| c r IH]; intros p H.
  - cbn in H. destruct suffix; [| discriminate].
    injection H as <-. reflexivity.
  - cbn [strip_suffix] in H.
    destruct (String.eqb (String c r) suffix) eqn:E.
    + injection H as <-. now apply String.eqb_eq in E.
    + destruct (strip_suffix suffix r) as [q |]; [| discriminate].
      injection H as <-. cbn. f_equal. now apply IH.
Qed.

Lemma last_character a : forall b c d,
  (a ++ String c EmptyString)%string = (b ++ String d EmptyString)%string ->
  c = d.
Proof.
  induction a as [| x a IH]; intros [| y b] c d H; cbn in H.
  - now injection H.
  - injection H as _ H. destruct b; discriminate.
  - injection H as _ H. destruct a; discriminate.
  - injection H as _ H. eauto.
Qed.

Lemma bare_endpoint_has_no_slash b :
  strip_suffix "/v1/messages/" (b ++ endpoint) = None.
Proof.
  destruct (strip_suffix "/v1/messages/" (b ++ endpoint)) as [p |] eqn:E;
    [| reflexivity].
  apply strip_suffix_sound in E. exfalso.
  change endpoint with ("/v1/message" ++ "s")%string in E.
  change "/v1/messages/"%string with ("/v1/messages" ++ "/")%string in E.
  rewrite <- !AnthropicFacts.string_app_assoc in E.
  apply last_character in E. discriminate.
Qed.

(** X20.  The address the Claude transcoder requests.  A base address that
    names the endpoint, [b/v1/messages] or [b/v1/messages/], gives
    [b/v1/messages]; any other base address has [/v1/messages] appended to
    it as it is.  The Kimi transcoder hands the URL constructor the
    relative path [./v1/messages] and the base [b/] in the first case, the
    base unchanged in the second. *)
Theorem request_address_of_the_base :
  (forall b,
     request_url Claude (b ++ endpoint) = Absolute (b ++ endpoint) /\
     request_url Claude (b ++ endpoint ++ "/") = Absolute (b ++ endpoint) /\
     request_url Kimi (b ++ endpoint) = Relative "./v1/messages" (b ++ "/") /\
     request_url Kimi (b ++ endpoint ++ "/")
       = Relative "./v1/messages" (b ++ "/")) /\
  (forall base,
     names_endpoint base \/
     (request_url Claude base = Absolute (base ++ endpoint) /\
      request_url Kimi base = Relative "./v1/messages" base)).
Proof.
  split.
  - intros b. unfold request_url, replace_endpoint.
    rewrite bare_endpoint_has_no_slash.
    change (endpoint ++ "/")%string with "/v1/messages/"%string.
    change endpoint with "/v1/messages"%string.
    rewrite !strip_suffix_complete, AnthropicFacts.string_app_nil_r.
    repeat split.
  - intros base. unfold request_url, replace_endpoint, names_endpoint.
    destruct (strip_suffix "/v1/messages/" base) as [p |] eqn:E1.
    { left. exists p. right. now apply strip_suffix_sound in E1. }
    destruct (strip_suffix "/v1/messages" base) as [p |] eqn:E2.
    { left. exists p. left. now apply strip_suffix_sound in E2. }
    right. split; reflexivity.
Qed.

(** *** The request body *)

Lemma or_string_nonempty v d : d <> EmptyString -> or_string v d <> EmptyString.
Proof.
  intros Hd. unfold or_string. destruct v as [s |]; [| exact Hd].
  destruct (String.eqb s "") eqn:E; [exact Hd |].
  now apply String.eqb_neq in E.
Qed.

Section AnthropicBody.

Variable JSON_parse : string -> option json.
Variable JSON_stringify : content -> option string.

(** X21.  The body and headers [transformRequestIn] builds never carry an
    empty value where the request or the configuration had none: the model
    is not the empty string, [max_tokens] is not zero, [system] is absent
    rather than empty, [tools] is absent rather than an empty list and has
    one entry for every tool of the request, and an [x-api-key] header is
    never empty. *)
Theorem body_fields_are_filled_or_absent v o env_key r p t :
  transformRequestIn JSON_parse JSON_stringify v o env_key r p = Done t ->
  body_model (request_body t) <> EmptyString /\
  body_max_tokens (request_body t) <> 0%Z /\
  body_system (request_body t) <> Some EmptyString /\
  body_tools (request_body t) <> Some [] /\
  (forall l, body_tools (request_body t) = Some l ->
             option_map (@List.length _) (tools r) = Some (List.length l)) /\
  (forall k, In ("x-api-key"%string, k) (headers t) -> k <> EmptyString).
Proof.
  unfold transformRequestIn. intros H.
  apply and_then_done in H as ([prompt out] & _ & H).
  injection H as <-. cbn [request_body headers body_model body_max_tokens
                           body_system body_tools fst snd body_stream].
  repeat split.
  - apply or_string_nonempty. destruct v; cbn; [discriminate |].
    apply or_string_nonempty. discriminate.
  - unfold or_number. destruct (max_tokens r) as [n |]; [| discriminate].
    destruct (Z.eqb n 0) eqn:E; [discriminate |].
    now apply Z.eqb_neq in E.
  - destruct prompt as [s |]; cbn; [| discriminate].
    destruct (String.eqb s "") eqn:E; cbn; [discriminate |].
    intros Hs. injection Hs as ->. discriminate.
  - unfold convertTools. destruct (tools r) as [[| x l] |]; discriminate.
  - intros l. unfold convertTools.
    destruct (tools r) as [[| x l'] |]; try discriminate.
    intros Hl. injection Hl as <-. cbn. now rewrite length_map.
  - intros k Hk.
    destruct Hk as [Hk | [Hk | Hk]]; [discriminate | discriminate |].
    apply in_app_or in Hk as [Hk | Hk].
    + destruct v; [destruct Hk |].
      destruct (nullish (stream r) false); [| destruct Hk].
      destruct Hk as [Hk | []]. discriminate.
    + destruct (resolved_key p o env_key) as [key |] eqn:E; [| destruct Hk].
      destruct (String.eqb key "") eqn:Ek; [destruct Hk |].
      destruct Hk as [Hk | []]. injection Hk as <-.
      now apply String.eqb_neq in Ek.
Qed.

End AnthropicBody.

Lemma body_fields_are_filled_or_absent_witness :
  exists t,
    transformRequestIn sample_parse sample_stringify Kimi
      (mkOptions None (Some ""%string)) (Some "key"%string)
      (sample_request None None) None = Done t /\
    (body_model (request_body t) <> EmptyString /\
     body_max_tokens (request_body t) <> 0%Z /\
     body_system (request_body t) <> Some EmptyString /\
     body_tools (request_body t) <> Some [] /\
     (forall l, body_tools (request_body t) = Some l ->
                option_map (@List.length _) (tools (sample_request None None))
                = Some (List.length l)) /\
     (forall k, In ("x-api-key"%string, k) (headers t) -> k <> EmptyString)).
Proof.
  eexists. split; [reflexivity |].
  eapply (body_fields_are_filled_or_absent sample_parse sample_stringify Kimi
            (mkOptions None (Some ""%string)) (Some "key"%string)
            (sample_request None None) None).
  reflexivity.
Defined.

(** *** Thinking *)

(** X22.  Whether a request asks for thinking depends on the model name
    only, never on its [thinking] field; every model the Claude transcoder
    turns thinking on for, the Kimi transcoder does too; and the budget
    sent is never a falsy value. *)
Theorem thinking_follows_the_model_name v r :
  (forall r', model r' = model r ->
     (parseThinkingConfig v r' = None <-> parseThinkingConfig v r = None)) /\
  (parseThinkingConfig Claude r <> None -> parseThinkingConfig Kimi r <> None) /\
  (forall c, parseThinkingConfig v r = Some c ->
     truthy (Some (budget_tokens c)) = true).
Proof.
  unfold parseThinkingConfig. split; [| split].
  - intros r' Hm. rewrite Hm.
    destruct (isThinkingModel v (or_string (model r) ""));
      [split; discriminate | split; reflexivity].
  - cbn. destruct (includes_text "thinking" (or_string (model r) ""));
      cbn; [discriminate | contradiction].
  - intros c H.
    destruct (isThinkingModel v (or_string (model r) "")); [| discriminate].
    injection H as <-. cbn. unfold explicit_budget.
    destruct (thinking r) as [[| | | | | ob] |]; try reflexivity.
    destruct (truthy (get "budget_tokens" ob)) eqn:E; [| reflexivity].
    destruct (get "budget_tokens" ob); [exact E | discriminate].
Qed.

Lemma thinking_follows_the_model_name_witness :
  parseThinkingConfig Kimi
    (sample_request (Some "claude-opus-4-5-thinking"%string)
                    (Some (JObj [("budget_tokens"%string, JNum 0)])))
  <> None.
Proof.
  apply (proj1 (proj2 (thinking_follows_the_model_name Kimi
           (sample_request (Some "claude-opus-4-5-thinking"%string)
                           (Some (JObj [("budget_tokens"%string, JNum 0)])))))).
  discriminate.
Defined.

End RequestFacts.

Module GeminiRequestFacts.
Import JS Canonical GeminiRequest RequestSpec.
Import AnthropicRequest(outcome, Done, Throws, and_then, each, is_role,
                        comma, semicolon).

Lemma each_pairs {A B} (f : A -> outcome B) (l : list A) : forall ys,
  each f l = Done ys -> Forall2 (fun x y => f x = Done y) l ys.
Proof.
  induction l as [| x rest IH]; intros ys H.
  - cbn in H. injection H as <-. constructor.
  - cbn in H. apply RequestFacts.and_then_done in H as (y & Hy & H).
    apply RequestFacts.and_then_done in H as (ys' & Hys & H).
    injection H as <-. constructor; auto.
Qed.

Lemma each_length {A B} (f : A -> outcome B) (l : list A) ys :
  each f l = Done ys -> List.length ys = List.length l.
Proof.
  intros H. apply each_pairs in H.
  induction H; cbn; congruence.
Qed.

Section GeminiContents.

Variable JSON_parse : string -> option json.
Variable text_of : json -> string.

(** X23.  The [contents] of a Gemini request, when the transcoder returns
    them, are one content for every message of the request, in order,
    system messages included; the role is [model] for an assistant message
    and [user] for any other; and a content has one part for a string
    content or one for each block of an array content, followed by one for
    each tool call. *)
Theorem gemini_contents_follow_the_request r cs :
  transformRequestIn_contents JSON_parse text_of r = Done cs ->
  exists msgs,
    messages r = Some msgs /\
    Forall2 (fun m c =>
               content_role c = (if is_role (role m) "assistant"
                                 then "model" else "user")%string /\
               List.length (parts c) = part_count m) msgs cs.
Proof.
  unfold transformRequestIn_contents.
  destruct (messages r) as [msgs |]; [| discriminate].
  intros H. exists msgs. split; [reflexivity |].
  apply each_pairs in H.
  induction H as [| m c ms cs' Hm _ IH]; constructor; [| exact IH].
  clear IH. unfold convertMessage in Hm.
  apply RequestFacts.and_then_done in Hm as (from_content & Hc & Hm).
  apply RequestFacts.and_then_done in Hm as (from_calls & Ht & Hm).
  injection Hm as <-. cbn [content_role parts]. split; [reflexivity |].
  rewrite length_app. unfold part_count. f_equal.
  - destruct (message_content m) as [s | blocks | o].
    + injection Hc as <-. reflexivity.
    + now apply each_length in Hc.
    + injection Hc as <-. reflexivity.
  - destruct (tool_calls m) as [calls |].
    + now apply each_length in Ht.
    + injection Ht as <-. reflexivity.
Qed.

End GeminiContents.

Lemma gemini_contents_follow_the_request_witness :
  exists cs,
    transformRequestIn_contents sample_parse sample_text_of
      (sample_request None None) = Done cs /\
    exists msgs,
      messages (sample_request None None) = Some msgs /\
      Forall2 (fun m c =>
                 content_role c = (if is_role (role m) "assistant"
                                   then "model" else "user")%string /\
                 List.length (parts c) = part_count m) msgs cs.
Proof.
  eexists. split; [reflexivity |].
  eapply (gemini_contents_follow_the_request sample_parse sample_text_of
            (sample_request None None)).
  reflexivity.
Defined.

(** X24.  An image block of a Gemini request.  An address that starts with
    [http] is sent as [file_data] with the address as it is; a data URI
    [<head>,<payload>] whose payload is not empty and has no comma is sent
    as [inlineData] that carries the payload only.  Both keep the
    [media_type] of the block. *)
Theorem gemini_image_parts kind :
  (forall address,
     startsWith "http" address = true ->
     convertBlock (image_block address kind) = Done (FileData kind address)) /\
  (forall mime parameters payload,
     payload <> EmptyString ->
     free_of comma payload = true ->
     convertBlock (image_block (data_uri mime parameters payload) kind)
     = Done (InlineData kind payload)).
Proof.
  split.
  - intros address H. unfold convertBlock, image_block.
    cbn [type image_url media_type is_role String.eqb Ascii.eqb Bool.eqb].
    rewrite H. reflexivity.
  - intros mime parameters payload Hne Hfree.
    unfold convertBlock, image_block.
    cbn [type image_url media_type is_role String.eqb Ascii.eqb Bool.eqb].
    assert (Hs : startsWith "http" (data_uri mime parameters payload) = false)
      by reflexivity.
    rewrite Hs. unfold inline_payload.
    assert (Hl : last (split_char comma (data_uri mime parameters payload))
                      EmptyString = payload).
    { unfold data_uri.
      replace ("data:" ++ mime ++ String semicolon parameters
                 ++ String comma payload)%string
        with (("data:" ++ mime ++ String semicolon parameters)
                ++ String comma payload)%string.
      - now apply RequestFacts.split_char_last.
      - rewrite !AnthropicFacts.string_app_assoc. reflexivity. }
    rewrite Hl. unfold or_string.
    destruct (String.eqb payload "") eqn:E; [| reflexivity].
    now apply String.eqb_eq in E.
Qed.

Lemma gemini_image_parts_witness :
  convertBlock sample_image = Done (InlineData (Some "image/jpeg"%string) "AAAA").
Proof.
  apply (proj2 (gemini_image_parts (Some "image/jpeg"%string))
           "image/jpeg" "base64" "AAAA"); [discriminate | reflexivity].
Defined.

End GeminiRequestFacts.
